(** * PurC: a shallow embedding of selected runtime paths

  Each module below embeds one translation unit of the interpreter
  (document type lookup, renderer operation tables, variant arrays, the
  VCM evaluator, the iterate and archetype verbs, the HBDBus handshake and
  the large-page streaming of the renderer client) and states the
  properties of the natural-language specification against it. *)

From Stdlib Require Import ZArith Lia Bool List Ascii.
From stdpp Require Import base option list strings gmap.

Set Warnings "-register-all".

Open Scope string_scope.
Open Scope list_scope.
Open Scope nat_scope.

(* ===================================================================== *)
(** ** document/document.c : document type lookup                         *)
(* ===================================================================== *)

Module Document.

(** [purc_document_type] is a C enumeration; the code computes on its
    numeric value ([PCDOC_K_TYPE_FIRST + i]), so it is kept as [Z]. *)
Definition purc_document_type := Z.

Definition PCDOC_K_TYPE_FIRST : purc_document_type := 0%Z.
Definition PCDOC_K_TYPE_VOID  : purc_document_type := PCDOC_K_TYPE_FIRST.
Definition PCDOC_K_TYPE_PLAIN : purc_document_type := 1%Z.
Definition PCDOC_K_TYPE_HTML  : purc_document_type := 2%Z.
Definition PCDOC_K_TYPE_XML   : purc_document_type := 3%Z.
Definition PCDOC_K_TYPE_XGML  : purc_document_type := 4%Z.
Definition PCDOC_K_TYPE_LAST  : purc_document_type := PCDOC_K_TYPE_XGML.

Definition PCDOC_TYPE_VOID  : string := "void".
Definition PCDOC_TYPE_PLAIN : string := "plain".
Definition PCDOC_TYPE_HTML  : string := "html".
Definition PCDOC_TYPE_XML   : string := "xml".
Definition PCDOC_TYPE_XGML  : string := "xgml".

(** The operation tables themselves live in other translation units; only
    their presence matters here, so a table is named by a tag. *)
Inductive purc_document_ops := pcdoc_void_ops | pcdoc_html_ops.

Record doc_type := {
  target_name : string;
  ops         : option purc_document_ops   (* [None] is the NULL pointer *)
}.

Definition doc_types : list doc_type :=
  [ {| target_name := PCDOC_TYPE_VOID;  ops := Some pcdoc_void_ops |};
    {| target_name := PCDOC_TYPE_PLAIN; ops := None |};
    {| target_name := PCDOC_TYPE_HTML;  ops := Some pcdoc_html_ops |};
    {| target_name := PCDOC_TYPE_XML;   ops := None |};
    {| target_name := PCDOC_TYPE_XGML;  ops := None |} ].

(** [strcmp(a, b) == 0] on NUL-terminated strings. *)
Definition strcmp_eq (a b : string) : bool := String.eqb a b.

(** The [for] loop of [purc_document_retrieve_type], from index [i] on:
    the first entry whose name matches either returns its index (when its
    table is present) or leaves the loop ([break]) for the fallback. *)
Fixpoint retrieve_loop (name : string) (tbl : list doc_type) (i : Z)
  : purc_document_type :=
  match tbl with
  | [] => PCDOC_K_TYPE_VOID
  | e :: rest =>
      if strcmp_eq name (target_name e) then
        match ops e with
        | Some _ => (PCDOC_K_TYPE_FIRST + i)%Z
        | None => PCDOC_K_TYPE_VOID          (* break; then fallback *)
        end
      else retrieve_loop name rest (i + 1)%Z
  end.

(** [purc_document_retrieve_type]; a NULL [target_name] is [None].  The C
    function touches no state: in particular it never sets the error
    slot. *)
Definition purc_document_retrieve_type (name : option string)
  : purc_document_type :=
  match name with
  | None => PCDOC_K_TYPE_VOID
  | Some s => retrieve_loop s doc_types 0%Z
  end.

(** The per-thread error slot, as far as [purc_document_new] uses it. *)
Inductive purc_error := PURC_ERROR_OK | PURC_ERROR_NOT_IMPLEMENTED.

(** [purc_document_new]: the sibling that does report the missing table.
    [create] stands for [ops->create(NULL, 0)]. *)
Definition purc_document_new {doc : Type}
    (create : purc_document_ops -> option doc)
    (type : purc_document_type) (err : purc_error)
  : option doc * purc_error :=
  match nth_error doc_types (Z.to_nat type) with
  | Some {| ops := Some o |} => (create o, err)
  | _ => (None, PURC_ERROR_NOT_IMPLEMENTED)
  end.

Definition discriminators : list string :=
  [PCDOC_TYPE_VOID; PCDOC_TYPE_PLAIN; PCDOC_TYPE_HTML; PCDOC_TYPE_XML;
   PCDOC_TYPE_XGML].

End Document.

(* ===================================================================== *)
(** ** pcrdr/pcrdr.c and interpreter/rdr.c : renderer operation tables    *)
(* ===================================================================== *)

Module Pcrdr.

(** The [PCRDR_OPERATION_*] macros are declared in a header that is not
    part of the sources at hand; both tables annotate every entry with the
    string the macro expands to, and the strings below are those. *)

(** [pcrdr_opatoms] of pcrdr/pcrdr.c (the [op] column; the [atom] column
    is filled by [renderer_init_once]). *)
Definition pcrdr_opatoms : list string :=
  [ "startSession"; "endSession";
    "createWorkspace"; "updateWorkspace"; "destroyWorkspace";
    "createPlainWindow"; "updatePlainWindow"; "destroyPlainWindow";
    "createTabbedWindow"; "updateTabbedWindow"; "destroyTabbedWindow";
    "createTabpage"; "updateTabpage"; "destroyTabpage";
    "load"; "writeBegin"; "writeMore"; "writeEnd";
    "append"; "prepend"; "insertBefore"; "insertAfter";
    "displace"; "update"; "erase"; "clear" ].

(** [rdr_ops] of interpreter/rdr.c, indexed by [PCRDR_K_OPERATION_*]. *)
Definition rdr_ops : list string :=
  [ "startSession"; "endSession";
    "createWorkspace"; "updateWorkspace"; "destroyWorkspace";
    "createPlainWindow"; "updatePlainWindow"; "destroyPlainWindow";
    "setPageGroups"; "addPageGroups"; "removePageGroup";
    "createWidget"; "updateWidget"; "destroyWidget";
    "load"; "writeBegin"; "writeMore"; "writeEnd";
    "register"; "revoke";
    "append"; "prepend"; "insertBefore"; "insertAfter";
    "displace"; "update"; "erase"; "clear";
    "callMethod"; "getProperty"; "setProperty" ].

(** The closed, ordered set of operations of the specification (§6). *)
Definition spec_operations : list string :=
  [ "startSession"; "endSession"; "createWorkspace"; "updateWorkspace";
    "destroyWorkspace"; "createPlainWindow"; "updatePlainWindow";
    "destroyPlainWindow"; "setPageGroups"; "addPageGroups";
    "removePageGroup"; "createWidget"; "updateWidget"; "destroyWidget";
    "load"; "writeBegin"; "writeMore"; "writeEnd"; "register"; "revoke";
    "append"; "prepend"; "insertBefore"; "insertAfter"; "displace";
    "update"; "erase"; "clear"; "callMethod"; "getProperty";
    "setProperty" ].

(** Both files carry
    [_COMPILE_TIME_ASSERT(ops, PCA_TABLESIZE(table) == PCRDR_NR_OPERATIONS)];
    the assertion holds of a table for a given value of the constant when
    the lengths agree. *)
Definition compile_time_assert_ops (table : list string) (nr : nat) : bool :=
  Nat.eqb (length table) nr.

(** [pcrdr_operation_from_atom], with the atoms of the table allocated
    consecutively from [first] by [renderer_init_once]: the operation the
    runtime knows for an atom. *)
Definition pcrdr_operation_from_atom (first : nat) (op_atom : nat)
  : option (string * nat) :=
  let last := (first + (length pcrdr_opatoms - 1))%nat in
  if ((first <=? op_atom) && (op_atom <=? last))%nat then
    let id := (op_atom - first)%nat in
    match nth_error pcrdr_opatoms id with
    | Some op => Some (op, id)
    | None => None
    end
  else None.

(** The operation strings the atom table makes known to the runtime. *)
Definition known_operation (op : string) : bool :=
  existsb (String.eqb op) pcrdr_opatoms.

End Pcrdr.

(* ===================================================================== *)
(** ** A writer monad with abort, shared by the embeddings below          *)
(* ===================================================================== *)

Module Run.

(** A computation leaves a log of observable events and either returns a
    value or stops at a failed [PC_ASSERT] ([None]).  [PC_ASSERT] is always
    active: the sources wrap calls with side effects in it
    ([PC_ASSERT(0 == on_child_finished(co, frame))]). *)
Record run (E A : Type) := Run { log : list E; out : option A }.
Arguments Run {E A} _ _.
Arguments log {E A} _.
Arguments out {E A} _.

Definition ret {E A} (a : A) : run E A := Run [] (Some a).
Definition abort {E A} : run E A := Run [] None.
Definition emit {E} (e : E) : run E unit := Run [e] (Some tt).

Definition bind {E A B} (m : run E A) (k : A -> run E B) : run E B :=
  match out m with
  | None => Run (log m) None
  | Some a => let r := k a in Run (log m ++ log r) (out r)
  end.

Definition PC_ASSERT {E} (cond : bool) : run E unit :=
  if cond then ret tt else abort.

(** [evals m evs a]: the computation logs exactly [evs] and returns [a]. *)
Definition evals {E A} (m : run E A) (evs : list E) (a : A) : Prop :=
  log m = evs /\ out m = Some a.

End Run.

Declare Scope run_scope.
Delimit Scope run_scope with run.
Notation "x <- m ;; k" := (Run.bind m (fun x => k))
(at level 90, m at next level, right associativity) : run_scope.
Notation "m ;;; k" := (Run.bind m (fun _ => k))
(at level 90, right associativity) : run_scope.

(* ===================================================================== *)
(** ** variant/variant-array.c : array variants and their listeners       *)
(* ===================================================================== *)

Module VariantArray.
Import Run.
Local Open Scope run_scope.

(** A [purc_variant_t] is a pointer; [0] is [PURC_VARIANT_INVALID]
    (NULL), which is also what an empty slot of the array list holds. *)
Abbreviation purc_variant_t := N.
Definition PURC_VARIANT_INVALID : purc_variant_t := 0%N.

(** [purc_variant_make_undefined ()] returns the address of the one
    constant undefined variant. *)
Definition purc_variant_make_undefined : purc_variant_t := 1%N.

Inductive purc_variant_type :=
| PURC_VARIANT_TYPE_UNDEFINED | PURC_VARIANT_TYPE_NULL
| PURC_VARIANT_TYPE_BOOLEAN | PURC_VARIANT_TYPE_NUMBER
| PURC_VARIANT_TYPE_LONGINT | PURC_VARIANT_TYPE_ULONGINT
| PURC_VARIANT_TYPE_LONGDOUBLE | PURC_VARIANT_TYPE_ATOMSTRING
| PURC_VARIANT_TYPE_STRING | PURC_VARIANT_TYPE_BSEQUENCE
| PURC_VARIANT_TYPE_DYNAMIC | PURC_VARIANT_TYPE_NATIVE
| PURC_VARIANT_TYPE_OBJECT | PURC_VARIANT_TYPE_ARRAY
| PURC_VARIANT_TYPE_SET.

Definition is_array_type (t : purc_variant_type) : bool :=
  match t with PURC_VARIANT_TYPE_ARRAY => true | _ => false end.

(** What the array code lets the outside observe. *)
Inductive event :=
| EvCall (ctxt : N) (msg_type : string) (args : list purc_variant_t)
    (** one invocation of a listener's handler *)
| EvRef (v : purc_variant_t)        (** [purc_variant_ref] *)
| EvUnref (v : purc_variant_t)      (** [purc_variant_unref] *)
| EvCheckFail                       (** [PCVARIANT_CHECK_FAIL_RET] fired *)
| EvOutOfMemory.                    (** [pcinst_set_error(OUT_OF_MEMORY)] *)

Definition M := run event.

(** [struct pcvar_listener]: the atom the listener was registered for
    (atoms are interned strings, compared by identity), its context and its
    handler; a NULL handler is [None].  The handler's verdict is its return
    value. *)
Record pcvar_listener := {
  name    : string;
  ctxt    : N;
  handler : option (purc_variant_t -> string -> N ->
                    list purc_variant_t -> bool)
}.

(** The array list, seen through its [length] live slots. *)
Record pcutils_arrlist := { array : list purc_variant_t }.

Definition pcutils_arrlist_length (al : pcutils_arrlist) : nat :=
  length (array al).

(** The variant header of an array: its own address, its type tag, the
    array list behind [sz_ptr[1]] and the listener list. *)
Record purc_variant := {
  addr      : purc_variant_t;
  vtype     : purc_variant_type;
  al        : pcutils_arrlist;
  listeners : list pcvar_listener
}.

Definition set_al (a : purc_variant) (l : list purc_variant_t)
  : purc_variant :=
  {| addr := addr a; vtype := vtype a; al := {| array := l |};
     listeners := listeners a |}.

Definition list_empty {A} (l : list A) : bool :=
  match l with [] => true | _ => false end.

(** The body of [list_for_each] shared by [grown], [shrunk] and [change]:
    assert the handler, skip listeners of another name, call, assert the
    verdict. *)
Fixpoint fire_each (arr : purc_variant_t) (msg_type : string)
    (args : list purc_variant_t) (ls : list pcvar_listener) : M unit :=
  match ls with
  | [] => ret tt
  | l :: rest =>
      match handler l with
      | None => abort                                (* PC_ASSERT(l->handler) *)
      | Some h =>
          if negb (String.eqb (name l) msg_type) then
            fire_each arr msg_type args rest          (* continue *)
          else
            emit (EvCall (ctxt l) msg_type args) ;;;
            PC_ASSERT (h arr msg_type (ctxt l) args) ;;;
            fire_each arr msg_type args rest
      end
  end.

(** [grown]: note the guard, which returns when the listener list is
    {e not} empty. *)
Definition grown (a : purc_variant) (value : purc_variant_t) : M unit :=
  if negb (list_empty (listeners a)) then ret tt
  else fire_each (addr a) "grown" [value] (listeners a).

Definition shrunk (a : purc_variant) (value : purc_variant_t) : M unit :=
  if negb (list_empty (listeners a)) then ret tt
  else fire_each (addr a) "shrunk" [value] (listeners a).

Definition change (a : purc_variant) (o n : purc_variant_t) : M unit :=
  if negb (list_empty (listeners a)) then ret tt
  else fire_each (addr a) "change" [n; o] (listeners a).

(** The values of an [int], and the sum of two of them, which wraps
    around at the ends of the range. *)
Definition INT_MAX : Z := 2147483647%Z.
Definition INT_MIN : Z := (-2147483648)%Z.

Definition int_add (a b : Z) : Z :=
  ((a + b - INT_MIN) mod (INT_MAX - INT_MIN + 1) + INT_MIN)%Z.

(** [_fill_empty_with_undefined]: every NULL slot below [length] becomes
    the undefined variant. *)
Definition _fill_empty_with_undefined (l : list purc_variant_t)
  : list purc_variant_t :=
  map (fun val => if N.eqb val 0 then purc_variant_make_undefined else val) l.

Section WithAllocator.

(** Whether (re)allocating the slot array for the given number of slots
    succeeds. *)
Variable realloc_ok : nat -> bool.

(** Modelled from the spec: [pcutils_arrlist_put_idx] of
    utils/arraylist.c, which is not among the sources.  It stores [data]
    at [idx], growing the list when [idx] is at or beyond its length and
    leaving the slots in between empty (NULL) -- the state the caller's
    "fill empty slot with undefined value" step expects; [None] is its
    non-zero return on allocation failure. *)
Definition pcutils_arrlist_put_idx (l : list purc_variant_t) (idx : nat)
    (data : purc_variant_t) : option (list purc_variant_t) :=
  if realloc_ok (idx + 1) then
    Some (if (idx <? length l)%nat then <[idx := data]> l
          else l ++ replicate (idx - length l) 0%N ++ [data])
  else None.

(** Modelled from the spec: [pcutils_arrlist_shrink (al, 1)] of
    utils/arraylist.c (not among the sources), used by the caller to
    "expand by 1 empty slot": it only resizes the storage. *)
Definition pcutils_arrlist_shrink (l : list purc_variant_t)
    (empty_slots : nat) : bool :=
  realloc_ok (length l + empty_slots).

(** Modelled from the spec: [pcutils_arrlist_del_idx (al, idx, 1)] of
    utils/arraylist.c (not among the sources) removes the slot at
    [idx]. *)
Definition pcutils_arrlist_del_idx (l : list purc_variant_t) (idx : nat)
  : list purc_variant_t := delete idx l.

(** All the public functions below return the C result together with the
    array as the call leaves it.  A NULL [array] argument is [None]. *)

Definition purc_variant_array_insert_before (array0 : option purc_variant)
    (idx : Z) (value : purc_variant_t) : M (bool * option purc_variant) :=
  match array0 with
  | Some a =>
      if is_array_type (vtype a) && (0 <=? idx)%Z
         && negb (N.eqb value 0) && negb (N.eqb (addr a) value) then
        let l := array (al a) in
        let nr := length l in
        let idx := if (Z.of_nat nr <=? idx)%Z then nr else Z.to_nat idx in
        if negb (pcutils_arrlist_shrink l 1) then
          emit EvOutOfMemory ;;; ret (false, Some a)
        else
          (* memmove of idx..nr-1 one slot up, store, length += 1 *)
          let a' := set_al a (take idx l ++ value :: drop idx l) in
          shrunk a' value ;;;
          emit (EvRef value) ;;;
          ret (true, Some a')
      else emit EvCheckFail ;;; ret (false, array0)
  | None => emit EvCheckFail ;;; ret (false, array0)
  end.

(** [idx + 1] is a sum of [int]s: at [INT_MAX] it wraps around to
    [INT_MIN], as the compiled code does. *)
Definition purc_variant_array_insert_after (array0 : option purc_variant)
    (idx : Z) (value : purc_variant_t) : M (bool * option purc_variant) :=
  purc_variant_array_insert_before array0 (int_add idx 1) value.

Definition purc_variant_array_append (array0 : option purc_variant)
    (value : purc_variant_t) : M (bool * option purc_variant) :=
  match array0 with
  | Some a =>
      if is_array_type (vtype a) && negb (N.eqb value 0) then
        let nr := pcutils_arrlist_length (al a) in
        purc_variant_array_insert_before array0 (Z.of_nat nr) value
      else emit EvCheckFail ;;; ret (false, array0)
  | None => emit EvCheckFail ;;; ret (false, array0)
  end.

Definition purc_variant_array_prepend (array0 : option purc_variant)
    (value : purc_variant_t) : M (bool * option purc_variant) :=
  match array0 with
  | Some a =>
      if is_array_type (vtype a) && negb (N.eqb value 0) then
        purc_variant_array_insert_before array0 0%Z value
      else emit EvCheckFail ;;; ret (false, array0)
  | None => emit EvCheckFail ;;; ret (false, array0)
  end.

Definition purc_variant_array_set (array0 : option purc_variant)
    (idx : Z) (value : purc_variant_t) : M (bool * option purc_variant) :=
  match array0 with
  | Some a =>
      if is_array_type (vtype a) && (0 <=? idx)%Z
         && negb (N.eqb value 0) && negb (N.eqb (addr a) value) then
        let l := array (al a) in
        let nr := length l in
        if (Z.of_nat nr <=? idx)%Z then
          match pcutils_arrlist_put_idx l (Z.to_nat idx) value with
          | None => emit EvOutOfMemory ;;; ret (false, Some a)
          | Some l1 =>
              let a' := set_al a (_fill_empty_with_undefined l1) in
              emit (EvRef value) ;;;
              grown a' value ;;;
              ret (true, Some a')
          end
        else
          let v := nth (Z.to_nat idx) l 0%N in
          if negb (N.eqb v value) then
            change a v value ;;;
            emit (EvUnref v) ;;;
            emit (EvRef value) ;;;
            ret (true, Some (set_al a (<[Z.to_nat idx := value]> l)))
          else
            emit (EvRef value) ;;; ret (true, Some a)
      else emit EvCheckFail ;;; ret (false, array0)
  | None => emit EvCheckFail ;;; ret (false, array0)
  end.

Definition purc_variant_array_remove (array0 : option purc_variant)
    (idx : Z) : M (bool * option purc_variant) :=
  match array0 with
  | Some a =>
      if is_array_type (vtype a) && (0 <=? idx)%Z then
        let l := array (al a) in
        let nr := length l in
        if (Z.of_nat nr <=? idx)%Z then ret (true, Some a)
        else
          let v := nth (Z.to_nat idx) l 0%N in
          let a' := set_al a (pcutils_arrlist_del_idx l (Z.to_nat idx)) in
          shrunk a' v ;;;
          emit (EvUnref v) ;;;
          ret (true, Some a')
      else emit EvCheckFail ;;; ret (false, array0)
  | None => emit EvCheckFail ;;; ret (false, array0)
  end.

End WithAllocator.

(** The handler invocations recorded in a log. *)
Definition is_call (e : event) : bool :=
  match e with EvCall _ _ _ => true | _ => false end.

Definition handler_calls {A} (m : M A) : list event :=
  filter (fun e => is_call e = true) (log m).

(** Every live slot of a variant array holds a variant
    ([purc_variant_array_get] asserts it). *)
Definition slots_valid (a : purc_variant) : Prop :=
  Forall (fun v => v <> 0%N) (array (al a)).

(** An allocator with room for [n] slots and no more. *)
Definition room_for (n : nat) (slots : nat) : bool := slots <=? n.

(** The array with one listener registered for "grown" on which the
    specification and the code part ways. *)
Definition grow_listener : pcvar_listener :=
  {| name := "grown"; ctxt := 7%N; handler := Some (fun _ _ _ _ => true) |}.

Definition watched_array : purc_variant :=
  {| addr := 100%N; vtype := PURC_VARIANT_TYPE_ARRAY;
     al := {| array := [5%N] |}; listeners := [grow_listener] |}.

(** [purc_variant_array_get]: the member at [idx], or
    [PURC_VARIANT_INVALID] after a failed check; a NULL slot below the
    length fails [PC_ASSERT(var)]. *)
Definition purc_variant_array_get (array0 : option purc_variant) (idx : Z)
  : M purc_variant_t :=
  match array0 with
  | Some a =>
      if is_array_type (vtype a) && (0 <=? idx)%Z then
        let l := array (al a) in
        let nr := length l in
        if (idx <? Z.of_nat nr)%Z then
          let var := nth (Z.to_nat idx) l 0%N in
          PC_ASSERT (negb (N.eqb var 0)) ;;; ret var
        else emit EvCheckFail ;;; ret PURC_VARIANT_INVALID
      else emit EvCheckFail ;;; ret PURC_VARIANT_INVALID
  | None => emit EvCheckFail ;;; ret PURC_VARIANT_INVALID
  end.

(** [purc_variant_array_size].  The out-parameter [sz] is the cell it
    points to ([None] for a NULL pointer); the result is the C return value
    and the cell as the call leaves it. *)
Definition purc_variant_array_size (array0 : option purc_variant)
    (sz : option nat) : M (bool * option nat) :=
  match array0, sz with
  | Some a, Some _ =>
      if is_array_type (vtype a) then
        ret (true, Some (pcutils_arrlist_length (al a)))
      else emit EvCheckFail ;;; ret (false, sz)
  | _, _ => abort                              (* PC_ASSERT(array && sz) *)
  end.

(** The reference-count traffic recorded in a log. *)
Definition is_refcount (e : event) : bool :=
  match e with EvRef _ | EvUnref _ => true | _ => false end.

Definition refcount_events {A} (m : M A) : list event :=
  filter (fun e => is_refcount e = true) (log m).

(** A call that reports failure hands back the array it was given and has
    touched no reference count. *)
Definition leaves_untouched (array0 : option purc_variant)
    (m : M (bool * option purc_variant)) : Prop :=
  forall a', out m = Some (false, a') -> a' = array0 /\ refcount_events m = [].

(** A call returns, and the array it leaves is the same variant (address,
    type tag, listeners) with a variant in every slot. *)
Definition keeps_array (a : purc_variant)
    (m : M (bool * option purc_variant)) : Prop :=
  exists b a',
    out m = Some (b, Some a')
    /\ addr a' = addr a /\ vtype a' = vtype a /\ listeners a' = listeners a
    /\ Forall (fun v => v <> 0%N) (array (al a')).

(** An array without listeners that holds three members. *)
Definition plain_array : purc_variant :=
  {| addr := 100%N; vtype := PURC_VARIANT_TYPE_ARRAY;
     al := {| array := [5%N; 6%N; 7%N] |}; listeners := [] |}.

End VariantArray.

(* ===================================================================== *)
(** ** vcm/vcm.c : evaluation of VCM trees                                *)
(* ===================================================================== *)

Module Vcm.

Inductive pcvcm_node_type :=
| PCVCM_NODE_TYPE_OBJECT
| PCVCM_NODE_TYPE_ARRAY
| PCVCM_NODE_TYPE_STRING
| PCVCM_NODE_TYPE_NULL
| PCVCM_NODE_TYPE_BOOLEAN
| PCVCM_NODE_TYPE_NUMBER
| PCVCM_NODE_TYPE_LONG_INT
| PCVCM_NODE_TYPE_ULONG_INT
| PCVCM_NODE_TYPE_LONG_DOUBLE
| PCVCM_NODE_TYPE_BYTE_SEQUENCE
| PCVCM_NODE_TYPE_FUNC_CONCAT_STRING
| PCVCM_NODE_TYPE_FUNC_GET_VARIABLE
| PCVCM_NODE_TYPE_FUNC_GET_ELEMENT
| PCVCM_NODE_TYPE_FUNC_CALL_GETTER
| PCVCM_NODE_TYPE_FUNC_CALL_SETTER.

(** Floating-point payloads are only carried from the node to the variant;
    they are kept as their bit patterns. *)
Abbreviation double := Z.
Abbreviation long_double := Z.

(** The [data] union of a node, as the constructors of vcm.c fill it; a
    node made by [pcvcm_node_new] alone is all zero ([DZero]). *)
Inductive pcvcm_node_data :=
| DZero
| DB (b : bool)
| DD (d : double)
| DI64 (i64 : Z)
| DU64 (u64 : Z)
| DLD (ld : long_double)
| DSzPtr (nr_bytes : nat) (buf : string).

Definition data_b (d : pcvcm_node_data) : bool :=
  match d with DB b => b | _ => false end.
Definition data_d (d : pcvcm_node_data) : double :=
  match d with DD x => x | _ => 0%Z end.
Definition data_i64 (d : pcvcm_node_data) : Z :=
  match d with DI64 x => x | _ => 0%Z end.
Definition data_u64 (d : pcvcm_node_data) : Z :=
  match d with DU64 x => x | _ => 0%Z end.
Definition data_ld (d : pcvcm_node_data) : long_double :=
  match d with DLD x => x | _ => 0%Z end.
Definition data_buf (d : pcvcm_node_data) : string :=
  match d with DSzPtr _ buf => buf | _ => "" end.
Definition data_nr_bytes (d : pcvcm_node_data) : nat :=
  match d with DSzPtr n _ => n | _ => 0 end.

(** [struct pcvcm_node]: the type, the data and the children in the order
    of the [first_child]/[next] chain. *)
Inductive pcvcm_node :=
| Node (type : pcvcm_node_type) (data : pcvcm_node_data)
       (children : list pcvcm_node).

Definition pcvcm_node_new (type : pcvcm_node_type) : pcvcm_node :=
  Node type DZero [].

Definition pcvcm_node_new_string (str_utf8 : string) : pcvcm_node :=
  Node PCVCM_NODE_TYPE_STRING (DSzPtr (String.length str_utf8) str_utf8) [].

Definition pcvcm_node_new_number (d : double) : pcvcm_node :=
  Node PCVCM_NODE_TYPE_NUMBER (DD d) [].

Definition pcvcm_node_new_get_variable (node : option pcvcm_node)
  : pcvcm_node :=
  Node PCVCM_NODE_TYPE_FUNC_GET_VARIABLE DZero
       (match node with Some n => [n] | None => [] end).

(** The variants the evaluator builds. *)
Inductive variant :=
| VNull
| VBoolean (b : bool)
| VNumber (d : double)
| VLongInt (i64 : Z)
| VULongInt (u64 : Z)
| VLongDouble (ld : long_double)
| VString (s : string)
| VBSequence (bytes : string) (nr_bytes : nat)
| VArray (members : list variant)
| VObject (members : list (variant * variant)).

(** Keys of an object are compared as strings. *)
Definition key_eqb (a b : variant) : bool :=
  match a, b with
  | VString x, VString y => String.eqb x y
  | _, _ => false
  end.

(** Modelled from the spec: [purc_variant_object_set], which is not among
    the sources; §4.3 has object children "taken in pairs (k, v);
    last-write-wins on duplicate keys", and §3.1 has objects preserve
    insertion order. *)
Fixpoint purc_variant_object_set (members : list (variant * variant))
    (k v : variant) : list (variant * variant) :=
  match members with
  | [] => [(k, v)]
  | (k', v') :: rest =>
      if key_eqb k' k then (k', v) :: rest
      else (k', v') :: purc_variant_object_set rest k v
  end.

(** The [while (k_node && v_node)] loop of [pcvcm_node_object_to_variant]
    over the evaluated children. *)
Fixpoint object_pairs (object : list (variant * variant))
    (vals : list variant) : list (variant * variant) :=
  match vals with
  | key :: value :: rest =>
      object_pairs (purc_variant_object_set object key value) rest
  | _ => object
  end.

(** [pcvcm_node_to_variant], with [pcvcm_node_object_to_variant] and
    [pcvcm_node_array_to_variant] inlined at their calls. *)
Fixpoint pcvcm_node_to_variant (node : pcvcm_node) : variant :=
  match node with
  | Node type data children =>
      match type with
      | PCVCM_NODE_TYPE_OBJECT =>
          VObject (object_pairs [] (map pcvcm_node_to_variant children))
      | PCVCM_NODE_TYPE_ARRAY =>
          VArray (map pcvcm_node_to_variant children)
      | PCVCM_NODE_TYPE_STRING => VString (data_buf data)
      | PCVCM_NODE_TYPE_NULL => VNull
      | PCVCM_NODE_TYPE_BOOLEAN => VBoolean (data_b data)
      | PCVCM_NODE_TYPE_NUMBER => VNumber (data_d data)
      | PCVCM_NODE_TYPE_LONG_INT => VLongInt (data_i64 data)
      | PCVCM_NODE_TYPE_ULONG_INT => VULongInt (data_u64 data)
      | PCVCM_NODE_TYPE_LONG_DOUBLE => VLongDouble (data_ld data)
      | PCVCM_NODE_TYPE_BYTE_SEQUENCE =>
          VBSequence (data_buf data) (data_nr_bytes data)
      | _ => VNull                                            (* default: TODO *)
      end
  end.

(** Modelled from the spec: the evaluation context ([struct pcintr_stack]
    is declared in a header that is not among the sources): the scope chain,
    innermost scope first, the document scope and the process scope (§3.4,
    §4.3). *)
Record pcintr_stack := {
  scope_chain   : list (gmap string variant);
  doc_scope     : gmap string variant;
  process_scope : gmap string variant
}.

(** Modelled from the spec: the resolution of a name that §4.3 describes
    ("innermost-first, then document scope, then process scope"). *)
Fixpoint resolve_in (scopes : list (gmap string variant)) (name : string)
  : option variant :=
  match scopes with
  | [] => None
  | sc :: rest =>
      match sc !! name with
      | Some v => Some v
      | None => resolve_in rest name
      end
  end.

Definition resolve_variable (stack : pcintr_stack) (name : string)
  : option variant :=
  resolve_in (scope_chain stack ++ [doc_scope stack; process_scope stack])
             name.

(** [pcvcm_eval]: the stack is an unused parameter; a NULL tree is
    [None]. *)
Definition pcvcm_eval (tree : option pcvcm_node) (stack : pcintr_stack)
  : variant :=
  match tree with
  | None => VNull
  | Some t => pcvcm_node_to_variant t
  end.

(** A context that binds [x] to the number with bit pattern 5 in its
    innermost scope. *)
Definition stack_with_x : pcintr_stack :=
  {| scope_chain := [ {[ "x" := VNumber 5%Z ]} ];
     doc_scope := ∅; process_scope := ∅ |}.

(** The other constructors of literal nodes; [pctree_node_append_child]
    puts a node behind the children there are. *)
Definition pcvcm_node_new_object (nodes : list pcvcm_node) : pcvcm_node :=
  match pcvcm_node_new PCVCM_NODE_TYPE_OBJECT with
  | Node type data children => Node type data (children ++ nodes)
  end.

Definition pcvcm_node_new_array (nodes : list pcvcm_node) : pcvcm_node :=
  match pcvcm_node_new PCVCM_NODE_TYPE_ARRAY with
  | Node type data children => Node type data (children ++ nodes)
  end.

Definition pcvcm_node_new_null : pcvcm_node :=
  pcvcm_node_new PCVCM_NODE_TYPE_NULL.

Definition pcvcm_node_new_boolean (b : bool) : pcvcm_node :=
  Node PCVCM_NODE_TYPE_BOOLEAN (DB b) [].

Definition pcvcm_node_new_longint (i64 : Z) : pcvcm_node :=
  Node PCVCM_NODE_TYPE_LONG_INT (DI64 i64) [].

Definition pcvcm_node_new_ulongint (u64 : Z) : pcvcm_node :=
  Node PCVCM_NODE_TYPE_ULONG_INT (DU64 u64) [].

Definition pcvcm_node_new_longdouble (ld : long_double) : pcvcm_node :=
  Node PCVCM_NODE_TYPE_LONG_DOUBLE (DLD ld) [].

(** The first [nr_bytes] bytes of [bytes] are copied. *)
Definition pcvcm_node_new_byte_sequence (bytes : string) (nr_bytes : nat)
  : pcvcm_node :=
  Node PCVCM_NODE_TYPE_BYTE_SEQUENCE
       (DSzPtr nr_bytes (String.substring 0 nr_bytes bytes)) [].

(** A literal value: what a tree of literal nodes stands for, an object
    with its members in the order they are written. *)
Inductive literal :=
| LNull
| LBoolean (b : bool)
| LNumber (d : double)
| LLongInt (i64 : Z)
| LULongInt (u64 : Z)
| LLongDouble (ld : long_double)
| LString (s : string)
| LByteSequence (bytes : string)
| LArray (members : list literal)
| LObject (members : list (string * literal)).

(** The tree the constructors build for a literal: an object has a string
    node and a value node for each member. *)
Fixpoint node_of_literal (l : literal) : pcvcm_node :=
  match l with
  | LNull => pcvcm_node_new_null
  | LBoolean b => pcvcm_node_new_boolean b
  | LNumber d => pcvcm_node_new_number d
  | LLongInt i64 => pcvcm_node_new_longint i64
  | LULongInt u64 => pcvcm_node_new_ulongint u64
  | LLongDouble ld => pcvcm_node_new_longdouble ld
  | LString s => pcvcm_node_new_string s
  | LByteSequence bytes =>
      pcvcm_node_new_byte_sequence bytes (String.length bytes)
  | LArray members => pcvcm_node_new_array (map node_of_literal members)
  | LObject members =>
      pcvcm_node_new_object
        (flat_map (fun kv => match kv with
                             | (k, v) =>
                                 [pcvcm_node_new_string k; node_of_literal v]
                             end) members)
  end.

(** The variant a literal denotes. *)
Fixpoint variant_of_literal (l : literal) : variant :=
  match l with
  | LNull => VNull
  | LBoolean b => VBoolean b
  | LNumber d => VNumber d
  | LLongInt i64 => VLongInt i64
  | LULongInt u64 => VULongInt u64
  | LLongDouble ld => VLongDouble ld
  | LString s => VString s
  | LByteSequence bytes => VBSequence bytes (String.length bytes)
  | LArray members => VArray (map variant_of_literal members)
  | LObject members =>
      VObject (map (fun kv => match kv with
                              | (k, v) => (VString k, variant_of_literal v)
                              end) members)
  end.

(** No object of the literal, at any depth, names a member twice. *)
Fixpoint keys_distinct (l : literal) : bool :=
  match l with
  | LArray members => forallb keys_distinct members
  | LObject members =>
      bool_decide (NoDup (map fst members))
      && forallb (fun kv => match kv with (_, v) => keys_distinct v end)
                 members
  | _ => true
  end.

(** [{ "a": [null, true], "b": { "c": "d" } }] *)
Definition nested_literal : literal :=
  LObject [("a", LArray [LNull; LBoolean true]);
           ("b", LObject [("c", LString "d")])].

End Vcm.

(* ===================================================================== *)
(** ** interpreter/iterate.c : the iterate verb                           *)
(* ===================================================================== *)

Module Iterate.
Import Run.
Local Open Scope run_scope.

Abbreviation variant := Vcm.variant.
(** A [purc_variant_t] here is a reference to a value;
    [PURC_VARIANT_INVALID] is [None]. *)
Abbreviation purc_variant_t := (option Vcm.variant).

Inductive purc_error :=
| PURC_ERROR_OK
| PURC_ERROR_OUT_OF_MEMORY
| PURC_ERROR_INVALID_VALUE
| PURC_ERROR_DUPLICATED
| PURC_ERROR_NOT_IMPLEMENTED
| PURC_ERROR_NOT_EXISTS
| PURC_ERROR_EXECUTOR (code : nat).

Definition is_not_exists (e : purc_error) : bool :=
  match e with PURC_ERROR_NOT_EXISTS => true | _ => false end.

Inductive pchvml_attr_operator :=
| PCHVML_ATTRIBUTE_OPERATOR
| PCHVML_ATTRIBUTE_ADDITION_OPERATOR
| PCHVML_ATTRIBUTE_SUBTRACTION_OPERATOR
| PCHVML_ATTRIBUTE_REPLACE_OPERATOR.

Definition is_plain_operator (o : pchvml_attr_operator) : bool :=
  match o with PCHVML_ATTRIBUTE_OPERATOR => true | _ => false end.

(** A VDOM attribute: its keyword (the atom, as its string), its operator
    and the VCM tree of its value. *)
Record pcvdom_attr := {
  key : string;
  op  : pchvml_attr_operator;
  val : option Vcm.pcvcm_node
}.

Inductive pcvdom_node_type :=
| PCVDOM_NODE_DOCUMENT
| PCVDOM_NODE_ELEMENT
| PCVDOM_NODE_CONTENT
| PCVDOM_NODE_COMMENT.

(** A child node: its type and a tag that tells it apart. *)
Record pcvdom_node := { ntype : pcvdom_node_type; node_id : nat }.

Record pcvdom_element := {
  tag_name : string;
  attrs    : list pcvdom_attr;
  children : list pcvdom_node
}.

(** What a run of the verb lets the outside observe. *)
Inductive event :=
| EvEvalAttr (key : string)        (** [pcintr_eval_vdom_attr] on an attribute *)
| EvItBegin (rule : string)
| EvItNext (rule : option string)
| EvItValue
| EvSelectChild (child : option pcvdom_node) (** the driver's [select_child] *)
| EvOnPopping (popped : bool)      (** the driver's [on_popping] and its result *)
| EvRerun.                         (** the driver's [rerun] *)

Definition M := run event.

Section Executor.

(** The executor instance and its iterators are opaque to the verb. *)
Context {inst iter : Type}.

(** [struct purc_exec_ops].  [it_next] answers either the next iterator or
    NULL together with the error it leaves in the error slot. *)
Record purc_exec_ops := {
  create   : variant -> bool -> option inst;
  it_begin : inst -> string -> option iter;
  it_next  : inst -> iter -> option string -> iter + purc_error;
  it_value : inst -> iter -> purc_variant_t;
  destroy  : inst -> bool
}.

Record ctxt_for_iterate := {
  curr      : option nat;          (* position of [curr] among the children *)
  on        : purc_variant_t;
  onlyif    : purc_variant_t;
  rule_attr : option pcvdom_attr;
  ops       : option purc_exec_ops;
  exec_inst : option inst;
  it        : option iter
}.

Definition ctxt_zero : ctxt_for_iterate :=
  {| curr := None; on := None; onlyif := None; rule_attr := None;
     ops := None; exec_inst := None; it := None |}.

Record pcintr_stack_frame := {
  ctxt       : option ctxt_for_iterate;
  pos        : option pcvdom_element;
  attr_vars  : purc_variant_t;
  result_var : purc_variant_t;
  idx        : nat
}.

(** The stack as far as the verb touches it: the bottom frame and the
    per-thread error slot. *)
Record pcintr_stack := {
  frame      : pcintr_stack_frame;
  last_error : purc_error
}.

Definition set_ctxt (f : pcintr_stack_frame) (c : ctxt_for_iterate)
  : pcintr_stack_frame :=
  {| ctxt := Some c; pos := pos f; attr_vars := attr_vars f;
     result_var := result_var f; idx := idx f |}.

Definition set_result_var (f : pcintr_stack_frame) (v : purc_variant_t)
  : pcintr_stack_frame :=
  {| ctxt := ctxt f; pos := pos f; attr_vars := attr_vars f;
     result_var := v; idx := idx f |}.

Definition set_idx (f : pcintr_stack_frame) (n : nat) : pcintr_stack_frame :=
  {| ctxt := ctxt f; pos := pos f; attr_vars := attr_vars f;
     result_var := result_var f; idx := n |}.

Definition set_frame (s : pcintr_stack) (f : pcintr_stack_frame)
  : pcintr_stack :=
  {| frame := f; last_error := last_error s |}.

Definition set_error (s : pcintr_stack) (e : purc_error) : pcintr_stack :=
  {| frame := frame s; last_error := e |}.

Definition set_on (c : ctxt_for_iterate) (v : purc_variant_t) :=
  {| curr := curr c; on := v; onlyif := onlyif c; rule_attr := rule_attr c;
     ops := ops c; exec_inst := exec_inst c; it := it c |}.
Definition set_onlyif (c : ctxt_for_iterate) (v : purc_variant_t) :=
  {| curr := curr c; on := on c; onlyif := v; rule_attr := rule_attr c;
     ops := ops c; exec_inst := exec_inst c; it := it c |}.
Definition set_rule_attr (c : ctxt_for_iterate) (a : option pcvdom_attr) :=
  {| curr := curr c; on := on c; onlyif := onlyif c; rule_attr := a;
     ops := ops c; exec_inst := exec_inst c; it := it c |}.
Definition set_ops (c : ctxt_for_iterate) (o : option purc_exec_ops) :=
  {| curr := curr c; on := on c; onlyif := onlyif c; rule_attr := rule_attr c;
     ops := o; exec_inst := exec_inst c; it := it c |}.
Definition set_exec_inst (c : ctxt_for_iterate) (i : option inst) :=
  {| curr := curr c; on := on c; onlyif := onlyif c; rule_attr := rule_attr c;
     ops := ops c; exec_inst := i; it := it c |}.
Definition set_it (c : ctxt_for_iterate) (i : option iter) :=
  {| curr := curr c; on := on c; onlyif := onlyif c; rule_attr := rule_attr c;
     ops := ops c; exec_inst := exec_inst c; it := i |}.
Definition set_curr (c : ctxt_for_iterate) (n : option nat) :=
  {| curr := n; on := on c; onlyif := onlyif c; rule_attr := rule_attr c;
     ops := ops c; exec_inst := exec_inst c; it := it c |}.

(** The interpreter services the verb calls; they live in translation
    units that are not among the sources. *)
Variable pcintr_eval_vdom_attr : pcvdom_attr -> purc_variant_t.
Variable purc_get_executor : string -> option purc_exec_ops.
Variable pcintr_check_insertion_mode_for_normal_element : bool.

Definition eval_attr (a : pcvdom_attr) : M purc_variant_t :=
  emit (EvEvalAttr (key a)) ;;; ret (pcintr_eval_vdom_attr a).

Definition purc_variant_get_string_const (v : variant) : option string :=
  match v with Vcm.VString s => Some s | _ => None end.

(** The functions below answer the C result ([0] or [-1] as [bool]: [true]
    for [0]) together with the stack as the call leaves it.  Reference
    counting is left out, allocation ([calloc], [purc_variant_make_object])
    is taken to succeed, and [process_attr_on] also publishes the value as
    the stack's input variable ([pcintr_set_input_var]), which nothing here
    reads. *)

Definition process_attr_on (stack : pcintr_stack) (c : ctxt_for_iterate)
    (v : purc_variant_t) : bool * pcintr_stack * ctxt_for_iterate :=
  match on c with
  | Some _ => (false, set_error stack PURC_ERROR_DUPLICATED, c)
  | None =>
      match v with
      | None => (false, set_error stack PURC_ERROR_INVALID_VALUE, c)
      | Some _ => (true, stack, set_on c v)
      end
  end.

Definition process_attr_by (stack : pcintr_stack) (c : ctxt_for_iterate)
    (v : purc_variant_t) (attr : pcvdom_attr)
  : bool * pcintr_stack * ctxt_for_iterate :=
  match rule_attr c with
  | Some _ => (false, set_error stack PURC_ERROR_DUPLICATED, c)
  | None =>
      match v with
      | None => (false, set_error stack PURC_ERROR_INVALID_VALUE, c)
      | Some _ => (true, stack, set_rule_attr c (Some attr))
      end
  end.

(** [process_attr_onlyif] keeps the value the attribute evaluated to. *)
Definition process_attr_onlyif (stack : pcintr_stack) (c : ctxt_for_iterate)
    (v : purc_variant_t) : bool * pcintr_stack * ctxt_for_iterate :=
  match onlyif c with
  | Some _ => (false, set_error stack PURC_ERROR_DUPLICATED, c)
  | None =>
      match v with
      | None => (false, set_error stack PURC_ERROR_INVALID_VALUE, c)
      | Some _ => (true, stack, set_onlyif c v)
      end
  end.

Definition attr_found_val (stack : pcintr_stack) (c : ctxt_for_iterate)
    (v : purc_variant_t) (attr : pcvdom_attr)
  : M (bool * pcintr_stack * ctxt_for_iterate) :=
  PC_ASSERT (is_plain_operator (op attr)) ;;;
  if String.eqb (key attr) "on" then ret (process_attr_on stack c v)
  else if String.eqb (key attr) "by" then ret (process_attr_by stack c v attr)
  else if String.eqb (key attr) "onlyif" then
    ret (process_attr_onlyif stack c v)
  else ret (false, set_error stack PURC_ERROR_NOT_IMPLEMENTED, c).

Definition attr_found (stack : pcintr_stack) (c : ctxt_for_iterate)
    (attr : pcvdom_attr) : M (bool * pcintr_stack * ctxt_for_iterate) :=
  PC_ASSERT (is_plain_operator (op attr)) ;;;
  v <- eval_attr attr ;;
  match v with
  | None => ret (false, stack, c)
  | Some _ => attr_found_val stack c v attr
  end.

(** Modelled from the spec: [pcintr_vdom_walk_attrs] (not among the
    sources) hands each attribute of the element to the callback in order
    ("evaluates attributes (each a VCM)", §4.6.1) and stops at the first
    failure. *)
Fixpoint pcintr_vdom_walk_attrs (stack : pcintr_stack) (c : ctxt_for_iterate)
    (l : list pcvdom_attr) : M (bool * pcintr_stack * ctxt_for_iterate) :=
  match l with
  | [] => ret (true, stack, c)
  | a :: rest =>
      r <- attr_found stack c a ;;
      match r with
      | (true, stack', c') => pcintr_vdom_walk_attrs stack' c' rest
      | (false, stack', c') => ret (false, stack', c')
      end
  end.

(** [post_process]: create the executor, take the first iterator and its
    value. *)
Definition post_process (stack : pcintr_stack) (c : ctxt_for_iterate)
  : M (bool * pcintr_stack * ctxt_for_iterate) :=
  match on c with
  | None => ret (false, stack, c)
  | Some on_v =>
      rule <- match rule_attr c with
              | None => ret (Some "RANGE: FROM 0")
              | Some a =>
                  v <- eval_attr a ;;
                  ret (match v with
                       | None => None
                       | Some v => purc_variant_get_string_const v
                       end)
              end ;;
      match rule with
      | None => ret (false, stack, c)
      | Some rule =>
          match purc_get_executor rule with
          | None => ret (false, stack, c)
          | Some o =>
              let c := set_ops c (Some o) in
              match create o on_v false with
              | None => ret (false, stack, c)
              | Some ei =>
                  let c := set_exec_inst c (Some ei) in
                  emit (EvItBegin rule) ;;;
                  match it_begin o ei rule with
                  | None => ret (false, stack, c)
                  | Some i =>
                      let c := set_it c (Some i) in
                      emit EvItValue ;;;
                      match it_value o ei i with
                      | None => ret (false, stack, c)
                      | Some value =>
                          ret (true,
                               set_frame stack
                                 (set_result_var (frame stack) (Some value)),
                               c)
                      end
                  end
              end
          end
      end
  end.

(** [after_pushed].  The result is whether a context was returned (the C
    function returns the context or NULL); the context is left in the frame
    in either case once it has been allocated. *)
Definition after_pushed (stack : pcintr_stack) (pos : pcvdom_element)
  : M (bool * pcintr_stack) :=
  if pcintr_check_insertion_mode_for_normal_element then ret (false, stack)
  else
    let f := frame stack in
    let f := {| ctxt := Some ctxt_zero; pos := Some pos;
                attr_vars := Some (Vcm.VObject []);
                result_var := result_var f; idx := idx f |} in
    let stack := set_frame stack f in
    r <- pcintr_vdom_walk_attrs stack ctxt_zero (attrs pos) ;;
    match r with
    | (false, stack, c) =>
        ret (false, set_frame stack (set_ctxt (frame stack) c))
    | (true, stack, c) =>
        let stack := set_error stack PURC_ERROR_OK in       (* purc_clr_error *)
        let stack := set_frame stack (set_ctxt (frame stack) c) in
        PC_ASSERT (match onlyif c with Some _ => false | None => true end) ;;;
        r <- post_process stack c ;;
        match r with
        | (ok, stack, c) =>
            ret (ok, set_frame stack (set_ctxt (frame stack) c))
        end
    end.

(** The evaluation of the rule attribute at the head of [on_popping]:
    [Some NULL] without the attribute, [None] where the C code returns
    [-1]. *)
Definition eval_rule (c : ctxt_for_iterate) : M (option (option string)) :=
  match rule_attr c with
  | None => ret (Some None)
  | Some a =>
      v <- eval_attr a ;;
      ret (match v with
           | None => None
           | Some v =>
               match purc_variant_get_string_const v with
               | None => None
               | Some s => Some (Some s)
               end
           end)
  end.

(** [on_popping].  Both [return -1] statements of this [bool] function
    yield [true]. *)
Definition on_popping (stack : pcintr_stack) : M (bool * pcintr_stack) :=
  match ctxt (frame stack) with
  | None => abort
  | Some c =>
      match exec_inst c, it c, ops c with
      | None, _, _ => ret (true, stack)
      | Some _, None, _ => ret (true, stack)
      | Some _, Some _, None => abort       (* a NULL [ops.it_next] is called *)
      | Some ei, Some i, Some o =>
          rule <- eval_rule c ;;
          match rule with
          | None => ret (true, stack)                       (* return -1 *)
          | Some rule =>
              emit (EvItNext rule) ;;;
              match it_next o ei i rule with
              | inl i' =>
                  ret (false,
                       set_frame stack
                         (set_ctxt (frame stack) (set_it c (Some i'))))
              | inr err =>
                  let stack := set_error stack err in
                  let stack :=
                    if is_not_exists err then set_error stack PURC_ERROR_OK
                    else stack in
                  ret (true,
                       set_frame stack
                         (set_ctxt (frame stack) (set_it c None)))
              end
          end
      end
  end.

(** [rerun]. *)
Definition rerun (stack : pcintr_stack) : M (bool * pcintr_stack) :=
  match ctxt (frame stack) with
  | None => abort
  | Some c =>
      match exec_inst c with
      | None => abort                                   (* PC_ASSERT(exec_inst) *)
      | Some ei =>
          let f := set_idx (frame stack) (idx (frame stack) + 1) in
          let stack := set_frame stack f in
          match it c, ops c with
          | None, _ => abort                            (* PC_ASSERT(it) *)
          | Some _, None => abort
          | Some i, Some o =>
              emit EvItValue ;;;
              match it_value o ei i with
              | None => ret (true, stack)
              | Some value =>
                  ret (true,
                       set_frame stack
                         (set_result_var (frame stack) (Some value)))
              end
          end
      end
  end.

(** [select_child]: advance [ctxt->curr] to the next child; element
    children are returned, content and comment children are skipped, a
    document child fails an assertion, and the end of the children answers
    NULL with the error slot cleared. *)
Fixpoint select_child_from (l : list pcvdom_node) (k : nat)
  : M (option (pcvdom_node * nat)) :=
  match l with
  | [] => ret None
  | n :: rest =>
      match ntype n with
      | PCVDOM_NODE_DOCUMENT => abort
      | PCVDOM_NODE_ELEMENT => ret (Some (n, k))
      | PCVDOM_NODE_CONTENT => select_child_from rest (S k)
      | PCVDOM_NODE_COMMENT => select_child_from rest (S k)
      end
  end.

Definition select_child (stack : pcintr_stack)
  : M (option pcvdom_node * pcintr_stack) :=
  match ctxt (frame stack), pos (frame stack) with
  | Some c, Some element =>
      let start := match curr c with None => 0 | Some k => S k end in
      r <- select_child_from (drop start (children element)) start ;;
      match r with
      | Some (n, k) =>
          ret (Some n,
               set_frame stack (set_ctxt (frame stack) (set_curr c (Some k))))
      | None =>
          let stack := set_error stack PURC_ERROR_OK in
          ret (None,
               set_frame stack (set_ctxt (frame stack) (set_curr c None)))
      end
  | _, _ => abort
  end.

(** The rule string [on_popping] hands to [it_next]: NULL without a rule
    attribute, the attribute's string otherwise; [None] when the attribute
    does not evaluate to a string. *)
Definition rule_in_force (c : ctxt_for_iterate) : option (option string) :=
  match rule_attr c with
  | None => Some None
  | Some a =>
      match pcintr_eval_vdom_attr a with
      | Some v =>
          match purc_variant_get_string_const v with
          | Some s => Some (Some s)
          | None => None
          end
      | None => None
      end
  end.

(** Modelled from the spec: the driver of a frame, which lives in the
    interpreter core (not among the sources).  §4.6.1: it "repeatedly
    invokes select_child"; "when select_child returns null ... on_popping is
    invoked.  Returning true pops the frame; returning false requests a
    re-run, after which the driver calls rerun ... and restarts at step 2".
    Running a selected child is outside this model.

    [select_children] is step 2; [budget] bounds its calls of
    [select_child] and [None] says the budget ran out. *)
Fixpoint select_children (budget : nat) (stack : pcintr_stack)
  : M (option pcintr_stack) :=
  match budget with
  | 0 => ret None
  | S budget =>
      r <- select_child stack ;;
      match r with
      | (Some child, stack) =>
          emit (EvSelectChild (Some child)) ;;; select_children budget stack
      | (None, stack) => emit (EvSelectChild None) ;;; ret (Some stack)
      end
  end.

Definition nr_children (stack : pcintr_stack) : nat :=
  match pos (frame stack) with
  | Some element => length (children element)
  | None => 0
  end.

(** Steps 2 and 3, [fuel] rounds of them at most; [None] in the result
    says the fuel ran out before the frame was popped. *)
Fixpoint run_frame (fuel : nat) (stack : pcintr_stack)
  : M (option pcintr_stack) :=
  match fuel with
  | 0 => ret None
  | S fuel =>
      r <- select_children (S (nr_children stack)) stack ;;
      match r with
      | None => ret None
      | Some stack =>
          r <- on_popping stack ;;
          match r with
          | (true, stack) => emit (EvOnPopping true) ;;; ret (Some stack)
          | (false, stack) =>
              emit (EvOnPopping false) ;;;
              r <- rerun stack ;;
              emit EvRerun ;;;
              run_frame fuel (snd r)
          end
      end
  end.

(** The whole life of an iterate frame: [after_pushed], then the driver. *)
Definition run_iterate (fuel : nat) (stack : pcintr_stack)
    (pos : pcvdom_element) : M (option pcintr_stack) :=
  r <- after_pushed stack pos ;;
  match r with
  | (true, stack) => run_frame fuel stack
  | (false, stack) => ret (Some stack)
  end.

(** The iterators that follow [i]: [i] is the first of exactly [n]. *)
Inductive iterates (o : purc_exec_ops) (ei : inst) (rule : option string)
  : iter -> nat -> Prop :=
| iterates_last i err :
    it_next o ei i rule = inr err -> iterates o ei rule i 1
| iterates_next i i' n :
    it_next o ei i rule = inl i' -> iterates o ei rule i' n ->
    iterates o ei rule i (S n).

(** Where [select_child] resumes, and the stack it leaves when it reaches
    the end of the children. *)
Definition start_of (c : ctxt_for_iterate) : nat :=
  match curr c with None => 0 | Some k => S k end.

Definition at_end (st : pcintr_stack) (c : ctxt_for_iterate) : pcintr_stack :=
  set_frame (set_error st PURC_ERROR_OK)
            (set_ctxt (frame st) (set_curr c None)).


End Executor.

Arguments purc_exec_ops : clear implicits.
Arguments ctxt_for_iterate : clear implicits.
Arguments pcintr_stack_frame : clear implicits.
Arguments pcintr_stack : clear implicits.

Definition count_events (p : event -> bool) (l : list event) : nat :=
  length (filter (fun e => p e = true) l).

Definition is_rerun (e : event) : bool :=
  match e with EvRerun => true | _ => false end.
Definition is_on_popping (e : event) : bool :=
  match e with EvOnPopping _ => true | _ => false end.
Definition is_popped (e : event) : bool :=
  match e with EvOnPopping true => true | _ => false end.
Definition is_select (e : event) : bool :=
  match e with EvSelectChild _ => true | _ => false end.
Definition is_eval (e : event) : bool :=
  match e with EvEvalAttr _ => true | _ => false end.

(** Events that are neither a [rerun] nor a result of [on_popping]. *)
Definition quiet (evs : list event) : Prop :=
  Forall (fun e => is_rerun e = false /\ is_on_popping e = false
                   /\ is_popped e = false) evs.

(** No child of the element is a document node ([select_child] asserts
    it). *)
Definition no_document (el : pcvdom_element) : Prop :=
  Forall (fun nd => ntype nd <> PCVDOM_NODE_DOCUMENT) (children el).

(** An executor over the members of an array, in the manner of
    "RANGE: FROM 0": the instance is the list of members, an iterator is a
    position in it. *)
Definition range_ops : purc_exec_ops (list variant) nat :=
  {| create := fun on_v _ =>
       match on_v with Vcm.VArray l => Some l | _ => None end;
     it_begin := fun l _ => match l with [] => None | _ => Some 0 end;
     it_next := fun l i _ =>
       if S i <? length l then inl (S i) else inr PURC_ERROR_NOT_EXISTS;
     it_value := fun l i => l !! i;
     destroy := fun _ => true |}.

Definition range_get_executor (rule : string)
  : option (purc_exec_ops (list variant) nat) :=
  if String.eqb rule "RANGE: FROM 0" then Some range_ops else None.

(** The literal array [10, 20, 30] as a VCM tree. *)
Definition vcm_10_20_30 : Vcm.pcvcm_node :=
  Vcm.Node Vcm.PCVCM_NODE_TYPE_ARRAY Vcm.DZero
    [ Vcm.Node Vcm.PCVCM_NODE_TYPE_LONG_INT (Vcm.DI64 10%Z) [];
      Vcm.Node Vcm.PCVCM_NODE_TYPE_LONG_INT (Vcm.DI64 20%Z) [];
      Vcm.Node Vcm.PCVCM_NODE_TYPE_LONG_INT (Vcm.DI64 30%Z) [] ].

Definition attr_on : pcvdom_attr :=
  {| key := "on"; op := PCHVML_ATTRIBUTE_OPERATOR; val := Some vcm_10_20_30 |}.


(** Attribute values are VCM trees, evaluated by [Vcm.pcvcm_eval]. *)
Definition eval_by_vcm (a : pcvdom_attr) : purc_variant_t :=
  match val a with
  | Some t => Some (Vcm.pcvcm_node_to_variant t)
  | None => None
  end.

(** [<iterate on=[10,20,30]>] with one element child. *)
Definition iterate_10_20_30 : pcvdom_element :=
  {| tag_name := "iterate"; attrs := [attr_on];
     children := [ {| ntype := PCVDOM_NODE_ELEMENT; node_id := 1 |} ] |}.


Definition empty_stack : pcintr_stack (list variant) nat :=
  {| frame := {| ctxt := None; pos := None; attr_vars := None;
                 result_var := None; idx := 0 |};
     last_error := PURC_ERROR_OK |}.


(** The stack [after_pushed] leaves for [<iterate on=[10,20,30]>]. *)
Definition stack_10_20_30 : pcintr_stack (list variant) nat :=
  Eval vm_compute in
    match out (after_pushed eval_by_vcm range_get_executor false
                            empty_stack iterate_10_20_30) with
    | Some (_, st) => st
    | None => empty_stack
    end.

Definition ctxt_10_20_30 : ctxt_for_iterate (list variant) nat :=
  Eval vm_compute in
    match ctxt (frame stack_10_20_30) with
    | Some c => c
    | None => ctxt_zero
    end.

Definition is_it_next (e : event) : bool :=
  match e with EvItNext _ => true | _ => false end.

Definition is_element (nd : pcvdom_node) : bool :=
  match ntype nd with PCVDOM_NODE_ELEMENT => true | _ => false end.

(** What [after_pushed] takes from an attribute of the element: a plain
    [=] operator, one of the keywords it knows and a value. *)
Definition attr_accepted (eval : pcvdom_attr -> purc_variant_t)
    (a : pcvdom_attr) : Prop :=
  (key a = "on" \/ key a = "by")
  /\ op a = PCHVML_ATTRIBUTE_OPERATOR /\ eval a <> None.

(** [<iterate>] with an element child between a comment and two pieces of
    content. *)
Definition iterate_mixed : pcvdom_element :=
  {| tag_name := "iterate"; attrs := [attr_on];
     children := [ {| ntype := PCVDOM_NODE_COMMENT; node_id := 1 |};
                   {| ntype := PCVDOM_NODE_ELEMENT; node_id := 2 |};
                   {| ntype := PCVDOM_NODE_CONTENT; node_id := 3 |};
                   {| ntype := PCVDOM_NODE_ELEMENT; node_id := 4 |};
                   {| ntype := PCVDOM_NODE_CONTENT; node_id := 5 |} ] |}.

Definition stack_mixed : pcintr_stack (list variant) nat :=
  Eval vm_compute in
    match out (after_pushed eval_by_vcm range_get_executor false
                            empty_stack iterate_mixed) with
    | Some (_, st) => st
    | None => empty_stack
    end.

End Iterate.

(* ===================================================================== *)
(** ** dvobjs/stream-hbdbus.c : the HBDBus handshake                      *)
(* ===================================================================== *)

Module Hbdbus.
Import Run.
Local Open Scope run_scope.

Definition HBDBUS_PROTOCOL_NAME : string := "HBDBUS".
Definition HBDBUS_PROTOCOL_VERSION : Z := 200.
Definition HBDBUS_NOT_AVAILABLE : string := "<N/A>".
Definition HBDBUS_DEF_PACKET_BUFF_SIZE : Z := 1024.

(** HBDBus connection state. *)
Inductive bus_state :=
| BS_UNCERTAIN
| BS_EXPECT_CHALLENGE
| BS_EXPECT_AUTH_RESULT
| BS_EXPECT_REGULAR_MSG.

Definition ERR_SYM_BADMESSAGE     : string := "badMessage".
Definition ERR_SYM_BADMSGPAYLOAD  : string := "badMsgPayload".
Definition ERR_SYM_SERVERREFUSED  : string := "serverRefused".
Definition ERR_SYM_WRONGVERSION   : string := "wrongVersion".
Definition ERR_SYM_OUTOFMEMORY    : string := "outOfMemory".
Definition ERR_SYM_UNEXPECTED     : string := "unexpected".
Definition ERR_SYM_TOOSMALLBUFFER : string := "tooSmallBuffer".
Definition ERR_SYM_FAILEDWRITE    : string := "failedWrite".

(** The message types of the message layer; only [MT_TEXT] is accepted. *)
Inductive message_type := MT_UNKNOWN | MT_TEXT | MT_BINARY.

(** The handlers of events the stream subscribes to; the two system
    handlers are functions of the translation unit. *)
Inductive hbdbus_event_handler :=
| on_lost_event_generator
| on_lost_event_bubble
| user_event_handler (fn : N).

(** [struct stream_extended_data], as far as the handshake uses it; a NULL
    [errsym] or host name is [None].  The list of subscribed events is
    seen through its entries. *)
Record stream_extended_data := {
  app_name    : string;
  runner_name : string;
  errsym      : option string;
  state       : bus_state;
  srv_host_name   : option string;
  own_host_name   : option string;
  subscribed_list : list (string * hbdbus_event_handler)
}.

Definition set_error (ext : stream_extended_data) (sym : string)
  : stream_extended_data :=
  {| app_name := app_name ext; runner_name := runner_name ext;
     errsym := Some sym; state := state ext;
     srv_host_name := srv_host_name ext;
     own_host_name := own_host_name ext;
     subscribed_list := subscribed_list ext |}.

Definition clr_error (ext : stream_extended_data) : stream_extended_data :=
  {| app_name := app_name ext; runner_name := runner_name ext;
     errsym := None; state := state ext;
     srv_host_name := srv_host_name ext;
     own_host_name := own_host_name ext;
     subscribed_list := subscribed_list ext |}.

Definition set_state (ext : stream_extended_data) (st : bus_state)
  : stream_extended_data :=
  {| app_name := app_name ext; runner_name := runner_name ext;
     errsym := errsym ext; state := st;
     srv_host_name := srv_host_name ext;
     own_host_name := own_host_name ext;
     subscribed_list := subscribed_list ext |}.

Definition set_srv_host_name (ext : stream_extended_data)
    (name : option string) : stream_extended_data :=
  {| app_name := app_name ext; runner_name := runner_name ext;
     errsym := errsym ext; state := state ext;
     srv_host_name := name;
     own_host_name := own_host_name ext;
     subscribed_list := subscribed_list ext |}.

Definition set_own_host_name (ext : stream_extended_data)
    (name : option string) : stream_extended_data :=
  {| app_name := app_name ext; runner_name := runner_name ext;
     errsym := errsym ext; state := state ext;
     srv_host_name := srv_host_name ext;
     own_host_name := name;
     subscribed_list := subscribed_list ext |}.

Definition set_subscribed_list (ext : stream_extended_data)
    (l : list (string * hbdbus_event_handler)) : stream_extended_data :=
  {| app_name := app_name ext; runner_name := runner_name ext;
     errsym := errsym ext; state := state ext;
     srv_host_name := srv_host_name ext;
     own_host_name := own_host_name ext;
     subscribed_list := l |}.

(** The variants a JSON packet parses to. *)
Inductive json :=
| JNull
| JBoolean (b : bool)
| JNumber (n : Z)
| JString (s : string)
| JArray (l : list json)
| JObject (members : list (string * json)).

Definition purc_variant_is_object (v : json) : bool :=
  match v with JObject _ => true | _ => false end.

Fixpoint assoc_get (members : list (string * json)) (key : string)
  : option json :=
  match members with
  | [] => None
  | (k, v) :: rest => if String.eqb k key then Some v else assoc_get rest key
  end.

Definition purc_variant_object_get_by_ckey (jo : json) (key : string)
  : option json :=
  match jo with JObject members => assoc_get members key | _ => None end.

Definition purc_variant_get_string_const (v : json) : option string :=
  match v with JString s => Some s | _ => None end.

(** [purc_variant_cast_to_int32 (v, &n, true)]: the number, when the
    variant is one that fits; the target is left alone otherwise. *)
Definition purc_variant_cast_to_int32 (v : json) (dflt : Z) : Z :=
  match v with
  | JNumber n =>
      if ((-2147483648 <=? n) && (n <=? 2147483647))%Z then n else dflt
  | _ => dflt
  end.

Definition tolower (c : ascii) : ascii :=
  let n := nat_of_ascii c in
  if (65 <=? n) && (n <=? 90) then ascii_of_nat (n + 32) else c.

Fixpoint string_tolower (s : string) : string :=
  match s with
  | EmptyString => EmptyString
  | String c rest => String (tolower c) (string_tolower rest)
  end.

(** [strcasecmp (a, b) == 0]. *)
Definition strcasecmp_eq (a b : string) : bool :=
  String.eqb (string_tolower a) (string_tolower b).

(** What is outside the translation unit: the JSON parser, the allocator,
    the signing and encoding helpers, the message layer below, and the
    indeterminate value an uninitialised [int] holds. *)
Record environment := {
  purc_variant_make_from_json_string : string -> option json;
  strdup_ok        : bool;
  pcutils_sign_data : string -> string -> option string;
  malloc_ok        : bool;
  pcutils_b64_encode : string -> string;
  send_text        : string -> Z;          (* [0] on success *)
  uninitialised_int : Z
}.

Inductive event :=
| EvSendText (text : string).

Definition M := run event.

Section WithEnvironment.

Variable env : environment.

(** [get_challenge_code].  The result is the C return value, the string
    left in [*challenge] ([None] is NULL) and the extended data.  A NULL
    string handed to [strcasecmp], and the [assert(ch_code)] reached with no
    challenge code, stop the run. *)
Definition get_challenge_code (ext : stream_extended_data)
    (payload : string)
  : M (Z * option string * stream_extended_data) :=
  match purc_variant_make_from_json_string env payload with
  | None => ret ((-1)%Z, None, set_error ext ERR_SYM_BADMSGPAYLOAD)
  | Some jo =>
      if negb (purc_variant_is_object jo) then
        ret ((-1)%Z, None, set_error ext ERR_SYM_BADMSGPAYLOAD)
      else
        match purc_variant_object_get_by_ckey jo "packetType" with
        | None => ret ((-1)%Z, None, set_error ext ERR_SYM_BADMSGPAYLOAD)
        | Some jo_tmp =>
            match purc_variant_get_string_const jo_tmp with
            | None => abort                          (* strcasecmp (NULL, ..) *)
            | Some pack_type =>
                if strcasecmp_eq pack_type "error" then
                  ret ((-1)%Z, None, set_error ext ERR_SYM_SERVERREFUSED)
                else if strcasecmp_eq pack_type "auth" then
                  let ch_code :=
                    match purc_variant_object_get_by_ckey jo "challengeCode"
                    with
                    | Some v => purc_variant_get_string_const v
                    | None => None
                    end in
                  let prot_name :=
                    match purc_variant_object_get_by_ckey jo "protocolName"
                    with
                    | Some v => purc_variant_get_string_const v
                    | None => Some HBDBUS_NOT_AVAILABLE
                    end in
                  let prot_ver :=
                    match purc_variant_object_get_by_ckey jo "protocolVersion"
                    with
                    | Some v => purc_variant_cast_to_int32 v 0%Z
                    | None => 0%Z
                    end in
                  match ch_code with
                  | None =>
                      ret ((-1)%Z, None, set_error ext ERR_SYM_BADMSGPAYLOAD)
                  | Some code =>
                      match prot_name with
                      | None => abort                (* strcasecmp (NULL, ..) *)
                      | Some prot_name =>
                          if negb (strcasecmp_eq prot_name HBDBUS_PROTOCOL_NAME)
                             || (prot_ver <? HBDBUS_PROTOCOL_VERSION)%Z then
                            ret ((-1)%Z, None,
                                 set_error ext ERR_SYM_WRONGVERSION)
                          else if strdup_ok env then
                            ret (0%Z, Some code, ext)
                          else
                            ret (0%Z, None, set_error ext ERR_SYM_OUTOFMEMORY)
                      end
                  end
                else abort                           (* assert (ch_code) *)
            end
        end
  end.

Definition dquote : string := String (ascii_of_nat 34) EmptyString.

(** The packet [snprintf] formats in [send_auth_info]. *)
Definition auth_packet (ext : stream_extended_data) (enc_sig : string)
  : string :=
  let q := dquote in
  let field k v := q +:+ k +:+ q +:+ ":" +:+ q +:+ v +:+ q in
  "{" +:+ field "packetType" "auth" +:+ ","
      +:+ field "protocolName" HBDBUS_PROTOCOL_NAME +:+ ","
      +:+ q +:+ "protocolVersion" +:+ q +:+ ":" +:+ "200" +:+ ","
      +:+ field "hostName" "localhost" +:+ ","
      +:+ field "appName" (app_name ext) +:+ ","
      +:+ field "runnerName" (runner_name ext) +:+ ","
      +:+ field "signature" enc_sig +:+ ","
      +:+ field "encodedIn" "base64" +:+ "}".

(** [send_auth_info]; a NULL [ch_code] stops the run at [strlen]. *)
Definition send_auth_info (ext : stream_extended_data)
    (ch_code : option string) : M (Z * stream_extended_data) :=
  match ch_code with
  | None => abort
  | Some code =>
      match pcutils_sign_data env (app_name ext) code with
      | None => ret ((-1)%Z, set_error ext ERR_SYM_UNEXPECTED)
      | Some sig =>
          if negb (malloc_ok env) then
            ret ((-1)%Z, set_error ext ERR_SYM_OUTOFMEMORY)
          else
            let enc_sig := pcutils_b64_encode env sig in
            let buff := auth_packet ext enc_sig in
            let n := Z.of_nat (String.length buff) in
            if (n <? 0)%Z then
              ret ((-1)%Z, set_error ext ERR_SYM_UNEXPECTED)
            else if (HBDBUS_DEF_PACKET_BUFF_SIZE <=? n)%Z then
              ret ((-1)%Z, set_error ext ERR_SYM_TOOSMALLBUFFER)
            else
              emit (EvSendText buff) ;;;
              if negb (send_text env buff =? 0)%Z then
                ret ((-1)%Z, set_error ext ERR_SYM_FAILEDWRITE)
              else ret (0%Z, ext)
      end
  end.

(** The handlers of the two later states; their bodies play no part in the
    challenge step. *)
Variable check_auth_result :
  stream_extended_data -> string -> M (Z * stream_extended_data).
Variable handle_regular_message :
  stream_extended_data -> string -> M (Z * stream_extended_data).

(** The [done:] label of [on_message]. *)
Definition on_message_done (ext : stream_extended_data)
  : Z * stream_extended_data :=
  match errsym ext with
  | Some _ => ((-1)%Z, set_state ext BS_UNCERTAIN)
  | None => (0%Z, ext)
  end.

(** [on_message].  A NULL [payload] is [None].  In the challenge state the
    result of [send_auth_info] is dropped and the local [ret], which nothing
    assigns, is compared with [0]: its value is whatever the environment
    gives an uninitialised [int]. *)
Definition on_message (ext : stream_extended_data) (payload : option string)
    (len : Z) (type : message_type) : M (Z * stream_extended_data) :=
  let ext := clr_error ext in
  match type, payload with
  | MT_TEXT, Some payload =>
      if (len =? 0)%Z then
        ret (on_message_done (set_error ext ERR_SYM_BADMESSAGE))
      else
        match state ext with
        | BS_EXPECT_CHALLENGE =>
            r <- get_challenge_code ext payload ;;
            match r with
            | (rc, ch_code, ext) =>
                if negb (rc =? 0)%Z then ret (on_message_done ext)
                else
                  let ret_ := uninitialised_int env in
                  r <- send_auth_info ext ch_code ;;
                  let ext := snd r in
                  let ext :=
                    if (ret_ =? 0)%Z then set_state ext BS_EXPECT_AUTH_RESULT
                    else ext in
                  ret (on_message_done ext)
            end
        | BS_EXPECT_AUTH_RESULT =>
            r <- check_auth_result ext payload ;;
            match r with
            | (rc, ext) =>
                if negb (rc =? 0)%Z then ret (on_message_done ext)
                else ret (on_message_done (set_state ext BS_EXPECT_REGULAR_MSG))
            end
        | BS_EXPECT_REGULAR_MSG =>
            r <- handle_regular_message ext payload ;;
            ret (on_message_done (snd r))
        | BS_UNCERTAIN =>
            ret (on_message_done (set_error ext ERR_SYM_UNEXPECTED))
        end
  | _, _ => ret (on_message_done (set_error ext ERR_SYM_BADMESSAGE))
  end.

End WithEnvironment.

(** A server challenge, and an environment in which it parses, signing and
    allocation succeed and the message layer refuses to send. *)
Definition challenge_packet : json :=
  JObject [ ("packetType", JString "auth");
            ("challengeCode", JString "c0de");
            ("protocolName", JString "HBDBUS");
            ("protocolVersion", JNumber 200) ].

Definition env_send_fails : environment :=
  {| purc_variant_make_from_json_string := fun _ => Some challenge_packet;
     strdup_ok := true;
     pcutils_sign_data := fun _ _ => Some "signature";
     malloc_ok := true;
     pcutils_b64_encode := fun s => s;
     send_text := fun _ => (-1)%Z;
     uninitialised_int := 0%Z |}.

(** The same environment with a message layer that sends, for a given
    value of the uninitialised local. *)
Definition env_send_ok (garbage : Z) : environment :=
  {| purc_variant_make_from_json_string := fun _ => Some challenge_packet;
     strdup_ok := true;
     pcutils_sign_data := fun _ _ => Some "signature";
     malloc_ok := true;
     pcutils_b64_encode := fun s => s;
     send_text := fun _ => 0%Z;
     uninitialised_int := garbage |}.

Definition ext_expect_challenge : stream_extended_data :=
  {| app_name := "cn.fmsoft.app"; runner_name := "main";
     errsym := None; state := BS_EXPECT_CHALLENGE;
     srv_host_name := None; own_host_name := None;
     subscribed_list := [] |}.

Definition no_handler (ext : stream_extended_data) (payload : string)
  : M (Z * stream_extended_data) := ret (0%Z, ext).

(** JSON packet types. *)
Definition JPT_BAD_JSON    : Z := (-1)%Z.
Definition JPT_UNKNOWN     : Z := 0%Z.
Definition JPT_ERROR       : Z := 1%Z.
Definition JPT_AUTH        : Z := 2%Z.
Definition JPT_AUTH_PASSED : Z := 3%Z.
Definition JPT_AUTH_FAILED : Z := 4%Z.
Definition JPT_CALL        : Z := 5%Z.
Definition JPT_RESULT      : Z := 6%Z.
Definition JPT_RESULT_SENT : Z := 7%Z.
Definition JPT_EVENT       : Z := 8%Z.
Definition JPT_EVENT_SENT  : Z := 9%Z.

Definition ERR_SYM_SERVERERROR : string := "serverError".
Definition ERR_SYM_AUTHFAILED  : string := "authFailed".

Definition HBDBUS_APP_NAME     : string := "cn.fmsoft.hybridos.databus".
Definition HBDBUS_RUN_BUILITIN : string := "builtin".
Definition HBDBUS_BUBBLE_LOSTEVENTGENERATOR : string := "LostEventGenerator".
Definition HBDBUS_BUBBLE_LOSTEVENTBUBBLE    : string := "LostEventBubble".

(** The [strcasecmp] chain of [hbdbus_json_packet_to_object]. *)
Definition packet_type_of (pack_type : string) : Z :=
  if strcasecmp_eq pack_type "error" then JPT_ERROR
  else if strcasecmp_eq pack_type "auth" then JPT_AUTH
  else if strcasecmp_eq pack_type "authPassed" then JPT_AUTH_PASSED
  else if strcasecmp_eq pack_type "authFailed" then JPT_AUTH_FAILED
  else if strcasecmp_eq pack_type "call" then JPT_CALL
  else if strcasecmp_eq pack_type "result" then JPT_RESULT
  else if strcasecmp_eq pack_type "resultSent" then JPT_RESULT_SENT
  else if strcasecmp_eq pack_type "event" then JPT_EVENT
  else if strcasecmp_eq pack_type "eventSent" then JPT_EVENT_SENT
  else JPT_UNKNOWN.

(** A member of an object that is a string. *)
Definition string_member (jo : json) (key : string) : option string :=
  match purc_variant_object_get_by_ckey jo key with
  | Some jo_tmp => purc_variant_get_string_const jo_tmp
  | None => None
  end.

(** The pointer [hbdbus_json_packet_to_object] leaves in [*jo]: NULL, a
    variant whose one reference the caller holds, or a variant whose one
    reference has already been given back (the [failed:] label releases
    [*jo] and leaves the pointer in place). *)
Inductive variant_ref :=
| REF_NULL
| REF_HELD (jo : json)
| REF_RELEASED (jo : json).

(** [if (jo) purc_variant_unref (jo)] of the callers.  The variant the
    parser made has one reference; releasing it a second time touches
    memory that has been given back, and such a run does not return. *)
Definition unref_if_set (jo : variant_ref) : M unit :=
  match jo with
  | REF_NULL => ret tt
  | REF_HELD _ => ret tt
  | REF_RELEASED _ => abort
  end.

Section Packets.

Variable env : environment.

(** Outside the translation unit: the assembly of an endpoint name from
    host, application and runner; whether [strdup] can allocate the copy
    of a string; what [pcutils_kvlist_set] makes of the list of subscribed
    events ([None] when it returns false); and the three dispatchers of
    regular packets. *)
Variable purc_assemble_endpoint_name : string -> string -> string -> string.
Variable strdup_succeeds : string -> bool.
Variable pcutils_kvlist_set :
  list (string * hbdbus_event_handler) -> string -> hbdbus_event_handler ->
  option (list (string * hbdbus_event_handler)).
Variables dispatch_call_packet dispatch_result_packet dispatch_event_packet :
  stream_extended_data -> json -> M (Z * stream_extended_data).

Definition strdup (s : string) : option string :=
  if strdup_succeeds s then Some s else None.

(** [hbdbus_json_packet_to_object]: the packet type and the pointer left
    in [*jo].  A payload that parses to something that is no object, or to
    an object whose [packetType] is no string, leaves through [failed:],
    which releases the variant; an object without [packetType] is
    answered with [JPT_BAD_JSON] too, but stays with the caller. *)
Definition hbdbus_json_packet_to_object (json_text : string)
  : Z * variant_ref :=
  match purc_variant_make_from_json_string env json_text with
  | None => (JPT_BAD_JSON, REF_NULL)
  | Some jo =>
      if negb (purc_variant_is_object jo) then (JPT_BAD_JSON, REF_RELEASED jo)
      else
        match purc_variant_object_get_by_ckey jo "packetType" with
        | Some jo_tmp =>
            match purc_variant_get_string_const jo_tmp with
            | None => (JPT_BAD_JSON, REF_RELEASED jo)
            | Some pack_type => (packet_type_of pack_type, REF_HELD jo)
            end
        | None => (JPT_BAD_JSON, REF_HELD jo)
        end
  end.

(** [on_auth_passed].  What it has stored in the extended data by the time
    it fails stays there. *)
Definition on_auth_passed (ext : stream_extended_data) (jo : json)
  : Z * stream_extended_data :=
  match string_member jo "serverHostName" with
  | None => ((-1)%Z, set_error ext ERR_SYM_BADMSGPAYLOAD)
  | Some srv_host_name =>
      let ext := set_srv_host_name ext (strdup srv_host_name) in
      match string_member jo "reassignedHostName" with
      | None => ((-1)%Z, set_error ext ERR_SYM_BADMSGPAYLOAD)
      | Some own_host_name =>
          let ext := set_own_host_name ext (strdup own_host_name) in
          let endpoint :=
            purc_assemble_endpoint_name srv_host_name HBDBUS_APP_NAME
                                        HBDBUS_RUN_BUILITIN in
          let event_name :=
            endpoint +:+ "/" +:+ HBDBUS_BUBBLE_LOSTEVENTGENERATOR in
          match pcutils_kvlist_set (subscribed_list ext) event_name
                                   on_lost_event_generator with
          | None => ((-1)%Z, set_error ext ERR_SYM_OUTOFMEMORY)
          | Some l =>
              let ext := set_subscribed_list ext l in
              let event_name :=
                endpoint +:+ "/" +:+ HBDBUS_BUBBLE_LOSTEVENTBUBBLE in
              match pcutils_kvlist_set (subscribed_list ext) event_name
                                       on_lost_event_bubble with
              | None => ((-1)%Z, set_error ext ERR_SYM_OUTOFMEMORY)
              | Some l => (0%Z, set_subscribed_list ext l)
              end
          end
      end
  end.

(** [check_auth_result].  Every branch of the C function leaves through
    [goto done], so its [retv = 0] is never executed; at [done:] the
    variant is released. *)
Definition check_auth_result (ext : stream_extended_data) (payload : string)
  : M (Z * stream_extended_data) :=
  match hbdbus_json_packet_to_object payload with
  | (ret_, jo) =>
      r <- (if (ret_ <? 0)%Z then
              ret ((-1)%Z, set_error ext ERR_SYM_BADMSGPAYLOAD)
            else if (ret_ =? JPT_AUTH_PASSED)%Z then
              match jo with
              | REF_HELD jo => ret (on_auth_passed ext jo)
              | _ => abort
              end
            else if (ret_ =? JPT_AUTH_FAILED)%Z then
              ret ((-1)%Z, set_error ext ERR_SYM_AUTHFAILED)
            else if (ret_ =? JPT_ERROR)%Z then
              ret ((-1)%Z, set_error ext ERR_SYM_SERVERREFUSED)
            else ret ((-1)%Z, set_error ext ERR_SYM_UNEXPECTED)) ;;
      unref_if_set jo ;;;
      ret r
  end.

(** [handle_regular_message].  The results of the dispatchers are dropped;
    the variant is released, and the function answers by the error symbol
    alone. *)
Definition handle_regular_message (ext : stream_extended_data)
    (payload : string) : M (Z * stream_extended_data) :=
  match hbdbus_json_packet_to_object payload with
  | (retval, jo) =>
      let dispatch d :=
        match jo with
        | REF_HELD jo => r <- d ext jo ;; ret (snd r)
        | _ => abort
        end in
      ext <- (if (retval <? 0)%Z then ret (set_error ext ERR_SYM_BADMSGPAYLOAD)
              else if (retval =? JPT_ERROR)%Z then
                ret (set_error ext ERR_SYM_SERVERERROR)
              else if (retval =? JPT_AUTH)%Z then
                ret (set_error ext ERR_SYM_UNEXPECTED)
              else if (retval =? JPT_CALL)%Z then
                dispatch dispatch_call_packet
              else if (retval =? JPT_RESULT)%Z then
                dispatch dispatch_result_packet
              else if (retval =? JPT_RESULT_SENT)%Z then ret ext
              else if (retval =? JPT_EVENT)%Z then
                dispatch dispatch_event_packet
              else if (retval =? JPT_EVENT_SENT)%Z then ret ext
              else if (retval =? JPT_AUTH_PASSED)%Z then
                ret (set_error ext ERR_SYM_UNEXPECTED)
              else if (retval =? JPT_AUTH_FAILED)%Z then
                ret (set_error ext ERR_SYM_UNEXPECTED)
              else ret (set_error ext ERR_SYM_UNEXPECTED)) ;;
      unref_if_set jo ;;;
      match errsym ext with
      | Some _ => ret ((-1)%Z, ext)
      | None => ret (0%Z, ext)
      end
  end.

End Packets.

(** What makes a parsed packet a challenge [get_challenge_code] accepts:
    an object of packet type "auth" with a challenge code, the protocol
    name HBDBUS (in any case) and a protocol version that casts to 200 at
    least. *)
Definition acceptable_challenge (jo : json) (code : string) : Prop :=
  purc_variant_is_object jo = true
  /\ (exists t, string_member jo "packetType" = Some t
                /\ strcasecmp_eq t "auth" = true)
  /\ string_member jo "challengeCode" = Some code
  /\ (exists p, string_member jo "protocolName" = Some p
                /\ strcasecmp_eq p HBDBUS_PROTOCOL_NAME = true)
  /\ (exists v, purc_variant_object_get_by_ckey jo "protocolVersion" = Some v
                /\ (HBDBUS_PROTOCOL_VERSION
                    <= purc_variant_cast_to_int32 v 0)%Z).

(** The answer of the server to a good signature, and an environment in
    which it is what every payload parses to. *)
Definition auth_passed_packet : json :=
  JObject [ ("packetType", JString "authPassed");
            ("serverHostName", JString "server");
            ("reassignedHostName", JString "client") ].

Definition env_auth_passed : environment :=
  {| purc_variant_make_from_json_string := fun _ => Some auth_passed_packet;
     strdup_ok := true;
     pcutils_sign_data := fun _ _ => Some "signature";
     malloc_ok := true;
     pcutils_b64_encode := fun s => s;
     send_text := fun _ => 0%Z;
     uninitialised_int := 0%Z |}.

Definition assemble_endpoint_name (host app runner : string) : string :=
  "@" +:+ host +:+ "/" +:+ app +:+ "/" +:+ runner.

(** A payload whose variant [hbdbus_json_packet_to_object] has released
    when it returns: it parses, but not to an object, or to an object
    whose [packetType] is no string. *)
Definition released_by_parser (env : environment) (payload : string)
  : Prop :=
  exists jo,
    purc_variant_make_from_json_string env payload = Some jo
    /\ (purc_variant_is_object jo = false
        \/ exists jo_tmp,
             purc_variant_object_get_by_ckey jo "packetType" = Some jo_tmp
             /\ purc_variant_get_string_const jo_tmp = None).

(** What [check_auth_result] stores for an accepted "authPassed" packet:
    the copies of the two host names and the two system events. *)
Definition auth_passed_stored (env : environment)
    (assemble : string -> string -> string -> string)
    (dup : string -> bool)
    (kvlist_set :
       list (string * hbdbus_event_handler) -> string ->
       hbdbus_event_handler ->
       option (list (string * hbdbus_event_handler)))
    (ext : stream_extended_data) (payload : string)
    (ext' : stream_extended_data) : Prop :=
  exists jo t srv own l1 l2,
    purc_variant_make_from_json_string env payload = Some jo
    /\ string_member jo "packetType" = Some t
    /\ strcasecmp_eq t "authPassed" = true
    /\ string_member jo "serverHostName" = Some srv
    /\ string_member jo "reassignedHostName" = Some own
    /\ kvlist_set (subscribed_list ext)
         (assemble srv HBDBUS_APP_NAME HBDBUS_RUN_BUILITIN
          +:+ "/" +:+ HBDBUS_BUBBLE_LOSTEVENTGENERATOR)
         on_lost_event_generator = Some l1
    /\ kvlist_set l1
         (assemble srv HBDBUS_APP_NAME HBDBUS_RUN_BUILITIN
          +:+ "/" +:+ HBDBUS_BUBBLE_LOSTEVENTBUBBLE)
         on_lost_event_bubble = Some l2
    /\ ext' = set_subscribed_list
                (set_own_host_name
                   (set_srv_host_name ext (if dup srv then Some srv else None))
                   (if dup own then Some own else None))
                l2.

(** A list of subscribed events to which an entry is set by putting it in
    front. *)
Definition kvlist_set_in_front (l : list (string * hbdbus_event_handler))
    (name : string) (h : hbdbus_event_handler)
  : option (list (string * hbdbus_event_handler)) :=
  Some ((name, h) :: l).

(** An environment in which every payload parses to the number 5. *)
Definition env_number : environment :=
  {| purc_variant_make_from_json_string := fun _ => Some (JNumber 5);
     strdup_ok := true;
     pcutils_sign_data := fun _ _ => Some "signature";
     malloc_ok := true;
     pcutils_b64_encode := fun s => s;
     send_text := fun _ => 0%Z;
     uninitialised_int := 0%Z |}.

Definition no_packet_handler (ext : stream_extended_data) (jo : json)
  : M (Z * stream_extended_data) := ret (0%Z, ext).

Definition ext_in_state (st : bus_state) : stream_extended_data :=
  {| app_name := "cn.fmsoft.app"; runner_name := "main";
     errsym := None; state := st;
     srv_host_name := None; own_host_name := None;
     subscribed_list := [] |}.

End Hbdbus.

(* ===================================================================== *)
(** ** interpreter/elements/archetype.c : the continuation of a fetch     *)
(* ===================================================================== *)

Module Archetype.
Import Run.
Local Open Scope run_scope.

Abbreviation variant := Vcm.variant.
Abbreviation purc_variant_t := (option Vcm.variant).

Inductive purc_error :=
| PURC_ERROR_OK
| PURC_ERROR_NO_DATA
| PURC_ERROR_OTHER (code : nat).

Definition is_error (e : purc_error) : bool :=
  match e with PURC_ERROR_OK => false | _ => true end.

Inductive pcintr_next_step :=
| NEXT_STEP_AFTER_PUSHED
| NEXT_STEP_ON_POPPING
| NEXT_STEP_RERUN
| NEXT_STEP_SELECT_CHILD.

(** [struct ctxt_for_archetype], as far as the continuation uses it.  The
    response stream is the body it holds; a NULL stream is [None]. *)
Record ctxt_for_archetype := {
  name       : purc_variant_t;
  src        : purc_variant_t;
  ret_code   : Z;
  resp       : option string;
  under_head : bool
}.

Definition set_resp (c : ctxt_for_archetype) (r : option string)
  : ctxt_for_archetype :=
  {| name := name c; src := src c; ret_code := ret_code c; resp := r;
     under_head := under_head c |}.

(** The coroutine as the continuation sees it: the context of the bottom
    frame, the frame's next step and the error slot. *)
Record coroutine := {
  ctxt       : ctxt_for_archetype;
  next_step  : pcintr_next_step;
  last_error : purc_error
}.

(** The bindings a run creates. *)
Inductive event :=
| EvBindDocumentVariable (name : option string) (val : variant)
| EvBindScopeVariable (name : option string) (val : variant).

Definition M := run event.

(** What is outside the translation unit: the JSON loader, the two binders
    (whether they succeed, and the error they leave when they do not) and
    the fetcher's code for a request stopped by the user. *)
Record environment := {
  purc_variant_load_from_json_stream : string -> purc_variant_t;
  load_error : purc_error;
  bind_document_ok : bool;
  bind_scope_ok : bool;
  bind_error : purc_error;
  RESP_CODE_USER_STOP : Z
}.

Definition purc_variant_get_string_const (v : purc_variant_t)
  : option string :=
  match v with Some (Vcm.VString s) => Some s | _ => None end.

Section WithEnvironment.

Variable env : environment.

Definition purc_bind_document_variable (co : coroutine)
    (s_name : option string) (val : variant) : M (bool * coroutine) :=
  emit (EvBindDocumentVariable s_name val) ;;;
  if bind_document_ok env then ret (true, co)
  else ret (false, {| ctxt := ctxt co; next_step := next_step co;
                      last_error := bind_error env |}).

Definition pcintr_bind_scope_variable (co : coroutine)
    (s_name : option string) (val : variant) : M (bool * coroutine) :=
  emit (EvBindScopeVariable s_name val) ;;;
  if bind_scope_ok env then ret (true, co)
  else ret (false, {| ctxt := ctxt co; next_step := next_step co;
                      last_error := bind_error env |}).

(** The [clean_rws:] label. *)
Definition clean_rws (co : coroutine) : coroutine :=
  {| ctxt := set_resp (ctxt co) None;
     next_step := NEXT_STEP_ON_POPPING;
     last_error := last_error co |}.

(** The [dispatch_except:] label, which falls through to [clean_rws]. *)
Definition dispatch_except (has_except : bool) (co : coroutine)
  : M coroutine :=
  (if has_except then PC_ASSERT (is_error (last_error co)) else ret tt) ;;;
  ret (clean_rws co).

(** [on_sync_continuation].  After the response has been parsed the
    function stops at [PC_ASSERT(0)] ("Not implemented yet"); the statements
    behind it are kept as they are written, including the name they bind
    under, which is read from [ctxt->src]. *)
Definition on_sync_continuation (co : coroutine) : M coroutine :=
  let c := ctxt co in
  if (ret_code c =? RESP_CODE_USER_STOP env)%Z then
    ret (clean_rws {| ctxt := c; next_step := NEXT_STEP_ON_POPPING;
                      last_error := last_error co |})
  else
    match resp c with
    | Some body =>
        if negb (ret_code c =? 200)%Z then
          dispatch_except true
            {| ctxt := c; next_step := next_step co;
               last_error := PURC_ERROR_NO_DATA |}
        else
          let ret_ := purc_variant_load_from_json_stream env body in
          let co := match ret_ with
                    | Some _ => co
                    | None => {| ctxt := c; next_step := next_step co;
                                 last_error := load_error env |}
                    end in
          PC_ASSERT false ;;;                       (* Not implemented yet *)
          let s_name := purc_variant_get_string_const (src c) in
          match ret_ with
          | Some v =>
              r <- (if under_head c then
                      purc_bind_document_variable co s_name v
                    else
                      r <- pcintr_bind_scope_variable co s_name v ;;
                      PC_ASSERT (fst r) ;;;
                      PC_ASSERT false ;;;
                      ret r) ;;
              match r with
              | (true, co) =>
                  PC_ASSERT (negb (is_error (last_error co))) ;;;
                  ret (clean_rws co)
              | (false, co) => dispatch_except true co
              end
          | None => dispatch_except true co
          end
    | None =>
        dispatch_except true
          {| ctxt := c; next_step := next_step co;
             last_error := PURC_ERROR_NO_DATA |}
    end.

End WithEnvironment.

(** The bindings a run created. *)
Definition bindings {A} (m : M A) : list event := log m.

(** [<archetype name="T" src="file://a.json">] under [<head>], with the
    fetch completed: status 200 and a JSON body. *)
Definition archetype_T (code : Z) (body : option string) : coroutine :=
  {| ctxt := {| name := Some (Vcm.VString "T");
                src := Some (Vcm.VString "file://a.json");
                ret_code := code; resp := body; under_head := true |};
     next_step := NEXT_STEP_AFTER_PUSHED;
     last_error := PURC_ERROR_OK |}.

(** An environment in which the body parses and binding succeeds. *)
Definition env_ok : environment :=
  {| purc_variant_load_from_json_stream := fun _ => Some (Vcm.VNumber 1%Z);
     load_error := PURC_ERROR_OTHER 1;
     bind_document_ok := true;
     bind_scope_ok := true;
     bind_error := PURC_ERROR_OTHER 2;
     RESP_CODE_USER_STOP := (-1)%Z |}.

End Archetype.

(* ===================================================================== *)
(** ** interpreter/rdr.c : loading a page into the renderer               *)
(* ===================================================================== *)

Module Rdr.
Import Run.
Local Open Scope run_scope.

(** A byte is its value below 256; a C string is the list of its bytes
    before the terminating NUL. *)
Abbreviation byte := N.

Definition DEF_LEN_ONE_WRITE : nat := 1024 * 10.

Definition PCRDR_OPERATION_LOAD       : string := "load".
Definition PCRDR_OPERATION_WRITEBEGIN : string := "writeBegin".
Definition PCRDR_OPERATION_WRITEMORE  : string := "writeMore".
Definition PCRDR_OPERATION_WRITEEND   : string := "writeEnd".

Definition PCRDR_SC_OK : Z := 200.

Definition is_continuation (b : byte) : bool :=
  ((128 <=? b) && (b <=? 191))%N.

(** Modelled from the spec: the length of the UTF-8 encoded character at
    the head of a string, as [pcutils_string_check_utf8_len] (utils, not among
    the sources) recognises one ("UTF-8-aligned chunks, never splitting a
    code point", §4.7): one to four bytes, shortest form, no surrogate,
    nothing above U+10FFFF; [None] at a NUL, at the end of the string and at
    an invalid or truncated sequence. *)
Definition utf8_char_len (s : list byte) : option nat :=
  match s with
  | [] => None
  | b0 :: rest =>
      if (b0 =? 0)%N then None
      else if (b0 <? 128)%N then Some 1
      else if ((194 <=? b0) && (b0 <=? 223))%N then
        match rest with
        | b1 :: _ => if is_continuation b1 then Some 2 else None
        | _ => None
        end
      else if ((224 <=? b0) && (b0 <=? 239))%N then
        match rest with
        | b1 :: b2 :: _ =>
            if is_continuation b1 && is_continuation b2
               && (negb (b0 =? 224)%N || (160 <=? b1)%N)
               && (negb (b0 =? 237)%N || (b1 <=? 159)%N)
            then Some 3 else None
        | _ => None
        end
      else if ((240 <=? b0) && (b0 <=? 244))%N then
        match rest with
        | b1 :: b2 :: b3 :: _ =>
            if is_continuation b1 && is_continuation b2 && is_continuation b3
               && (negb (b0 =? 240)%N || (144 <=? b1)%N)
               && (negb (b0 =? 244)%N || (b1 <=? 143)%N)
            then Some 4 else None
        | _ => None
        end
      else None
  end.

(** Modelled from the spec: the scan of [pcutils_string_check_utf8_len
    (str, max_len, NULL, &end)]: characters are accepted while they are valid
    and end within [max_len] bytes; the result is [end - str].  Every
    character takes a byte at least, so [fuel = max_len] steps are enough. *)
Fixpoint utf8_scan (fuel : nat) (s : list byte) (max_len : nat) : nat :=
  match fuel with
  | 0 => 0
  | S fuel =>
      match utf8_char_len s with
      | Some k =>
          if k <=? max_len then k + utf8_scan fuel (drop k s) (max_len - k)
          else 0
      | None => 0
      end
  end.

Definition pcutils_string_check_utf8_len (str : list byte) (max_len : nat)
  : nat :=
  utf8_scan max_len str max_len.

(** A string made of whole UTF-8 encoded characters. *)
Inductive utf8_wf : list byte -> Prop :=
| utf8_wf_nil : utf8_wf []
| utf8_wf_char s k :
    utf8_char_len s = Some k -> utf8_wf (drop k s) -> utf8_wf s.

(** A request as [pcintr_rdr_send_request_and_wait_response] is given it:
    the operation, the data string (a static string that starts at the given
    pointer and runs to the end of the document) and [data_len], which
    becomes the message's [textLen] when it is not zero. *)
Record request := {
  operation : string;
  data      : list byte;
  data_len  : nat
}.

(** Modelled from the spec: the text a request carries on the wire (the
    serializer of the message is not among the sources): [textLen] bytes of
    the data string when [textLen] is set, the whole string otherwise. *)
Definition payload (req : request) : list byte :=
  if data_len req =? 0 then data req else take (data_len req) (data req).

Record pcrdr_msg := { retCode : Z; resultValue : Z }.

Definition M := run request.

Inductive conn_type := CT_SOCKET | CT_MOVE_BUFFER.

Section WithConnection.

(** The renderer at the other end: the response to a request, NULL
    ([None]) when the request could not be sent. *)
Variable respond : request -> option pcrdr_msg.

Definition pcintr_rdr_send_request_and_wait_response (op : string)
    (d : list byte) (len : nat) : M (option pcrdr_msg) :=
  let req := {| operation := op; data := d; data_len := len |} in
  emit req ;;; ret (respond req).

Definition response_ok (r : option pcrdr_msg) : bool :=
  match r with
  | Some m => (retCode m =? PCRDR_SC_OK)%Z
  | None => false
  end.

(** The [writting:] loop of [rdr_page_control_load_large_page], entered
    with [len_wrotten] bytes written.  The result is [Some] of what the C
    function returns (NULL for [failed:]); [None] says the fuel ran out. *)
Fixpoint writting (fuel : nat) (doc_content : list byte)
    (len_content len_wrotten : nat) : M (option (option pcrdr_msg)) :=
  match fuel with
  | 0 => ret None
  | S fuel =>
      if len_content <? len_wrotten + DEF_LEN_ONE_WRITE then
        (* writeEnd *)
        r <- pcintr_rdr_send_request_and_wait_response
               PCRDR_OPERATION_WRITEEND (drop len_wrotten doc_content) 0 ;;
        if response_ok r then ret (Some r) else ret (Some None)
      else
        (* writeMore *)
        let start := drop len_wrotten doc_content in
        let len_to_write :=
          pcutils_string_check_utf8_len start DEF_LEN_ONE_WRITE in
        if 0 <? len_to_write then
          let len_wrotten := len_wrotten + len_to_write in
          r <- pcintr_rdr_send_request_and_wait_response
                 PCRDR_OPERATION_WRITEMORE start len_to_write ;;
          if response_ok r then
            if len_wrotten =? len_content then ret (Some r)
            else writting fuel doc_content len_content len_wrotten
          else ret (Some None)
        else ret (Some None)
  end.

(** [rdr_page_control_load_large_page]. *)
Definition rdr_page_control_load_large_page (doc_content : list byte)
    (len_content : nat) : M (option (option pcrdr_msg)) :=
  (* writeBegin *)
  let len_to_write :=
    pcutils_string_check_utf8_len doc_content DEF_LEN_ONE_WRITE in
  if 0 <? len_to_write then
    let len_wrotten := len_to_write in
    r <- pcintr_rdr_send_request_and_wait_response
           PCRDR_OPERATION_WRITEBEGIN doc_content len_to_write ;;
    if response_ok r then
      if len_wrotten =? len_content then ret (Some r)
      else writting len_content doc_content len_content len_wrotten
    else ret (Some None)
  else ret (Some None).

(** The part of [pcintr_rdr_page_control_load] that sends the serialized
    document [p] of [sz_content] bytes over a connection that is not a move
    buffer. *)
Definition pcintr_rdr_page_control_load (p : list byte) (sz_content : nat)
  : M (option (option pcrdr_msg)) :=
  if DEF_LEN_ONE_WRITE <? sz_content then
    rdr_page_control_load_large_page p sz_content
  else
    r <- pcintr_rdr_send_request_and_wait_response
           PCRDR_OPERATION_LOAD p 0 ;;
    ret (Some r).

End WithConnection.

(** A renderer that accepts every request. *)
Definition renderer_ok (req : request) : option pcrdr_msg :=
  Some {| retCode := PCRDR_SC_OK; resultValue := 1%Z |}.

(** The shape the specification gives a streamed load: one writeBegin, any
    number of writeMore and a final writeEnd. *)
Definition begin_more_end (reqs : list request) : Prop :=
  exists b mores e,
    reqs = b :: mores ++ [e]
    /\ operation b = PCRDR_OPERATION_WRITEBEGIN
    /\ Forall (fun m => operation m = PCRDR_OPERATION_WRITEMORE) mores
    /\ operation e = PCRDR_OPERATION_WRITEEND.

(** The shape the code gives it: the writeEnd may be missing, and when it
    is sent it carries a chunk that is not empty. *)
Definition begin_more_opt_end (reqs : list request) : Prop :=
  exists b mores last,
    reqs = b :: mores ++ last
    /\ operation b = PCRDR_OPERATION_WRITEBEGIN
    /\ Forall (fun m => operation m = PCRDR_OPERATION_WRITEMORE) mores
    /\ (last = []
        \/ exists e, last = [e] /\ operation e = PCRDR_OPERATION_WRITEEND
                     /\ payload e <> []).

(** A chunk that fits one write and is made of whole characters. *)
Definition chunk_ok (q : request) : Prop :=
  length (payload q) <= DEF_LEN_ONE_WRITE /\ utf8_wf (payload q).

(** A full chunk sent at offset [lw] of the document: its payload is the
    bytes of the document from [lw] on, it is not empty, and the character
    that follows it in the document, if there is one, would not fit into
    the 10 240 bytes of one write any more. *)
Definition full_chunk (doc : list byte) (lw : nat) (q : request) : Prop :=
  payload q = take (length (payload q)) (drop lw doc)
  /\ 0 < length (payload q)
  /\ forall k, utf8_char_len (drop (lw + length (payload q)) doc) = Some k ->
               DEF_LEN_ONE_WRITE < length (payload q) + k.

(** When the code sends which request, from offset [lw] of the document
    on: a writeMore with a full chunk as long as at least 10 240 bytes
    remain to be sent; then, if anything remains, one writeEnd with all of
    it; nothing when nothing remains. *)
Fixpoint streamed_from (doc : list byte) (lw : nat) (reqs : list request)
  : Prop :=
  match reqs with
  | [] => lw = length doc
  | q :: rest =>
      (operation q = PCRDR_OPERATION_WRITEMORE
       /\ DEF_LEN_ONE_WRITE <= length doc - lw
       /\ full_chunk doc lw q
       /\ streamed_from doc (lw + length (payload q)) rest)
      \/ (operation q = PCRDR_OPERATION_WRITEEND
          /\ 0 < length doc - lw < DEF_LEN_ONE_WRITE
          /\ payload q = drop lw doc
          /\ rest = [])
  end.

(** A streamed load of the document: a writeBegin with a full chunk, and
    the rest as above. *)
Definition streamed (doc : list byte) (reqs : list request) : Prop :=
  exists b rest,
    reqs = b :: rest
    /\ operation b = PCRDR_OPERATION_WRITEBEGIN
    /\ full_chunk doc 0 b
    /\ streamed_from doc (length (payload b)) rest.

(** A document of 20 480 letters [a]. *)
Definition doc_20480 : list byte := replicate (2 * DEF_LEN_ONE_WRITE) 97%N.

(** A document of 10 239 letters [a], the three bytes of U+20AC and one
    more letter: a character straddles byte 10 240. *)
Definition doc_straddle : list byte :=
  replicate (DEF_LEN_ONE_WRITE - 1) 97%N ++ [226; 130; 172; 97]%N.

(** A transfer that stops at the first request the renderer does not
    accept: every request that is followed by another one was answered with
    [PCRDR_SC_OK], and a response is handed to the caller only when it is
    the accepted answer to the last request. *)
Definition stops_at_refusal (respond : request -> option pcrdr_msg)
    (reqs : list request) (res : option pcrdr_msg) : Prop :=
  (forall front q back, reqs = front ++ q :: back -> back <> [] ->
     response_ok (respond q) = true)
  /\ (forall m, res = Some m ->
        exists front q, reqs = front ++ [q] /\ respond q = Some m
                        /\ retCode m = PCRDR_SC_OK).

(** The operations of a streamed load. *)
Definition is_write_op (q : request) : Prop :=
  operation q = PCRDR_OPERATION_WRITEBEGIN
  \/ operation q = PCRDR_OPERATION_WRITEMORE
  \/ operation q = PCRDR_OPERATION_WRITEEND.

(** A renderer that accepts a writeBegin and answers anything else with
    status 500. *)
Definition renderer_begin_only (req : request) : option pcrdr_msg :=
  if String.eqb (operation req) PCRDR_OPERATION_WRITEBEGIN then
    Some {| retCode := PCRDR_SC_OK; resultValue := 1%Z |}
  else Some {| retCode := 500%Z; resultValue := 0%Z |}.

End Rdr.

(* ===================================================================== *)
(** ** document/document.c : the life of a document                        *)
(* ===================================================================== *)

Module DocumentLife.
Import Run.
Local Open Scope run_scope.

(** [refc] is an [unsigned int]: it is kept as its value, and [++] and
    [--] wrap around at 2^32. *)
Definition UINT_MAX : Z := 4294967295%Z.

Definition wrap (z : Z) : Z := (z mod (UINT_MAX + 1))%Z.

(** [struct purc_document], as far as its life cycle goes. *)
Record purc_document := { refc : Z }.

Inductive event :=
| EvDestroy.                        (** [doc->ops->destroy(doc)] *)

Definition M := run event.

Definition purc_document_get_refc (doc : purc_document) : Z := refc doc.

Definition purc_document_ref (doc : purc_document) : purc_document :=
  {| refc := wrap (refc doc + 1) |}.

(** [purc_document_unref]: the count it returns and the document as it
    leaves it. *)
Definition purc_document_unref (doc : purc_document)
  : M (Z * purc_document) :=
  let doc := {| refc := wrap (refc doc - 1) |} in
  let refc_ := refc doc in
  (if (refc_ =? 0)%Z then emit EvDestroy else ret tt) ;;;
  ret (refc_, doc).

Definition purc_document_delete (doc : purc_document) : M Z :=
  let refc_ := refc doc in
  emit EvDestroy ;;; ret refc_.

(** [n] calls of [purc_document_unref] in a row. *)
Fixpoint unref_times (n : nat) (doc : purc_document) : M purc_document :=
  match n with
  | 0 => ret doc
  | S n => r <- purc_document_unref doc ;; unref_times n (snd r)
  end.

(** The count is a value of an [unsigned int]. *)
Definition refc_valid (doc : purc_document) : Prop :=
  (0 <= refc doc <= UINT_MAX)%Z.

End DocumentLife.

(* ===================================================================== *)
(** ** document/document.c : the classes of an element                     *)
(* ===================================================================== *)

Module DocumentClass.

(** The bytes of a C string, without the terminating NUL. *)
Abbreviation chars := (list ascii).

Inductive pcdoc_special_attr := PCDOC_ATTR_ID | PCDOC_ATTR_CLASS.

(** [doc->ops->get_special_attr] for the element at hand, [None] when the
    table has no such operation: what it returns, and what it leaves in
    [*val] (a NULL pointer is [None]) and in [*len]. *)
Record purc_document := {
  get_special_attr :
    option (pcdoc_special_attr -> Z * option chars * nat)
}.

Definition pcdoc_element_get_special_attr (doc : purc_document)
    (which : pcdoc_special_attr) : Z * option chars * nat :=
  match get_special_attr doc with
  | Some op => op which
  | None => (0%Z, Some [], 0)
  end.

(** [pcdoc_element_class] (purc-document.h): the value and [*len]. *)
Definition pcdoc_element_class (doc : purc_document)
  : option chars * nat :=
  match pcdoc_element_get_special_attr doc PCDOC_ATTR_CLASS with
  | (r, val, len) => if (r =? 0)%Z then (val, len) else (None, 0)
  end.

(** [" \f\n\r\t\v"] *)
Definition CLASS_SEPARATOR : chars :=
  [ascii_of_nat 32; ascii_of_nat 12; ascii_of_nat 10; ascii_of_nat 13;
   ascii_of_nat 9; ascii_of_nat 11].

Definition is_delim (delim : chars) (c : ascii) : bool :=
  existsb (Ascii.eqb c) delim.

(** [strtok_r] of the C library, on the string it is to continue with:
    [s += strspn(s, delim)], then the token up to [strcspn(s, delim)]; the
    answer is the token and the new [*saveptr]. *)
Fixpoint skip_delim (delim s : chars) : chars :=
  match s with
  | [] => []
  | c :: s' => if is_delim delim c then skip_delim delim s' else s
  end.

Fixpoint cut_token (delim s : chars) : chars * chars :=
  match s with
  | [] => ([], [])
  | c :: s' =>
      if is_delim delim c then ([], s')
      else let (t, r) := cut_token delim s' in (c :: t, r)
  end.

Definition strtok_r (s delim : chars) : option (chars * chars) :=
  match skip_delim delim s with
  | [] => None
  | s' => Some (cut_token delim s')
  end.

(** [tolower] and [strcasecmp(a, b) == 0] of the C library in the C
    locale. *)
Definition tolower (c : ascii) : ascii :=
  let n := nat_of_ascii c in
  if (65 <=? n) && (n <=? 90) then ascii_of_nat (n + 32) else c.

Fixpoint strcasecmp_eq (a b : chars) : bool :=
  match a, b with
  | [], [] => true
  | x :: a', y :: b' =>
      Ascii.eqb (tolower x) (tolower y) && strcasecmp_eq a' b'
  | _, _ => false
  end.

(** The [for (str = haystack; ; str = NULL)] loop of
    [pcdoc_element_has_class], from the string [strtok_r] continues with;
    [None] is a loop that has not finished within [fuel] tokens. *)
Fixpoint class_loop (fuel : nat) (str klass : chars) : option bool :=
  match fuel with
  | 0 => None
  | S fuel =>
      match strtok_r str CLASS_SEPARATOR with
      | Some (token, saveptr) =>
          if strcasecmp_eq token klass then Some true
          else class_loop fuel saveptr klass
      | None => Some false
      end
  end.

(** [strndup(value, len)] of the value of the class attribute. *)
Definition haystack_of (doc : purc_document) : option chars :=
  match pcdoc_element_class doc with
  | (Some value, len) => Some (take len value)
  | (None, _) => None
  end.

Section WithIdentifiers.

(** [purc_is_valid_identifier] is not among the sources. *)
Variable purc_is_valid_identifier : chars -> bool.

(** [pcdoc_element_has_class]: the result and [*found], which holds
    [found] before the call; the loop gets one round for each byte of the
    haystack and one more. *)
Definition pcdoc_element_has_class (doc : purc_document) (klass : chars)
    (found : bool) : option (Z * bool) :=
  if negb (purc_is_valid_identifier klass) then Some ((-1)%Z, found)
  else
    match haystack_of doc with
    | None => Some (0%Z, false)
    | Some haystack =>
        match class_loop (S (length haystack)) haystack klass with
        | Some found => Some (0%Z, found)
        | None => None
        end
    end.

End WithIdentifiers.

(** [c] is a separator, or there is no [c]. *)
Definition delim_or_none (c : option ascii) : bool :=
  match c with
  | Some c => is_delim CLASS_SEPARATOR c
  | None => true
  end.

(** [klass] is one of the names in [value]: a non-empty run of bytes that
    are no separators, with a separator or the end of the value on either
    side, equal to [klass] up to the case of ASCII letters. *)
Definition class_listed (value klass : chars) : Prop :=
  exists pre tok post,
    value = pre ++ tok ++ post
    /\ tok <> []
    /\ Forall (fun c => is_delim CLASS_SEPARATOR c = false) tok
    /\ delim_or_none (last pre) = true
    /\ delim_or_none (head post) = true
    /\ strcasecmp_eq tok klass = true.

(** A document whose class attribute reads [value]. *)
Definition doc_with_class (value : string) : purc_document :=
  {| get_special_attr :=
       Some (fun which =>
               match which with
               | PCDOC_ATTR_CLASS =>
                   (0%Z, Some (String.list_ascii_of_string value),
                    String.length value)
               | PCDOC_ATTR_ID => ((-1)%Z, None, 0)
               end) |}.

End DocumentClass.

(* ===================================================================== *)
(** ** interpreter/elements/archetype.c : the children of an archetype     *)
(* ===================================================================== *)

Module ArchetypeChildren.
Import Run.
Local Open Scope run_scope.

Abbreviation pcvcm_node := Vcm.pcvcm_node.

(** The template container behind [ctxt->contents]: the VCM trees appended
    to it so far, in order. *)
Abbreviation template := (list Vcm.pcvcm_node).

(** A child of the element: a content node carries its VCM tree, which may
    be NULL. *)
Inductive pcvdom_node :=
| PCVDOM_NODE_DOCUMENT
| PCVDOM_NODE_ELEMENT (tag_name : string)
| PCVDOM_NODE_CONTENT (vcm : option pcvcm_node)
| PCVDOM_NODE_COMMENT (text : string).

Inductive purc_error := PURC_ERROR_OK | PURC_ERROR_OTHER (code : nat).

(** [struct ctxt_for_archetype], as far as the children are concerned. *)
Record ctxt_for_archetype := {
  curr     : option nat;          (* position of [curr] among the children *)
  name     : option Vcm.variant;
  contents : option template
}.

Record pcintr_stack_frame := {
  ctxt     : option ctxt_for_archetype;
  pos      : list pcvdom_node;    (* the children of [frame->pos] *)
  ctnt_var : option template
}.

(** [stack->back_anchor]: NULL, this frame or a frame further up. *)
Inductive anchor := ANCHOR_NULL | ANCHOR_THIS_FRAME | ANCHOR_OTHER_FRAME.

Record pcintr_stack := {
  frame       : pcintr_stack_frame;
  back_anchor : anchor;
  last_error  : purc_error
}.

Inductive event :=
| EvBindScopeVariable (name : string) (val : template).
    (** [pcintr_bind_scope_variable] on the parent element *)

Definition M := run event.

Definition purc_variant_get_string_const (v : Vcm.variant) : option string :=
  match v with Vcm.VString s => Some s | _ => None end.

Definition set_contents (c : ctxt_for_archetype) (t : template) :=
  {| curr := curr c; name := name c; contents := Some t |}.

Definition set_curr (c : ctxt_for_archetype) (k : option nat) :=
  {| curr := k; name := name c; contents := contents c |}.

Section WithInterpreter.

(** Modelled from the spec: [pcintr_template_append] (not among the
    sources) appends a VCM tree to the template container ("all content
    children have been appended to the template container", §4.6.6); the
    parameter says whether it succeeds (returns [0]). *)
Variable pcintr_template_append_ok : template -> pcvcm_node -> bool.

(** Whether [pcintr_bind_scope_variable] on the parent element succeeds. *)
Variable pcintr_bind_scope_variable_ok : string -> template -> bool.

(** [on_content]: the C result ([true] for [0]) and the context. *)
Definition on_content (c : ctxt_for_archetype) (vcm : option pcvcm_node)
  : M (bool * ctxt_for_archetype) :=
  match vcm with
  | None => ret (true, c)
  | Some v =>
      match contents c with
      | None => abort                            (* PC_ASSERT(ctxt->contents) *)
      | Some t =>
          if pcintr_template_append_ok t v then
            ret (true, set_contents c (t ++ [v]))
          else ret (false, c)
      end
  end.

(** [on_child_finished]: the C result ([true] for [0]) and the frame. *)
Definition on_child_finished (f : pcintr_stack_frame)
  : M (bool * pcintr_stack_frame) :=
  match ctxt f with
  | None => abort
  | Some c =>
      match contents c with
      | None => ret (false, f)
      | Some t =>
          let f := {| ctxt := ctxt f; pos := pos f; ctnt_var := Some t |} in
          match name c with
          | None => ret (false, f)
          | Some nm =>
              match purc_variant_get_string_const nm with
              | None => ret (false, f)
              | Some s_name =>
                  emit (EvBindScopeVariable s_name t) ;;;
                  ret (pcintr_bind_scope_variable_ok s_name t, f)
              end
          end
      end
  end.

(** The [again:] loop of [select_child] over the children from position
    [k] on: [Some k'] when [on_content] failed at position [k'], [None] at
    the end of the children. *)
Fixpoint walk_children (l : list pcvdom_node) (k : nat)
    (c : ctxt_for_archetype) : M (option nat * ctxt_for_archetype) :=
  match l with
  | [] => ret (None, c)
  | PCVDOM_NODE_CONTENT vcm :: rest =>
      r <- on_content c vcm ;;
      if fst r then walk_children rest (S k) (snd r)
      else ret (Some k, snd r)
  | _ :: _ => abort                              (* Not implemented yet *)
  end.

(** [select_child]: the child it selects and the stack as it leaves it. *)
Definition select_child (stack : pcintr_stack)
  : M (option pcvdom_node * pcintr_stack) :=
  let stack :=
    match back_anchor stack with
    | ANCHOR_THIS_FRAME =>
        {| frame := frame stack; back_anchor := ANCHOR_NULL;
           last_error := last_error stack |}
    | _ => stack
    end in
  match ctxt (frame stack), back_anchor stack with
  | None, _ => ret (None, stack)
  | Some _, ANCHOR_OTHER_FRAME => ret (None, stack)
  | Some c, _ =>
      let f := frame stack in
      let start := match curr c with None => 0 | Some k => S k end in
      r <- walk_children (drop start (pos f)) start c ;;
      match r with
      | (Some k, c) =>
          ret (None,
               {| frame := {| ctxt := Some (set_curr c (Some k));
                              pos := pos f; ctnt_var := ctnt_var f |};
                  back_anchor := back_anchor stack;
                  last_error := last_error stack |})
      | (None, c) =>
          let f := {| ctxt := Some (set_curr c None); pos := pos f;
                      ctnt_var := ctnt_var f |} in
          r <- on_child_finished f ;;
          PC_ASSERT (fst r) ;;;
          ret (None,
               {| frame := snd r; back_anchor := back_anchor stack;
                  last_error := PURC_ERROR_OK |})
      end
  end.

End WithInterpreter.

(** The VCM trees of the content children, in order. *)
Definition content_vcms (l : list pcvdom_node) : template :=
  omap (fun nd => match nd with
                  | PCVDOM_NODE_CONTENT vcm => vcm
                  | _ => None
                  end) l.

Definition is_content (nd : pcvdom_node) : bool :=
  match nd with PCVDOM_NODE_CONTENT _ => true | _ => false end.

(** A frame freshly pushed for [<archetype name=...>]: the context holds
    the name and an empty template, the cursor is at the start. *)
Definition fresh_stack (nm : string) (children : list pcvdom_node)
  : pcintr_stack :=
  {| frame := {| ctxt := Some {| curr := None;
                                 name := Some (Vcm.VString nm);
                                 contents := Some [] |};
                 pos := children; ctnt_var := None |};
     back_anchor := ANCHOR_NULL;
     last_error := PURC_ERROR_OTHER 1 |}.

(** Two content children around one without a VCM tree. *)
Definition three_contents : list pcvdom_node :=
  [PCVDOM_NODE_CONTENT (Some (Vcm.pcvcm_node_new_string "Hello"));
   PCVDOM_NODE_CONTENT None;
   PCVDOM_NODE_CONTENT (Some (Vcm.pcvcm_node_new_number 1))].

End ArchetypeChildren.

(* ===================================================================== *)
(** * Properties                                                          *)
(* ===================================================================== *)

Section RunProps.
Import Run.
Context {E : Type}.

Lemma log_bind {A B} (m : run E A) (k : A -> run E B) a :
  out m = Some a -> log (bind m k) = log m ++ log (k a).
Proof. intros H; unfold bind; rewrite H; reflexivity. Qed.

Lemma out_bind {A B} (m : run E A) (k : A -> run E B) a :
  out m = Some a -> out (bind m k) = out (k a).
Proof. intros H; unfold bind; rewrite H; reflexivity. Qed.

Lemma evals_ret {A} (a : A) : evals (ret a : run E A) [] a.
Proof. split; reflexivity. Qed.

Lemma evals_emit (e : E) : evals (emit e) [e] tt.
Proof. split; reflexivity. Qed.

Lemma evals_bind {A B} (m : run E A) (k : A -> run E B) e1 e2 a b :
  evals m e1 a -> evals (k a) e2 b -> evals (bind m k) (e1 ++ e2) b.
Proof.
  intros [Hl Ho] [Hl' Ho']. unfold evals, bind. rewrite Ho. simpl.
  rewrite Hl, Hl', Ho'. split; reflexivity.
Qed.

Lemma evals_assert (b : bool) :
  b = true -> evals (PC_ASSERT b : run E unit) [] tt.
Proof. intros ->. split; reflexivity. Qed.

Lemma aborts_bind {A B} (m : run E A) (k : A -> run E B) e1 a :
  evals m e1 a -> out (k a) = None -> out (bind m k) = None.
Proof. intros [Hl Ho] Hk. unfold bind. rewrite Ho. simpl. exact Hk. Qed.

End RunProps.

Section DocumentProps.
Import Document.

Lemma retrieve_loop_cases (s : string) :
  retrieve_loop s doc_types 0%Z =
    if String.eqb s "html" then PCDOC_K_TYPE_HTML else PCDOC_K_TYPE_VOID.
Proof.
  unfold doc_types, retrieve_loop, strcmp_eq; simpl.
  destruct (String.eqb_spec s PCDOC_TYPE_VOID) as [->|]; [reflexivity|].
  destruct (String.eqb_spec s PCDOC_TYPE_PLAIN) as [->|]; [reflexivity|].
  destruct (String.eqb_spec s PCDOC_TYPE_HTML) as [->|]; [reflexivity|].
  destruct (String.eqb_spec s PCDOC_TYPE_XML) as [->|]; [reflexivity|].
  destruct (String.eqb_spec s PCDOC_TYPE_XGML) as [->|]; [reflexivity|].
  destruct (String.eqb_spec s "html") as [->|]; [contradiction|reflexivity].
Qed.

(** C10. [purc_document_retrieve_type] returns the void type for a NULL
    name, for a name that is none of the five discriminator strings and
    for the names whose table is absent (plain, xml, xgml); "void" and
    "html" map to their own types, and no other name yields a non-void
    type.  (The function is pure: it reports no error; its sibling
    [purc_document_new] is the one that sets NOT_IMPLEMENTED.) *)
Theorem C10_retrieve_type_fallback :
  purc_document_retrieve_type None = PCDOC_K_TYPE_VOID
  /\ (forall s, ~ In s discriminators ->
        purc_document_retrieve_type (Some s) = PCDOC_K_TYPE_VOID)
  /\ (forall s, In s [PCDOC_TYPE_PLAIN; PCDOC_TYPE_XML; PCDOC_TYPE_XGML] ->
        purc_document_retrieve_type (Some s) = PCDOC_K_TYPE_VOID)
  /\ purc_document_retrieve_type (Some PCDOC_TYPE_VOID) = PCDOC_K_TYPE_VOID
  /\ purc_document_retrieve_type (Some PCDOC_TYPE_HTML) = PCDOC_K_TYPE_HTML
  /\ (forall name, purc_document_retrieve_type name <> PCDOC_K_TYPE_VOID ->
        name = Some PCDOC_TYPE_HTML
        /\ purc_document_retrieve_type name = PCDOC_K_TYPE_HTML).
Proof.
  split; [reflexivity|].
  split.
  { intros s Hs; unfold purc_document_retrieve_type.
    rewrite retrieve_loop_cases.
    destruct (String.eqb_spec s "html") as [->|]; [|reflexivity].
    exfalso; apply Hs; simpl; auto. }
  split.
  { intros s Hs; simpl in Hs.
    destruct Hs as [<-|[<-|[<-|[]]]]; reflexivity. }
  split; [reflexivity|].
  split; [reflexivity|].
  intros [s|]; unfold purc_document_retrieve_type; [|contradiction].
  rewrite retrieve_loop_cases.
  destruct (String.eqb_spec s "html") as [->|]; [|contradiction].
  intros _; split; reflexivity.
Qed.

(** The sibling that creates a document is the one that reports the
    missing table. *)
Example document_new_reports_missing_table :
  purc_document_new (doc := unit) (fun _ => Some tt) PCDOC_K_TYPE_PLAIN
                    PURC_ERROR_OK
  = (None, PURC_ERROR_NOT_IMPLEMENTED)
  /\ purc_document_new (doc := unit) (fun _ => Some tt) PCDOC_K_TYPE_HTML
                       PURC_ERROR_OK
     = (Some tt, PURC_ERROR_OK).
Proof. split; reflexivity. Qed.

End DocumentProps.

Section PcrdrProps.
Import Pcrdr.

(** C7. The atom table [pcrdr_opatoms] of pcrdr/pcrdr.c is not the closed
    set of the specification: it has 26 entries, carries the tabbed-window
    and tab-page operations at positions 8..13 and knows none of
    setPageGroups, createWidget, register, revoke, callMethod, getProperty
    or setProperty; the sibling table [rdr_ops] of interpreter/rdr.c is
    exactly the specified list, and no value of [PCRDR_NR_OPERATIONS]
    satisfies the compile-time assertions of both files. *)
Theorem C7_opatoms_differ_from_spec :
  pcrdr_opatoms <> spec_operations
  /\ rdr_ops = spec_operations
  /\ length pcrdr_opatoms = 26 /\ length spec_operations = 31
  /\ nth_error pcrdr_opatoms 8 = Some "createTabbedWindow"
  /\ nth_error spec_operations 8 = Some "setPageGroups"
  /\ filter (fun op => known_operation op = false) spec_operations
     = [ "setPageGroups"; "addPageGroups"; "removePageGroup";
         "createWidget"; "updateWidget"; "destroyWidget";
         "register"; "revoke"; "callMethod"; "getProperty"; "setProperty" ]
  /\ (forall first, pcrdr_operation_from_atom first (first + 8)
                    = Some ("createTabbedWindow", 8))
  /\ (forall nr, compile_time_assert_ops pcrdr_opatoms nr
                 && compile_time_assert_ops rdr_ops nr = false).
Proof.
  split; [discriminate|].
  split; [reflexivity|].
  split; [reflexivity|].
  split; [reflexivity|].
  split; [reflexivity|].
  split; [reflexivity|].
  split; [vm_compute; reflexivity|].
  split.
  - intros first. unfold pcrdr_operation_from_atom.
    replace (first + 8 - first) with 8 by lia.
    replace ((first <=? first + 8) && (first + 8 <=? first + (length pcrdr_opatoms - 1)))
      with true; [reflexivity|].
    symmetry; apply andb_true_iff; split; apply Nat.leb_le; simpl; lia.
  - intros nr. unfold compile_time_assert_ops. simpl length.
    destruct (Nat.eqb_spec 26 nr) as [<-|]; reflexivity.
Qed.

End PcrdrProps.

Section VariantArrayProps.
Import Run VariantArray.

(** With a listener registered, none of the three notifiers reaches a
    handler: each returns at its guard. *)
Lemma notifiers_silent (a : purc_variant) (v o n : purc_variant_t) :
  listeners a <> [] ->
  grown a v = ret tt /\ shrunk a v = ret tt /\ change a o n = ret tt.
Proof.
  intros H. unfold grown, shrunk, change.
  destruct (listeners a); [contradiction|]. simpl. auto.
Qed.

(** Without listeners there is nobody to call. *)
Lemma notifiers_idle (a : purc_variant) (v o n : purc_variant_t) :
  listeners a = [] ->
  grown a v = ret tt /\ shrunk a v = ret tt /\ change a o n = ret tt.
Proof.
  intros H. unfold grown, shrunk, change. rewrite H. simpl. auto.
Qed.

Lemma notifiers_never_call (a : purc_variant) (v o n : purc_variant_t) :
  grown a v = ret tt /\ shrunk a v = ret tt /\ change a o n = ret tt.
Proof.
  destruct (listeners a) eqn:E.
  - apply notifiers_idle; assumption.
  - apply notifiers_silent; rewrite E; discriminate.
Qed.

Lemma insert_before_no_calls realloc_ok a0 idx v :
  handler_calls (purc_variant_array_insert_before realloc_ok a0 idx v) = [].
Proof.
  unfold purc_variant_array_insert_before.
  destruct a0 as [a|]; [|reflexivity].
  destruct (is_array_type (vtype a) && (0 <=? idx)%Z && negb (v =? 0)%N
            && negb (addr a =? v)%N); [|reflexivity].
  cbv zeta. destruct (negb (pcutils_arrlist_shrink _ _ _)); [reflexivity|].
  match goal with
  | |- context [shrunk ?x v] =>
      destruct (notifiers_never_call x v v v) as (_ & -> & _)
  end.
  reflexivity.
Qed.

Lemma append_no_calls realloc_ok a0 v :
  handler_calls (purc_variant_array_append realloc_ok a0 v) = [].
Proof.
  unfold purc_variant_array_append.
  destruct a0 as [a|]; [|reflexivity].
  destruct (is_array_type (vtype a) && negb (v =? 0)%N); [|reflexivity].
  apply insert_before_no_calls.
Qed.

Lemma set_no_calls realloc_ok a0 idx v :
  handler_calls (purc_variant_array_set realloc_ok a0 idx v) = [].
Proof.
  unfold purc_variant_array_set.
  destruct a0 as [a|]; [|reflexivity].
  destruct (is_array_type (vtype a) && (0 <=? idx)%Z && negb (v =? 0)%N
            && negb (addr a =? v)%N); [|reflexivity].
  cbv zeta. destruct (Z.of_nat _ <=? idx)%Z.
  - destruct (pcutils_arrlist_put_idx _ _ _ _); [|reflexivity].
    match goal with
    | |- context [grown ?x v] =>
        destruct (notifiers_never_call x v v v) as (-> & _ & _)
    end.
    reflexivity.
  - destruct (negb (_ =? v)%N); [|reflexivity].
    match goal with
    | |- context [change ?x ?o v] =>
        destruct (notifiers_never_call x v o v) as (_ & _ & ->)
    end.
    reflexivity.
Qed.

Lemma remove_no_calls a0 idx :
  handler_calls (purc_variant_array_remove a0 idx) = [].
Proof.
  unfold purc_variant_array_remove.
  destruct a0 as [a|]; [|reflexivity].
  destruct (is_array_type (vtype a) && (0 <=? idx)%Z); [|reflexivity].
  cbv zeta. destruct (Z.of_nat _ <=? idx)%Z; [reflexivity|].
  match goal with
  | |- context [shrunk ?x ?v] =>
      destruct (notifiers_never_call x v v v) as (_ & -> & _)
  end.
  reflexivity.
Qed.

(** C1. On an array with a registered "grown" listener,
    [purc_variant_array_append] succeeds and stores the value, yet the
    listener's handler is invoked zero times (the specification asks for
    exactly one invocation, with the new value): [shrunk], which
    [purc_variant_array_insert_before] calls where its sibling
    [purc_variant_array_set] calls [grown], returns at its inverted guard.
    No mutation of any array reaches a handler at all: with listeners the
    notifiers return at the guard, without listeners there is nobody to
    call. *)
Theorem C1_append_fires_no_listener :
  (let r := purc_variant_array_append (fun _ => true)
              (Some watched_array) 42%N in
   listeners watched_array = [grow_listener]
   /\ out r = Some (true, Some (set_al watched_array [5%N; 42%N]))
   /\ handler_calls r = [])
  /\ (forall realloc_ok a0 idx v,
        handler_calls (purc_variant_array_insert_before realloc_ok a0 idx v)
        = []
        /\ handler_calls (purc_variant_array_append realloc_ok a0 v) = []
        /\ handler_calls (purc_variant_array_set realloc_ok a0 idx v) = []
        /\ handler_calls (purc_variant_array_remove a0 idx) = []).
Proof.
  split.
  - vm_compute. repeat split.
  - intros realloc_ok a0 idx v.
    split; [apply insert_before_no_calls|].
    split; [apply append_no_calls|].
    split; [apply set_no_calls|apply remove_no_calls].
Qed.

Lemma fill_lookup (l : list purc_variant_t) (i : nat) :
  _fill_empty_with_undefined l !! i =
    (fun val => if N.eqb val 0 then purc_variant_make_undefined else val)
      <$> (l !! i).
Proof. unfold _fill_empty_with_undefined. apply list_lookup_fmap. Qed.

(** What [purc_variant_array_set] does at an index at or beyond the size
    when the longer slot array can be allocated. *)
Lemma array_set_grows (realloc_ok : nat -> bool)
    (a : purc_variant) (idx : Z) (v : purc_variant_t) :
  vtype a = PURC_VARIANT_TYPE_ARRAY ->
  slots_valid a ->
  (Z.of_nat (length (array (al a))) <= idx)%Z ->
  v <> PURC_VARIANT_INVALID ->
  v <> addr a ->
  realloc_ok (Z.to_nat idx + 1) = true ->
  exists a',
    out (purc_variant_array_set realloc_ok (Some a) idx v)
      = Some (true, Some a')
    /\ length (array (al a')) = Z.to_nat idx + 1
    /\ array (al a') !! Z.to_nat idx = Some v
    /\ (forall i, length (array (al a)) <= i < Z.to_nat idx ->
          array (al a') !! i = Some purc_variant_make_undefined)
    /\ (forall i, i < length (array (al a)) ->
          array (al a') !! i = array (al a) !! i).
Proof.
  intros Hty Hwf Hidx Hv Hne Hmem.
  unfold slots_valid in Hwf.
  destruct a as [ad ty [l] ls]; simpl in *. subst ty.
  remember (Z.to_nat idx) as k eqn:Hk.
  assert (Hnk : length l <= k) by lia.
  assert (Hv0 : N.eqb v 0 = false) by (apply N.eqb_neq; exact Hv).
  assert (Hne0 : N.eqb ad v = false) by (apply N.eqb_neq; congruence).
  remember (l ++ replicate (k - length l) 0%N ++ [v]) as l1 eqn:Hl1.
  exists {| addr := ad; vtype := PURC_VARIANT_TYPE_ARRAY;
            al := {| array := _fill_empty_with_undefined l1 |};
            listeners := ls |}.
  assert (Hlen1 : length l1 = k + 1).
  { rewrite Hl1. rewrite !length_app, length_replicate. simpl. lia. }
  split.
  { unfold purc_variant_array_set. simpl.
    replace (0 <=? idx)%Z with true by (symmetry; apply Z.leb_le; lia).
    rewrite Hv0, Hne0. simpl.
    replace (Z.of_nat (length l) <=? idx)%Z with true
      by (symmetry; apply Z.leb_le; lia).
    unfold pcutils_arrlist_put_idx. rewrite Hmem.
    replace (k <? length l) with false
      by (symmetry; apply Nat.ltb_ge; exact Hnk).
    rewrite <- Hl1. unfold set_al. simpl.
    match goal with |- context [grown ?x v] =>
      destruct (notifiers_never_call x v v v) as (Hg & _ & _)
    end.
    rewrite Hg. reflexivity. }
  cbn [array al].
  split.
  { unfold _fill_empty_with_undefined. rewrite length_map. exact Hlen1. }
  split.
  { rewrite fill_lookup. rewrite Hl1.
    rewrite lookup_app_r; [|lia].
    rewrite lookup_app_r; [|rewrite length_replicate; lia].
    rewrite length_replicate.
    replace (k - length l - (k - length l)) with 0 by lia.
    simpl. rewrite Hv0. reflexivity. }
  split.
  { intros i Hi. rewrite fill_lookup. rewrite Hl1.
    rewrite lookup_app_r; [|lia].
    rewrite lookup_app_l; [|rewrite length_replicate; lia].
    rewrite lookup_replicate_2; [reflexivity|lia]. }
  { intros i Hi. rewrite fill_lookup. rewrite Hl1.
    rewrite lookup_app_l; [|lia].
    destruct (l !! i) as [x|] eqn:Hx; [|reflexivity]. simpl.
    assert (x <> 0%N) as Hx0.
    { rewrite Forall_forall in Hwf.
      apply Hwf. eapply list_elem_of_lookup_2; exact Hx. }
    apply N.eqb_neq in Hx0. rewrite Hx0. reflexivity. }
Qed.

(** What it does when the longer slot array cannot be allocated. *)
Lemma array_set_out_of_memory (realloc_ok : nat -> bool)
    (a : purc_variant) (idx : Z) (v : purc_variant_t) :
  vtype a = PURC_VARIANT_TYPE_ARRAY ->
  (Z.of_nat (length (array (al a))) <= idx)%Z ->
  v <> PURC_VARIANT_INVALID ->
  v <> addr a ->
  realloc_ok (Z.to_nat idx + 1) = false ->
  evals (purc_variant_array_set realloc_ok (Some a) idx v)
        [EvOutOfMemory] (false, Some a).
Proof.
  intros Hty Hidx Hv Hne Hmem.
  assert (Hv0 : N.eqb v 0 = false) by (apply N.eqb_neq; exact Hv).
  assert (Hne0 : N.eqb (addr a) v = false) by (apply N.eqb_neq; congruence).
  unfold purc_variant_array_set. rewrite Hty. cbn [is_array_type andb].
  replace (0 <=? idx)%Z with true by (symmetry; apply Z.leb_le; lia).
  rewrite Hv0, Hne0. cbn [negb andb]. cbv zeta.
  replace (Z.of_nat (length (array (al a))) <=? idx)%Z with true
    by (symmetry; apply Z.leb_le; lia).
  unfold pcutils_arrlist_put_idx. rewrite Hmem. split; reflexivity.
Qed.

(** C9, amended. [purc_variant_array_set] at an index at or beyond the
    size of an array whose slots all hold a variant, with a valid value
    other than the array itself: when the slot array can be reallocated
    to [idx + 1] slots, the call returns true, stores the value at that
    index, fills the slots between the old size and the index with the
    undefined variant and leaves the old elements alone; when it cannot,
    the call returns false with the out-of-memory error and leaves the
    array as it was. *)
Theorem C9_array_set_beyond_size (realloc_ok : nat -> bool)
    (a : purc_variant) (idx : Z) (v : purc_variant_t) :
  vtype a = PURC_VARIANT_TYPE_ARRAY ->
  slots_valid a ->
  (Z.of_nat (length (array (al a))) <= idx)%Z ->
  v <> PURC_VARIANT_INVALID ->
  v <> addr a ->
  (realloc_ok (Z.to_nat idx + 1) = true ->
   exists a',
     out (purc_variant_array_set realloc_ok (Some a) idx v)
       = Some (true, Some a')
     /\ length (array (al a')) = Z.to_nat idx + 1
     /\ array (al a') !! Z.to_nat idx = Some v
     /\ (forall i, length (array (al a)) <= i < Z.to_nat idx ->
           array (al a') !! i = Some purc_variant_make_undefined)
     /\ (forall i, i < length (array (al a)) ->
           array (al a') !! i = array (al a) !! i))
  /\ (realloc_ok (Z.to_nat idx + 1) = false ->
      evals (purc_variant_array_set realloc_ok (Some a) idx v)
            [EvOutOfMemory] (false, Some a)).
Proof.
  intros Hty Hwf Hidx Hv Hne. split.
  - intros Hmem. now apply array_set_grows.
  - intros Hmem. now apply array_set_out_of_memory.
Qed.

(** C9 as stated fails: the array of one member, the index 3 and the
    value 42 meet its conditions, and with room for two slots only the
    call returns false, reports that memory ran out and leaves the array
    at one member. *)
Lemma C9_out_of_memory_counterexample :
  let r := purc_variant_array_set (room_for 2) (Some watched_array)
             3%Z 42%N in
  vtype watched_array = PURC_VARIANT_TYPE_ARRAY
  /\ slots_valid watched_array
  /\ (Z.of_nat (length (array (al watched_array))) <= 3)%Z
  /\ 42%N <> PURC_VARIANT_INVALID
  /\ 42%N <> addr watched_array
  /\ evals r [EvOutOfMemory] (false, Some watched_array)
  /\ ~ (exists a', out r = Some (true, Some a')).
Proof.
  cbv zeta.
  split; [reflexivity|].
  split; [repeat constructor; discriminate|].
  split; [simpl; lia|].
  split; [discriminate|].
  split; [discriminate|].
  split; [split; reflexivity|].
  intros (a' & H). vm_compute in H. discriminate H.
Qed.

Lemma C9_array_set_beyond_size_witness :
  (exists a',
     out (purc_variant_array_set (fun _ => true) (Some watched_array)
            3%Z 42%N)
       = Some (true, Some a')
     /\ array (al a') = [5%N; 1%N; 1%N; 42%N])
  /\ evals (purc_variant_array_set (room_for 2) (Some watched_array)
              3%Z 42%N)
           [EvOutOfMemory] (false, Some watched_array).
Proof.
  split.
  - destruct (proj1 (C9_array_set_beyond_size (fun _ => true)
                       watched_array 3%Z 42%N eq_refl
                       ltac:(repeat constructor; discriminate)
                       ltac:(simpl; lia) ltac:(discriminate)
                       ltac:(discriminate)) eq_refl)
      as (a' & Hout & _).
    exists a'. split; [exact Hout|].
    vm_compute in Hout. injection Hout as <-. reflexivity.
  - exact (proj2 (C9_array_set_beyond_size (room_for 2)
                    watched_array 3%Z 42%N eq_refl
                    ltac:(repeat constructor; discriminate)
                    ltac:(simpl; lia) ltac:(discriminate)
                    ltac:(discriminate)) eq_refl).
Defined.

End VariantArrayProps.

Section VcmProps.
Import Vcm.

(** C6 as stated fails: the get-variable node over the literal "x",
    evaluated in a context whose innermost scope binds "x" to a number,
    does not yield the bound variant (it yields null). *)
Lemma C6_get_variable_counterexample :
  resolve_variable stack_with_x "x" = Some (VNumber 5%Z)
  /\ pcvcm_eval
       (Some (pcvcm_node_new_get_variable (Some (pcvcm_node_new_string "x"))))
       stack_with_x <> VNumber 5%Z.
Proof. split; [reflexivity|discriminate]. Qed.

(** C6, amended. Evaluation of a get-variable node does not consult the
    evaluation context: whatever the children and the scopes, the result is
    the null variant (the node type falls to the [default] branch of
    [pcvcm_node_to_variant]), and [pcvcm_eval] gives the same result in any
    two contexts. *)
Theorem C6_get_variable_is_null :
  (forall data children stack,
      pcvcm_eval (Some (Node PCVCM_NODE_TYPE_FUNC_GET_VARIABLE data children))
                 stack = VNull)
  /\ (forall tree stack1 stack2,
        pcvcm_eval tree stack1 = pcvcm_eval tree stack2).
Proof. split; reflexivity. Qed.

End VcmProps.


Section IterateProps.
Import Run Iterate.

Variables inst iter : Type.
Variable eval : pcvdom_attr -> purc_variant_t.
Variable get_executor : string -> option (purc_exec_ops inst iter).
Variable mode : bool.

Abbreviation stack_t := (pcintr_stack inst iter).
Abbreviation ctxt_t := (ctxt_for_iterate inst iter).

Lemma count_events_app p (l1 l2 : list event) :
  count_events p (l1 ++ l2) = count_events p l1 + count_events p l2.
Proof. unfold count_events. rewrite filter_app, length_app. reflexivity. Qed.

Lemma count_events_none p (l : list event) :
  Forall (fun e => p e = false) l -> count_events p l = 0.
Proof.
  unfold count_events. induction 1 as [|e l He _ IH]; [reflexivity|].
  rewrite filter_cons. destruct (decide (p e = true)) as [Ht|_].
  - congruence.
  - exact IH.
Qed.

Lemma select_child_from_spec (l : list pcvdom_node) :
  Forall (fun nd => ntype nd <> PCVDOM_NODE_DOCUMENT) l ->
  forall k,
    select_child_from l k = ret None
    \/ exists n k', select_child_from l k = ret (Some (n, k'))
                    /\ k <= k' < k + length l.
Proof.
  induction 1 as [|nd l Hnd _ IH]; intros k; [left; reflexivity|].
  simpl. destruct (ntype nd) eqn:Hty.
  - contradiction.
  - right. exists nd, k. split; [reflexivity|lia].
  - destruct (IH (S k)) as [->|(n & k' & -> & Hk)]; [left; reflexivity|].
    right. exists n, k'. split; [reflexivity|lia].
  - destruct (IH (S k)) as [->|(n & k' & -> & Hk)]; [left; reflexivity|].
    right. exists n, k'. split; [reflexivity|lia].
Qed.

Lemma bind_ret_l {A B} (a : A) (k : A -> M B) : bind (ret a) k = k a.
Proof. unfold bind, ret. simpl. destruct (k a); reflexivity. Qed.

Lemma select_child_spec (st : stack_t) (c : ctxt_t) (el : pcvdom_element) :
  ctxt (frame st) = Some c -> pos (frame st) = Some el -> no_document el ->
  select_child st = ret (None, at_end st c)
  \/ exists n k,
       select_child st
       = ret (Some n,
              set_frame st (set_ctxt (frame st) (set_curr c (Some k))))
       /\ start_of c <= k < length (children el).
Proof.
  intros Hc Hp Hd. unfold select_child. rewrite Hc, Hp.
  fold (start_of c).
  assert (Hd' : Forall (fun nd => ntype nd <> PCVDOM_NODE_DOCUMENT)
                       (drop (start_of c) (children el))).
  { apply Forall_drop. exact Hd. }
  destruct (select_child_from_spec _ Hd' (start_of c))
    as [->|(n & k & -> & Hk)]; rewrite bind_ret_l.
  - left. reflexivity.
  - right. exists n, k. split; [reflexivity|].
    rewrite length_drop in Hk. lia.
Qed.

(** Step 2 of the driver ends, logs only its own events and leaves the
    cursor at the end of the children. *)
Lemma select_children_spec (budget : nat) :
  forall (st : stack_t) (c : ctxt_t) (el : pcvdom_element),
    ctxt (frame st) = Some c -> pos (frame st) = Some el -> no_document el ->
    length (children el) - start_of c < budget ->
    exists evs,
      evals (select_children budget st) evs (Some (at_end st c))
      /\ Forall (fun e => is_select e = true) evs.
Proof.
  induction budget as [|b IH]; intros st c el Hc Hp Hd Hb; [lia|].
  simpl select_children.
  destruct (select_child_spec st c el Hc Hp Hd) as [->|(n & k & -> & Hk)];
    rewrite bind_ret_l.
  - exists [EvSelectChild None]. split.
    + split; reflexivity.
    + repeat constructor.
  - set (st' := set_frame st (set_ctxt (frame st) (set_curr c (Some k)))).
    destruct (IH st' (set_curr c (Some k)) el) as (evs & Hev & Hall);
      [reflexivity|exact Hp|exact Hd|unfold start_of; simpl; lia|].
    exists (EvSelectChild (Some n) :: evs). split.
    + change (EvSelectChild (Some n) :: evs)
        with ([EvSelectChild (Some n)] ++ evs).
      eapply evals_bind; [apply evals_emit|]. exact Hev.
    + constructor; [reflexivity|exact Hall].
Qed.

Lemma eval_rule_spec (c : ctxt_t) :
  exists evs,
    evals (eval_rule eval c) evs (rule_in_force eval c)
    /\ Forall (fun e => is_eval e = true) evs.
Proof.
  unfold eval_rule, rule_in_force. destruct (rule_attr c) as [a|].
  - exists [EvEvalAttr (key a)]. split; [|repeat constructor].
    unfold eval_attr. split; reflexivity.
  - exists []. split; [apply evals_ret|constructor].
Qed.

(** What one call of [rerun] does to a frame that holds an iterator. *)
Lemma rerun_spec (st : stack_t) (c : ctxt_t) o ei i :
  ctxt (frame st) = Some c -> ops c = Some o -> exec_inst c = Some ei ->
  it c = Some i ->
  exists st',
    evals (rerun st) [EvItValue] (true, st')
    /\ idx (frame st') = idx (frame st) + 1
    /\ result_var (frame st')
       = match it_value o ei i with
         | Some value => Some value
         | None => result_var (frame st)
         end
    /\ ctxt (frame st') = Some c
    /\ pos (frame st') = pos (frame st).
Proof.
  intros Hc Ho Hei Hit. unfold rerun. rewrite Hc, Hei. simpl.
  rewrite Hit, Ho.
  destruct (it_value o ei i) as [value|] eqn:Hv.
  - eexists. split; [split; reflexivity|].
    simpl. rewrite Hc. repeat split; reflexivity.
  - eexists. split; [split; reflexivity|].
    simpl. rewrite Hc. repeat split; reflexivity.
Qed.

Lemma iterates_pos (o : purc_exec_ops inst iter) ei rule i n :
  iterates o ei rule i n -> 1 <= n.
Proof. induction 1; lia. Qed.

Lemma quiet_counts evs :
  quiet evs ->
  count_events is_rerun evs = 0 /\ count_events is_on_popping evs = 0
  /\ count_events is_popped evs = 0.
Proof.
  intros H. repeat split; apply count_events_none;
    eapply Forall_impl; try exact H; simpl; tauto.
Qed.

Lemma quiet_app e1 e2 : quiet e1 -> quiet e2 -> quiet (e1 ++ e2).
Proof. apply Forall_app_2. Qed.

Lemma quiet_select evs : Forall (fun e => is_select e = true) evs -> quiet evs.
Proof.
  intros H. eapply Forall_impl; [exact H|].
  intros [] He; simpl in *; try discriminate; auto.
Qed.

Lemma quiet_eval evs : Forall (fun e => is_eval e = true) evs -> quiet evs.
Proof.
  intros H. eapply Forall_impl; [exact H|].
  intros [] He; simpl in *; try discriminate; auto.
Qed.

(** [on_popping] on a frame that holds an iterator: it asks the executor
    for the next one, answers [false] and keeps it when there is one, and
    answers [true] otherwise. *)
Lemma on_popping_spec (st : stack_t) (c : ctxt_t) o ei i rule :
  ctxt (frame st) = Some c -> ops c = Some o -> exec_inst c = Some ei ->
  it c = Some i -> rule_in_force eval c = Some rule ->
  exists evs, quiet evs /\
    match it_next o ei i rule with
    | inl i' =>
        evals (on_popping eval st) evs
          (false, set_frame st (set_ctxt (frame st) (set_it c (Some i'))))
    | inr _ =>
        exists st', evals (on_popping eval st) evs (true, st')
                    /\ idx (frame st') = idx (frame st)
    end.
Proof.
  intros Hc Ho Hei Hit Hr. unfold on_popping. rewrite Hc, Hei, Hit, Ho.
  destruct (eval_rule_spec c) as (e1 & Hev1 & Hq1). rewrite Hr in Hev1.
  exists (e1 ++ [EvItNext rule] ++ []). split.
  { apply quiet_app; [apply quiet_eval; exact Hq1|].
    repeat constructor. }
  destruct (it_next o ei i rule) as [i'|err] eqn:Hn.
  - eapply evals_bind; [exact Hev1|]. cbv beta iota.
    eapply evals_bind; [apply evals_emit|]. rewrite Hn. apply evals_ret.
  - eexists. split.
    + eapply evals_bind; [exact Hev1|]. cbv beta iota.
      eapply evals_bind; [apply evals_emit|]. rewrite Hn. apply evals_ret.
    + destruct (is_not_exists err); reflexivity.
Qed.

(** The driver over a frame whose iterator is the first of [n]. *)
Lemma run_frame_iterates (o : purc_exec_ops inst iter) ei rule i n :
  iterates o ei rule i n ->
  forall fuel (st : stack_t) (c : ctxt_t) el,
    n <= fuel ->
    ctxt (frame st) = Some c -> pos (frame st) = Some el -> no_document el ->
    ops c = Some o -> exec_inst c = Some ei -> it c = Some i ->
    rule_in_force eval c = Some rule ->
    exists evs st',
      evals (run_frame eval fuel st) evs (Some st')
      /\ count_events is_rerun evs = n - 1
      /\ count_events is_on_popping evs = n
      /\ count_events is_popped evs = 1
      /\ idx (frame st') = idx (frame st) + (n - 1).
Proof.
  induction 1 as [i err Hnext | i i' n Hnext Hrest IH];
    intros fuel st c el Hfuel Hc Hp Hd Ho Hei Hit Hr;
    (destruct fuel as [|fuel]; [lia|]); simpl run_frame.
  - destruct (select_children_spec (S (nr_children st)) st c el Hc Hp Hd)
      as (e1 & Hev1 & Hq1).
    { unfold nr_children. rewrite Hp. lia. }
    destruct (on_popping_spec (at_end st c) (set_curr c None) o ei i rule)
      as (e2 & Hq2 & Hpop); try assumption; try reflexivity.
    rewrite Hnext in Hpop. destruct Hpop as (st' & Hev2 & Hidx).
    exists (e1 ++ e2 ++ [EvOnPopping true] ++ []), st'. split.
    { eapply evals_bind; [exact Hev1|]. cbv beta iota.
      eapply evals_bind; [exact Hev2|]. cbv beta iota.
      eapply evals_bind; [apply evals_emit|]. apply evals_ret. }
    apply quiet_select in Hq1.
    destruct (quiet_counts _ Hq1) as (A1 & A2 & A3).
    destruct (quiet_counts _ Hq2) as (B1 & B2 & B3).
    rewrite !count_events_app, A1, A2, A3, B1, B2, B3.
    repeat split; try reflexivity.
    rewrite Hidx. simpl. lia.
  - destruct (select_children_spec (S (nr_children st)) st c el Hc Hp Hd)
      as (e1 & Hev1 & Hq1).
    { unfold nr_children. rewrite Hp. lia. }
    destruct (on_popping_spec (at_end st c) (set_curr c None) o ei i rule)
      as (e2 & Hq2 & Hpop); try assumption; try reflexivity.
    rewrite Hnext in Hpop.
    set (st1 := set_frame (at_end st c)
                  (set_ctxt (frame (at_end st c))
                            (set_it (set_curr c None) (Some i')))) in *.
    destruct (rerun_spec st1 (set_it (set_curr c None) (Some i')) o ei i')
      as (st2 & Hev3 & Hidx2 & _ & Hc2 & Hp2); try assumption; try reflexivity.
    destruct (IH fuel st2 (set_it (set_curr c None) (Some i')) el)
      as (e4 & st' & Hev4 & R1 & R2 & R3 & Hidx4);
      try assumption; try reflexivity; [lia| |].
    { rewrite Hp2. exact Hp. }
    exists (e1 ++ e2 ++ [EvOnPopping false] ++ [EvItValue] ++ [EvRerun] ++ e4),
           st'.
    split.
    { eapply evals_bind; [exact Hev1|]. cbv beta iota.
      eapply evals_bind; [exact Hpop|]. cbv beta iota.
      eapply evals_bind; [apply evals_emit|].
      eapply evals_bind; [exact Hev3|].
      eapply evals_bind; [apply evals_emit|]. exact Hev4. }
    apply quiet_select in Hq1.
    destruct (quiet_counts _ Hq1) as (A1 & A2 & A3).
    destruct (quiet_counts _ Hq2) as (B1 & B2 & B3).
    pose proof (iterates_pos _ _ _ _ _ Hrest) as Hn.
    rewrite !count_events_app, A1, A2, A3, B1, B2, B3, R1, R2, R3.
    repeat split; try (simpl; lia).
    rewrite Hidx4, Hidx2. simpl. lia.
Qed.

(** C4, amended. For an iterate frame whose executor yields [n] iterators
    (the first one taken by [after_pushed], which also sets the first
    result), the driver invokes [rerun] exactly [n - 1] times and
    [on_popping] exactly [n] times, and [on_popping] returns true exactly
    once, on the call where [it_next] yields no further iterator; enough
    fuel is [n] rounds.  Each invocation of [rerun] on a frame that holds
    an iterator increments [frame.idx] by one and sets the result variable
    to [it_value] of the iterator when that is a valid variant (it leaves
    the result variable alone otherwise). *)
Theorem C4_rerun_runs_count_minus_one :
  (forall (o : purc_exec_ops inst iter) ei rule i n fuel
          (st : stack_t) (c : ctxt_t) el,
      iterates o ei rule i n -> n <= fuel ->
      ctxt (frame st) = Some c -> pos (frame st) = Some el ->
      no_document el ->
      ops c = Some o -> exec_inst c = Some ei -> it c = Some i ->
      rule_in_force eval c = Some rule ->
      exists evs st',
        evals (run_frame eval fuel st) evs (Some st')
        /\ count_events is_rerun evs = n - 1
        /\ count_events is_on_popping evs = n
        /\ count_events is_popped evs = 1
        /\ idx (frame st') = idx (frame st) + (n - 1))
  /\ (forall (st : stack_t) (c : ctxt_t) o ei i,
        ctxt (frame st) = Some c -> ops c = Some o ->
        exec_inst c = Some ei -> it c = Some i ->
        exists st',
          out (rerun st) = Some (true, st')
          /\ idx (frame st') = idx (frame st) + 1
          /\ result_var (frame st')
             = match it_value o ei i with
               | Some value => Some value
               | None => result_var (frame st)
               end).
Proof.
  split.
  - intros o ei rule i n fuel st c el Hit Hfuel Hc Hp Hd Ho Hei Hi Hr.
    eapply run_frame_iterates; eassumption.
  - intros st c o ei i Hc Ho Hei Hi.
    destruct (rerun_spec st c o ei i Hc Ho Hei Hi)
      as (st' & [_ Hout] & Hidx & Hres & _).
    exists st'. auto.
Qed.

(** Whether the attribute walk can succeed and leave [onlyif] unset. *)
Lemma attr_found_onlyif (st : stack_t) (c : ctxt_t) (a : pcvdom_attr)
    st' c' :
  out (attr_found eval st c a) = Some (true, st', c') ->
  (key a = "onlyif" -> onlyif c' <> None)
  /\ (onlyif c <> None -> onlyif c' <> None).
Proof.
  unfold attr_found, attr_found_val, eval_attr.
  destruct (is_plain_operator (op a)); simpl; [|discriminate].
  destruct (eval a) as [v|]; simpl; [|discriminate].
  destruct (String.eqb (key a) "on") eqn:Eon; simpl.
  { unfold process_attr_on. apply String.eqb_eq in Eon.
    destruct (on c); simpl; [discriminate|].
    intros [= <- <-]. simpl. split; [rewrite Eon; discriminate|auto]. }
  destruct (String.eqb (key a) "by") eqn:Eby; simpl.
  { unfold process_attr_by. apply String.eqb_eq in Eby.
    destruct (rule_attr c); simpl; [discriminate|].
    intros [= <- <-]. simpl. split; [rewrite Eby; discriminate|auto]. }
  destruct (String.eqb (key a) "onlyif") eqn:Eonly; simpl; [|discriminate].
  unfold process_attr_onlyif.
  destruct (onlyif c); simpl; [discriminate|].
  intros [= <- <-]. simpl. split; discriminate.
Qed.

Lemma walk_attrs_onlyif (l : list pcvdom_attr) :
  forall (st : stack_t) (c : ctxt_t) st' c',
    out (pcintr_vdom_walk_attrs eval st c l) = Some (true, st', c') ->
    (onlyif c <> None \/ exists a, In a l /\ key a = "onlyif") ->
    onlyif c' <> None.
Proof.
  induction l as [|a l IH]; intros st c st' c' Hout Hhas.
  - simpl in Hout. injection Hout as <- <-.
    destruct Hhas as [H|(a & [] & _)]. exact H.
  - simpl in Hout. unfold bind in Hout.
    destruct (out (attr_found eval st c a)) as [[[b st1] c1]|] eqn:Hf;
      [|discriminate].
    destruct b; [|discriminate]. simpl in Hout.
    destruct (attr_found_onlyif st c a st1 c1 Hf) as [Hk Hkeep].
    apply (IH st1 c1 st' c' Hout).
    destruct Hhas as [H|(a' & [<-|Hin] & Hkey)].
    + left. auto.
    + left. auto.
    + right. exists a'. auto.
Qed.


End IterateProps.

Section IterateSamples.
Import Run Iterate.

Lemma iterates_10_20_30 :
  iterates range_ops
    [Vcm.VLongInt 10%Z; Vcm.VLongInt 20%Z; Vcm.VLongInt 30%Z] None 0 3.
Proof.
  eapply iterates_next; [reflexivity|].
  eapply iterates_next; [reflexivity|].
  eapply iterates_last. reflexivity.
Defined.

(** C4 as stated fails: for [<iterate on=[10,20,30]>] the executor yields
    three iterators, the verb runs to its end, and [rerun] is invoked twice,
    not three times. *)
Lemma C4_rerun_count_counterexample :
  let r := run_iterate eval_by_vcm range_get_executor false 3
             empty_stack iterate_10_20_30 in
  iterates range_ops
    [Vcm.VLongInt 10%Z; Vcm.VLongInt 20%Z; Vcm.VLongInt 30%Z] None 0 3
  /\ (exists st, out r = Some (Some st))
  /\ count_events is_rerun (log r) <> 3.
Proof.
  split; [exact iterates_10_20_30|].
  split; [eexists; vm_compute; reflexivity|].
  vm_compute. discriminate.
Qed.

Lemma C4_rerun_runs_count_minus_one_witness :
  exists evs st',
    evals (run_frame eval_by_vcm 3 stack_10_20_30) evs (Some st')
    /\ count_events is_rerun evs = 2
    /\ count_events is_on_popping evs = 3
    /\ count_events is_popped evs = 1
    /\ idx (frame st') = 2.
Proof.
  refine (proj1 (C4_rerun_runs_count_minus_one (list variant) nat eval_by_vcm)
            range_ops _ None 0 3 3 stack_10_20_30 ctxt_10_20_30
            iterate_10_20_30 iterates_10_20_30 _ _ _ _ _ _ _ _).
  - lia.
  - reflexivity.
  - reflexivity.
  - repeat constructor; discriminate.
  - reflexivity.
  - reflexivity.
  - reflexivity.
  - reflexivity.
Defined.



End IterateSamples.

Section HbdbusProps.
Import Run Hbdbus.

Variable env : environment.
Variables car hrm : stream_extended_data -> string -> M (Z * stream_extended_data).

(** A challenge code is only handed out together with the extended data as
    they were passed in. *)
Lemma get_challenge_code_ok ext payload code ext1 :
  out (get_challenge_code env ext payload) = Some (0%Z, Some code, ext1) ->
  ext1 = ext.
Proof.
  unfold get_challenge_code.
  destruct (purc_variant_make_from_json_string env payload) as [jo|];
    [|discriminate].
  destruct (purc_variant_is_object jo); cbn [negb]; [|discriminate].
  destruct (purc_variant_object_get_by_ckey jo "packetType") as [jt|];
    [|discriminate].
  destruct (purc_variant_get_string_const jt) as [pack_type|];
    [|discriminate].
  destruct (strcasecmp_eq pack_type "error"); [discriminate|].
  destruct (strcasecmp_eq pack_type "auth"); [|discriminate].
  cbv zeta.
  destruct (match purc_variant_object_get_by_ckey jo "challengeCode" with
            | Some v => purc_variant_get_string_const v
            | None => None
            end) as [ch|]; [|discriminate].
  destruct (match purc_variant_object_get_by_ckey jo "protocolName" with
            | Some v => purc_variant_get_string_const v
            | None => Some HBDBUS_NOT_AVAILABLE
            end) as [prot_name|]; [|discriminate].
  destruct (negb (strcasecmp_eq prot_name HBDBUS_PROTOCOL_NAME) || _);
    [discriminate|].
  destruct (strdup_ok env); [|discriminate].
  intros [= _ <-]. reflexivity.
Qed.

(** [send_auth_info] on a challenge code returns, and it reports a failure
    exactly by [-1] with the error symbol set. *)
Lemma send_auth_info_cases ext code :
  exists rc ext2,
    out (send_auth_info env ext (Some code)) = Some (rc, ext2)
    /\ state ext2 = state ext
    /\ ((rc = 0%Z /\ ext2 = ext)
        \/ (rc = (-1)%Z /\ errsym ext2 <> None)).
Proof.
  unfold send_auth_info.
  destruct (pcutils_sign_data env (app_name ext) code) as [sig|].
  2:{ exists (-1)%Z, (set_error ext ERR_SYM_UNEXPECTED).
      split; [reflexivity|]. split; [reflexivity|].
      right. split; [reflexivity|discriminate]. }
  destruct (malloc_ok env); cbn [negb]; cbv iota.
  2:{ exists (-1)%Z, (set_error ext ERR_SYM_OUTOFMEMORY).
      split; [reflexivity|]. split; [reflexivity|].
      right. split; [reflexivity|discriminate]. }
  cbv zeta.
  generalize (auth_packet ext (pcutils_b64_encode env sig)). intros buff.
  destruct (Z.of_nat (String.length buff) <? 0)%Z.
  { exists (-1)%Z, (set_error ext ERR_SYM_UNEXPECTED).
    split; [reflexivity|]. split; [reflexivity|].
    right. split; [reflexivity|discriminate]. }
  destruct (HBDBUS_DEF_PACKET_BUFF_SIZE <=? Z.of_nat (String.length buff))%Z.
  { exists (-1)%Z, (set_error ext ERR_SYM_TOOSMALLBUFFER).
    split; [reflexivity|]. split; [reflexivity|].
    right. split; [reflexivity|discriminate]. }
  destruct (send_text env buff =? 0)%Z; cbn [negb]; cbv iota.
  - exists 0%Z, ext. split; [reflexivity|]. split; [reflexivity|].
    left. split; reflexivity.
  - exists (-1)%Z, (set_error ext ERR_SYM_FAILEDWRITE).
    split; [reflexivity|]. split; [reflexivity|].
    right. split; [reflexivity|discriminate].
Qed.

(** C8, amended. When a message is handled in state expect-challenge and
    the challenge code is extracted, [send_auth_info] returns; if it fails,
    [on_message] returns -1 with the error symbol set and the state becomes
    uncertain (not unchanged); and the state expect-auth-result is reached
    only if the send succeeded.  (Whether a successful send is followed by
    the transition is decided by a local that the code never assigns, and is
    not part of this statement.) *)
Theorem C8_challenge_step (ext : stream_extended_data) (payload : string)
    (len : Z) (code : string) (ext1 : stream_extended_data) :
  state ext = BS_EXPECT_CHALLENGE ->
  len <> 0%Z ->
  out (get_challenge_code env (clr_error ext) payload)
    = Some (0%Z, Some code, ext1) ->
  exists rc ext2 rc' ext',
    out (send_auth_info env ext1 (Some code)) = Some (rc, ext2)
    /\ out (on_message env car hrm ext (Some payload) len MT_TEXT)
       = Some (rc', ext')
    /\ (rc <> 0%Z ->
        rc' = (-1)%Z /\ state ext' = BS_UNCERTAIN /\ errsym ext' <> None)
    /\ (state ext' = BS_EXPECT_AUTH_RESULT -> rc = 0%Z).
Proof.
  intros Hst Hlen Hget.
  pose proof (get_challenge_code_ok _ _ _ _ Hget) as ->.
  destruct (send_auth_info_cases (clr_error ext) code)
    as (rc & ext2 & Hsend & Hst2 & Hcase).
  assert (Hlen0 : (len =? 0)%Z = false) by (apply Z.eqb_neq; exact Hlen).
  assert (Hrun :
    out (on_message env car hrm ext (Some payload) len MT_TEXT)
    = Some (on_message_done
              (if (uninitialised_int env =? 0)%Z
               then set_state ext2 BS_EXPECT_AUTH_RESULT else ext2))).
  { unfold on_message. rewrite Hlen0.
    replace (state (clr_error ext)) with BS_EXPECT_CHALLENGE
      by (symmetry; exact Hst).
    rewrite (out_bind _ _ _ Hget). cbv beta iota. simpl negb. cbv iota.
    rewrite (out_bind _ _ _ Hsend). reflexivity. }
  destruct Hcase as [[-> ->]|[-> Herr]].
  - do 4 eexists. split; [exact Hsend|]. split.
    + rewrite Hrun. apply f_equal. apply surjective_pairing.
    + split; [intros H; contradiction|reflexivity].
  - assert (Hdone :
      on_message_done
        (if (uninitialised_int env =? 0)%Z
         then set_state ext2 BS_EXPECT_AUTH_RESULT else ext2)
      = ((-1)%Z,
         set_state
           (if (uninitialised_int env =? 0)%Z
            then set_state ext2 BS_EXPECT_AUTH_RESULT else ext2)
           BS_UNCERTAIN)).
    { unfold on_message_done.
      destruct (uninitialised_int env =? 0)%Z; simpl;
        destruct (errsym ext2); [reflexivity|contradiction
                                |reflexivity|contradiction]. }
    do 4 eexists. split; [exact Hsend|]. split.
    + rewrite Hrun, Hdone. reflexivity.
    + split.
      * intros _. split; [reflexivity|]. split; [reflexivity|].
        destruct (uninitialised_int env =? 0)%Z; simpl; exact Herr.
      * simpl. discriminate.
Qed.

End HbdbusProps.

Section HbdbusSamples.
Import Run Hbdbus.

(** C8 as stated fails: in state expect-challenge, with the challenge code
    extracted and the send of the auth-info packet failing
    ([send_auth_info] returns -1), the state does not stay
    expect-challenge: it becomes uncertain. *)
Lemma C8_send_failure_counterexample :
  let r := on_message env_send_fails no_handler no_handler
             ext_expect_challenge (Some "challenge") 9%Z MT_TEXT in
  state ext_expect_challenge = BS_EXPECT_CHALLENGE
  /\ out (get_challenge_code env_send_fails (clr_error ext_expect_challenge)
                             "challenge")
     = Some (0%Z, Some "c0de", clr_error ext_expect_challenge)
  /\ fst <$> out (send_auth_info env_send_fails
                    (clr_error ext_expect_challenge) (Some "c0de"))
     = Some (-1)%Z
  /\ (state ∘ snd) <$> out r = Some BS_UNCERTAIN
  /\ (state ∘ snd) <$> out r <> Some BS_EXPECT_CHALLENGE.
Proof. vm_compute. repeat split. discriminate. Qed.

(** After a successful send the step taken depends on the value the
    unassigned local happens to hold. *)
Example successful_send_follows_the_unassigned_local :
  (state ∘ snd) <$> out (on_message (env_send_ok 0%Z) no_handler no_handler
                           ext_expect_challenge (Some "challenge") 9%Z MT_TEXT)
  = Some BS_EXPECT_AUTH_RESULT
  /\ (state ∘ snd) <$> out (on_message (env_send_ok 1%Z) no_handler
                              no_handler ext_expect_challenge
                              (Some "challenge") 9%Z MT_TEXT)
     = Some BS_EXPECT_CHALLENGE.
Proof. split; vm_compute; reflexivity. Qed.

Lemma C8_challenge_step_witness :
  exists rc ext2 rc' ext',
    out (send_auth_info env_send_fails (clr_error ext_expect_challenge)
                        (Some "c0de")) = Some (rc, ext2)
    /\ out (on_message env_send_fails no_handler no_handler
                       ext_expect_challenge (Some "challenge") 9%Z MT_TEXT)
       = Some (rc', ext')
    /\ (rc <> 0%Z ->
        rc' = (-1)%Z /\ state ext' = BS_UNCERTAIN /\ errsym ext' <> None)
    /\ (state ext' = BS_EXPECT_AUTH_RESULT -> rc = 0%Z).
Proof.
  refine (C8_challenge_step env_send_fails no_handler no_handler
            ext_expect_challenge "challenge" 9%Z "c0de"
            (clr_error ext_expect_challenge) _ _ _).
  - reflexivity.
  - discriminate.
  - reflexivity.
Defined.

End HbdbusSamples.

Section ArchetypeProps.
Import Run Archetype.

Variable env : environment.

(** C2, amended. For an archetype whose fetch has completed and was not
    stopped by the user: when the fetch failed (no response stream, or a
    status other than 200 such as 404) the continuation returns with the
    no-data error set, creates no binding, drops the stream and sets the
    next step to on-popping; when the status is 200 and a response stream is
    there, the continuation parses the body and then stops at its "not
    implemented yet" assertion, so that no binding is created either. *)
Theorem C2_continuation_binds_nothing (co : coroutine) :
  ret_code (ctxt co) <> RESP_CODE_USER_STOP env ->
  ((resp (ctxt co) = None \/ ret_code (ctxt co) <> 200%Z) ->
     exists co',
       out (on_sync_continuation env co) = Some co'
       /\ last_error co' = PURC_ERROR_NO_DATA
       /\ bindings (on_sync_continuation env co) = []
       /\ resp (ctxt co') = None
       /\ next_step co' = NEXT_STEP_ON_POPPING)
  /\ ((resp (ctxt co) <> None /\ ret_code (ctxt co) = 200%Z) ->
        out (on_sync_continuation env co) = None
        /\ bindings (on_sync_continuation env co) = []).
Proof.
  intros Hstop. apply Z.eqb_neq in Hstop.
  unfold on_sync_continuation, bindings. rewrite Hstop. split.
  - intros [Hnone|Hcode].
    + rewrite Hnone. eexists. split; [reflexivity|]. repeat split.
    + apply Z.eqb_neq in Hcode. rewrite Hcode.
      destruct (resp (ctxt co)); simpl;
        (eexists; split; [reflexivity|]; repeat split).
  - intros [Hsome Hcode]. rewrite Hcode.
    destruct (resp (ctxt co)) as [body|]; [|contradiction].
    simpl. split; reflexivity.
Qed.

End ArchetypeProps.

Section ArchetypeSamples.
Import Run Archetype.

(** C2 as stated fails: for [<archetype name="T" src="file://a.json">]
    under [<head>] whose fetch completed with status 200 and a JSON body,
    the continuation does not return and no binding for "T" (nor any other)
    is created. *)
Lemma C2_status_200_counterexample :
  let r := on_sync_continuation env_ok (archetype_T 200%Z (Some "1")) in
  out r = None
  /\ bindings r = []
  /\ ~ In (EvBindDocumentVariable (Some "T") (Vcm.VNumber 1%Z)) (bindings r).
Proof. vm_compute. repeat split. intros []. Qed.

Lemma C2_continuation_binds_nothing_witness :
  (exists co',
      out (on_sync_continuation env_ok (archetype_T 404%Z (Some "not found"))) = Some co'
      /\ last_error co' = PURC_ERROR_NO_DATA
      /\ bindings (on_sync_continuation env_ok (archetype_T 404%Z (Some "not found"))) = []
      /\ resp (ctxt co') = None
      /\ next_step co' = NEXT_STEP_ON_POPPING)
  /\ out (on_sync_continuation env_ok (archetype_T 200%Z (Some "1"))) = None.
Proof.
  split.
  - refine (proj1 (C2_continuation_binds_nothing env_ok
                     (archetype_T 404%Z (Some "not found")) _) _).
    + discriminate.
    + right. discriminate.
  - refine (proj1 (proj2 (C2_continuation_binds_nothing env_ok
                            (archetype_T 200%Z (Some "1")) _) _)).
    + discriminate.
    + split; [discriminate|reflexivity].
Defined.

End ArchetypeSamples.

Section RdrProps.
Import Run Rdr.

Lemma one_write_ge_4 : 4 <= DEF_LEN_ONE_WRITE.
Proof. unfold DEF_LEN_ONE_WRITE. lia. Qed.

(** A recognised character has one to four bytes, all of them present. *)
Lemma utf8_char_len_bounds (s : list byte) (k : nat) :
  utf8_char_len s = Some k -> 1 <= k <= 4 /\ k <= length s.
Proof.
  unfold utf8_char_len.
  destruct s as [|b0 [|b1 [|b2 [|b3 rest]]]]; simpl length;
    repeat match goal with
           | |- context [if ?c then _ else _] => destruct c
           end;
    intros H; try discriminate H; injection H as <-; lia.
Qed.

(** Recognition looks at the bytes of the character only. *)
Lemma utf8_char_len_prefix (s t : list byte) (k : nat) :
  utf8_char_len s = Some k -> utf8_char_len (take k s ++ t) = Some k.
Proof.
  destruct s as [|b0 s1]; [discriminate|]. cbn [utf8_char_len].
  destruct (b0 =? 0)%N eqn:E0; [discriminate|].
  destruct (b0 <? 128)%N eqn:E1.
  { intros [= <-]. cbn. rewrite E0, E1. reflexivity. }
  destruct ((194 <=? b0) && (b0 <=? 223))%N eqn:E2.
  { destruct s1 as [|b1 s2]; [discriminate|].
    destruct (is_continuation b1) eqn:C1; [|discriminate].
    intros [= <-]. cbn. rewrite E0, E1, E2, C1. reflexivity. }
  destruct ((224 <=? b0) && (b0 <=? 239))%N eqn:E3.
  { destruct s1 as [|b1 [|b2 s3]]; try discriminate.
    match goal with
    | |- (if ?c then _ else _) = _ -> _ => destruct c eqn:C
    end; [|discriminate].
    intros [= <-]. cbn. rewrite E0, E1, E2, E3, C. reflexivity. }
  destruct ((240 <=? b0) && (b0 <=? 244))%N eqn:E4; [|discriminate].
  destruct s1 as [|b1 [|b2 [|b3 s4]]]; try discriminate.
  match goal with
  | |- (if ?c then _ else _) = _ -> _ => destruct c eqn:C
  end; [|discriminate].
  intros [= <-]. cbn. rewrite E0, E1, E2, E3, E4, C. reflexivity.
Qed.

Lemma utf8_wf_not_nil_char (s : list byte) :
  utf8_wf s -> s = [] \/ exists k, utf8_char_len s = Some k
                                   /\ utf8_wf (drop k s).
Proof. intros [|s' k Hk Hrest]; [left; reflexivity|right; eauto]. Qed.

(** The scan of a well-formed string stops on a character boundary, within
    the bound, and only where the next character would not fit (or at the
    end of the string). *)
Lemma utf8_scan_spec (fuel : nat) :
  forall (s : list byte) (m : nat),
    utf8_wf s -> m <= fuel ->
    utf8_scan fuel s m <= m
    /\ utf8_scan fuel s m <= length s
    /\ utf8_wf (take (utf8_scan fuel s m) s)
    /\ utf8_wf (drop (utf8_scan fuel s m) s)
    /\ (utf8_scan fuel s m = length s \/ m < utf8_scan fuel s m + 4).
Proof.
  induction fuel as [|fuel IH]; intros s m Hwf Hm.
  - cbn [utf8_scan]. rewrite take_0, drop_0.
    split; [lia|]. split; [lia|]. split; [apply utf8_wf_nil|].
    split; [exact Hwf|]. right; lia.
  - cbn [utf8_scan].
    destruct (utf8_wf_not_nil_char s Hwf) as [->|(k & Hk & Hrest)].
    + cbn. split; [lia|]. split; [lia|]. split; [apply utf8_wf_nil|].
      split; [apply utf8_wf_nil|]. left. reflexivity.
    + rewrite Hk.
      destruct (utf8_char_len_bounds s k Hk) as [Hk14 Hklen].
      destruct (Nat.leb_spec k m) as [Hfit|Hnofit].
      * destruct (IH (drop k s) (m - k) Hrest) as (A & B & C & D & E);
          [lia|].
        remember (utf8_scan fuel (drop k s) (m - k)) as e' eqn:He'.
        rewrite length_drop in B.
        split; [lia|]. split; [lia|]. split; [|split].
        -- rewrite <- take_take_drop.
           apply utf8_wf_char with (k := k).
           ++ apply utf8_char_len_prefix. exact Hk.
           ++ rewrite drop_app_length'; [exact C|].
              rewrite length_take. lia.
        -- rewrite <- drop_drop. exact D.
        -- rewrite length_drop in E. lia.
      * rewrite take_0, drop_0.
        split; [lia|]. split; [lia|]. split; [apply utf8_wf_nil|].
        split; [exact Hwf|]. right; lia.
Qed.

(** The scan stops only where the next character does not fit. *)
Lemma utf8_scan_maximal (fuel : nat) :
  forall (s : list byte) (m k : nat),
    m <= fuel ->
    utf8_char_len (drop (utf8_scan fuel s m) s) = Some k ->
    m < utf8_scan fuel s m + k.
Proof.
  induction fuel as [|fuel IH]; intros s m k Hm.
  - cbn [utf8_scan]. rewrite drop_0. intros Hk.
    destruct (utf8_char_len_bounds s k Hk). lia.
  - cbn [utf8_scan].
    destruct (utf8_char_len s) as [k0|] eqn:Hk0.
    + destruct (utf8_char_len_bounds s k0 Hk0) as [Hk14 _].
      destruct (Nat.leb_spec k0 m) as [Hfit|Hnofit].
      * rewrite <- drop_drop. intros Hk.
        pose proof (IH (drop k0 s) (m - k0) k ltac:(lia) Hk). lia.
      * rewrite drop_0, Hk0. intros [= <-]. lia.
    + rewrite drop_0, Hk0. discriminate.
Qed.

Section Accepting.

Variable respond : request -> option pcrdr_msg.
Hypothesis respond_ok : forall req, response_ok (respond req) = true.

Lemma respond_some (req : request) : exists m, respond req = Some m.
Proof.
  specialize (respond_ok req). destruct (respond req) as [m|].
  - exists m. reflexivity.
  - discriminate.
Qed.

Lemma send_evals (op : string) (d : list byte) (len : nat) :
  evals (pcintr_rdr_send_request_and_wait_response respond op d len)
        [{| operation := op; data := d; data_len := len |}]
        (respond {| operation := op; data := d; data_len := len |}).
Proof. split; reflexivity. Qed.

Lemma payload_chunk (op : string) (d : list byte) (len : nat) :
  0 < len ->
  payload {| operation := op; data := d; data_len := len |} = take len d.
Proof.
  intros H. unfold payload. cbn [data_len data].
  destruct (Nat.eqb_spec len 0); [lia|reflexivity].
Qed.

Lemma payload_rest (op : string) (d : list byte) :
  payload {| operation := op; data := d; data_len := 0 |} = d.
Proof. reflexivity. Qed.

(** One look of the scanner at a point where a whole write still fits. *)
Lemma scan_chunk (s : list byte) :
  utf8_wf s -> DEF_LEN_ONE_WRITE <= length s ->
  let e := pcutils_string_check_utf8_len s DEF_LEN_ONE_WRITE in
  0 < e /\ e <= DEF_LEN_ONE_WRITE /\ e <= length s
  /\ utf8_wf (take e s) /\ utf8_wf (drop e s).
Proof.
  intros Hwf Hlen e. unfold pcutils_string_check_utf8_len in e.
  destruct (utf8_scan_spec DEF_LEN_ONE_WRITE s DEF_LEN_ONE_WRITE Hwf)
    as (A & B & C & D & E); [lia|].
  fold e in A, B, C, D, E. pose proof one_write_ge_4.
  repeat split; try assumption; lia.
Qed.

(** The [writting:] loop sends writeMore chunks and at most one final
    writeEnd, which together carry the rest of the document. *)
Lemma writting_spec (fuel : nat) :
  forall (doc : list byte) (lw : nat),
    utf8_wf (drop lw doc) -> lw < length doc -> length doc - lw <= fuel ->
    exists mores last r,
      evals (writting respond fuel doc (length doc) lw)
            (mores ++ last) (Some (Some r))
      /\ Forall (fun m => operation m = PCRDR_OPERATION_WRITEMORE
                          /\ chunk_ok m) mores
      /\ (last = []
          \/ exists e, last = [e]
                       /\ operation e = PCRDR_OPERATION_WRITEEND
                       /\ chunk_ok e /\ payload e <> [])
      /\ concat (map payload (mores ++ last)) = drop lw doc.
Proof.
  induction fuel as [|fuel IH]; intros doc lw Hwf Hlw Hfuel; [lia|].
  cbn [writting].
  destruct (Nat.ltb_spec (length doc) (lw + DEF_LEN_ONE_WRITE)) as [Hend|Hmore].
  - (* writeEnd *)
    set (req := {| operation := PCRDR_OPERATION_WRITEEND;
                   data := drop lw doc; data_len := 0 |}).
    destruct (respond_some req) as (m & Hm).
    exists [], [req], m. split; [|split; [|split]].
    + change ([] ++ [req]) with ([req] ++ @nil request).
      eapply evals_bind; [apply send_evals|]. cbv beta. fold req.
      rewrite respond_ok, Hm. apply evals_ret.
    + constructor.
    + right. exists req. split; [reflexivity|]. split; [reflexivity|].
      unfold chunk_ok, req. rewrite payload_rest, length_drop.
      split; [split; [lia|exact Hwf]|].
      intros Hnil. apply (f_equal length) in Hnil.
      rewrite length_drop in Hnil. simpl in Hnil. lia.
    + cbn [app map concat]. unfold req. rewrite payload_rest.
      apply app_nil_r.
  - (* writeMore *)
    destruct (scan_chunk (drop lw doc) Hwf) as (He0 & HeW & Hel & Hwt & Hwd).
    { rewrite length_drop. lia. }
    cbv zeta in He0, HeW, Hel, Hwt, Hwd.
    remember (pcutils_string_check_utf8_len (drop lw doc) DEF_LEN_ONE_WRITE)
      as e eqn:Hedef.
    rewrite length_drop in Hel.
    cbv zeta.
    replace (0 <? e) with true by (symmetry; apply Nat.ltb_lt; exact He0).
    set (req := {| operation := PCRDR_OPERATION_WRITEMORE;
                   data := drop lw doc; data_len := e |}).
    destruct (respond_some req) as (m & Hm).
    assert (Hreq : operation req = PCRDR_OPERATION_WRITEMORE /\ chunk_ok req).
    { split; [reflexivity|]. unfold chunk_ok, req.
      rewrite payload_chunk by exact He0. rewrite length_take.
      split; [lia|exact Hwt]. }
    destruct (Nat.eqb_spec (lw + e) (length doc)) as [Hdone|Hnot].
    + exists [req], [], m. split; [|split; [|split]].
      * eapply evals_bind; [apply send_evals|]. cbv beta. fold req.
        rewrite respond_ok, Hm. apply evals_ret.
      * constructor; [exact Hreq|constructor].
      * left. reflexivity.
      * cbn [app map concat]. unfold req.
        rewrite payload_chunk by exact He0. rewrite app_nil_r.
        apply take_ge. rewrite length_drop. lia.
    + destruct (IH doc (lw + e)) as (mores & last & r & Hev & Hall & Hlast & Hcat).
      { rewrite <- drop_drop. exact Hwd. }
      { lia. }
      { lia. }
      exists (req :: mores), last, r. split; [|split; [|split]].
      * change ((req :: mores) ++ last) with ([req] ++ (mores ++ last)).
        eapply evals_bind; [apply send_evals|]. cbv beta. fold req.
        rewrite respond_ok. exact Hev.
      * constructor; [exact Hreq|exact Hall].
      * exact Hlast.
      * change ((req :: mores) ++ last) with (req :: (mores ++ last)).
        cbn [map concat]. rewrite Hcat. unfold req.
        rewrite payload_chunk by exact He0.
        rewrite <- drop_drop. apply take_drop.
Qed.

(** A chunk cut by the scanner at offset [lw] is a full chunk. *)
Lemma scanned_chunk_full (op : string) (doc : list byte) (lw : nat) :
  utf8_wf (drop lw doc) -> DEF_LEN_ONE_WRITE <= length doc - lw ->
  full_chunk doc lw
    {| operation := op; data := drop lw doc;
       data_len := pcutils_string_check_utf8_len (drop lw doc)
                     DEF_LEN_ONE_WRITE |}.
Proof.
  intros Hwf Hlen.
  destruct (scan_chunk (drop lw doc) Hwf) as (He0 & HeW & Hel & _ & _).
  { rewrite length_drop. exact Hlen. }
  cbv zeta in He0, HeW, Hel.
  pose proof (utf8_scan_maximal DEF_LEN_ONE_WRITE (drop lw doc)
                DEF_LEN_ONE_WRITE) as Hmax.
  fold (pcutils_string_check_utf8_len (drop lw doc) DEF_LEN_ONE_WRITE)
    in Hmax.
  remember (pcutils_string_check_utf8_len (drop lw doc) DEF_LEN_ONE_WRITE)
    as e eqn:Hedef.
  unfold full_chunk. rewrite payload_chunk by exact He0.
  rewrite length_take. replace (e `min` length (drop lw doc)) with e by lia.
  split; [reflexivity|]. split; [exact He0|].
  intros k Hk. apply Hmax; [lia|]. rewrite drop_drop. exact Hk.
Qed.

Lemma log_send_bind {A} (op : string) (d : list byte) (len : nat)
    (k : option pcrdr_msg -> M A) :
  log (bind (pcintr_rdr_send_request_and_wait_response respond op d len) k)
  = {| operation := op; data := d; data_len := len |}
    :: log (k (respond {| operation := op; data := d; data_len := len |})).
Proof. reflexivity. Qed.

(** The [writting:] loop sends a writeMore as long as a whole write is
    left and puts what remains after that into the writeEnd. *)
Lemma writting_streams (fuel : nat) :
  forall (doc : list byte) (lw : nat),
    utf8_wf (drop lw doc) -> lw < length doc -> length doc - lw <= fuel ->
    streamed_from doc lw (log (writting respond fuel doc (length doc) lw)).
Proof.
  induction fuel as [|fuel IH]; intros doc lw Hwf Hlw Hfuel; [lia|].
  cbn [writting].
  destruct (Nat.ltb_spec (length doc) (lw + DEF_LEN_ONE_WRITE)) as [Hend|Hmore].
  - (* writeEnd *)
    set (req := {| operation := PCRDR_OPERATION_WRITEEND;
                   data := drop lw doc; data_len := 0 |}).
    rewrite log_send_bind. fold req. rewrite respond_ok. cbn [log ret].
    cbn [streamed_from]. right.
    split; [reflexivity|]. split; [lia|]. split; reflexivity.
  - (* writeMore *)
    destruct (scan_chunk (drop lw doc) Hwf) as (He0 & HeW & Hel & Hwt & Hwd).
    { rewrite length_drop. lia. }
    cbv zeta in He0, HeW, Hel, Hwt, Hwd.
    pose proof (scanned_chunk_full PCRDR_OPERATION_WRITEMORE doc lw Hwf
                  ltac:(lia)) as Hfull.
    remember (pcutils_string_check_utf8_len (drop lw doc) DEF_LEN_ONE_WRITE)
      as e eqn:Hedef.
    rewrite length_drop in Hel.
    cbv zeta.
    replace (0 <? e) with true by (symmetry; apply Nat.ltb_lt; exact He0).
    set (req := {| operation := PCRDR_OPERATION_WRITEMORE;
                   data := drop lw doc; data_len := e |}) in *.
    assert (Hpl : length (payload req) = e).
    { unfold req. rewrite payload_chunk by exact He0.
      rewrite length_take, length_drop. lia. }
    rewrite log_send_bind. fold req. rewrite respond_ok.
    destruct (Nat.eqb_spec (lw + e) (length doc)) as [Hdone|Hnot].
    + cbn [log ret streamed_from]. left.
      split; [reflexivity|]. split; [lia|]. split; [exact Hfull|].
      rewrite Hpl. exact Hdone.
    + cbn [app streamed_from]. left.
      split; [reflexivity|]. split; [lia|]. split; [exact Hfull|].
      rewrite Hpl. apply IH; [|lia|lia].
      rewrite <- drop_drop. exact Hwd.
Qed.

(** C3, amended. For every serialized document of whole UTF-8 characters
    that is longer than 10 240 bytes, sent over a connection that is not a
    move buffer to a renderer that accepts every request, the load ends with
    the renderer's response after one writeBegin, then a writeMore for as
    long as at least 10 240 bytes remain to be sent, and then, if anything
    remains, one writeEnd that carries all that remains (fewer than 10 240
    bytes, at least one) -- so no writeEnd is sent when the chunks of the
    earlier requests end exactly at the end of the document.  The
    writeBegin and every writeMore carry a full chunk: the bytes from
    where the request before ended up to the last character that still
    fits into 10 240 bytes.  The payloads of the requests in order
    concatenate to the document, every chunk (the writeEnd chunk too) is
    at most 10 240 bytes long, and every chunk is made of whole
    characters, so that no chunk boundary splits a code point. *)
Theorem C3_streaming_chunks (doc : list byte) :
  utf8_wf doc ->
  DEF_LEN_ONE_WRITE < length doc ->
  exists reqs r,
    evals (pcintr_rdr_page_control_load respond doc (length doc))
          reqs (Some (Some r))
    /\ begin_more_opt_end reqs
    /\ concat (map payload reqs) = doc
    /\ Forall chunk_ok reqs
    /\ streamed doc reqs.
Proof.
  intros Hwf Hlen. unfold pcintr_rdr_page_control_load.
  replace (DEF_LEN_ONE_WRITE <? length doc) with true
    by (symmetry; apply Nat.ltb_lt; exact Hlen).
  unfold rdr_page_control_load_large_page.
  destruct (scan_chunk doc Hwf) as (He0 & HeW & Hel & Hwt & Hwd); [lia|].
  cbv zeta in He0, HeW, Hel, Hwt, Hwd. cbv zeta.
  pose proof (scanned_chunk_full PCRDR_OPERATION_WRITEBEGIN doc 0 Hwf
                ltac:(lia)) as Hfull.
  rewrite drop_0 in Hfull.
  remember (pcutils_string_check_utf8_len doc DEF_LEN_ONE_WRITE)
    as e eqn:Hedef.
  replace (0 <? e) with true by (symmetry; apply Nat.ltb_lt; exact He0).
  set (req := {| operation := PCRDR_OPERATION_WRITEBEGIN;
                 data := doc; data_len := e |}) in *.
  assert (Hreq : chunk_ok req).
  { unfold chunk_ok, req. rewrite payload_chunk by exact He0.
    rewrite length_take. split; [lia|exact Hwt]. }
  assert (Hpl : length (payload req) = e).
  { unfold req. rewrite payload_chunk by exact He0.
    rewrite length_take. lia. }
  destruct (Nat.eqb_spec e (length doc)) as [Hdone|Hnot]; [lia|].
  destruct (writting_spec (length doc) doc e)
    as (mores & last & r & Hev & Hall & Hlast & Hcat);
    [exact Hwd|lia|lia|].
  pose proof (writting_streams (length doc) doc e Hwd ltac:(lia) ltac:(lia))
    as Hstr.
  rewrite (proj1 Hev) in Hstr.
  exists (req :: mores ++ last), r. split; [|split; [|split; [|split]]].
  - change (req :: mores ++ last) with ([req] ++ (mores ++ last)).
    eapply evals_bind; [apply send_evals|]. cbv beta. fold req.
    rewrite respond_ok. exact Hev.
  - exists req, mores, last. split; [reflexivity|]. split; [reflexivity|].
    split.
    + eapply Forall_impl; [exact Hall|]. intros q [Hq _]. exact Hq.
    + destruct Hlast as [->|(q & -> & Hq & _ & Hne)]; [left; reflexivity|].
      right. exists q. split; [reflexivity|]. split; [exact Hq|exact Hne].
  - cbn [map concat]. rewrite Hcat. unfold req.
    rewrite payload_chunk by exact He0. apply take_drop.
  - constructor; [exact Hreq|]. apply Forall_app. split.
    + eapply Forall_impl; [exact Hall|]. intros q [_ Hq]. exact Hq.
    + destruct Hlast as [->|(q & -> & _ & Hq & _)]; [constructor|].
      constructor; [exact Hq|constructor].
  - exists req, (mores ++ last). split; [reflexivity|].
    split; [reflexivity|]. split; [exact Hfull|].
    rewrite Hpl. exact Hstr.
Qed.

End Accepting.

End RdrProps.

Section RdrSamples.
Import Run Rdr.

Lemma utf8_wf_letters (n : nat) : utf8_wf (replicate n 97%N).
Proof.
  induction n as [|n IH]; [constructor|].
  apply utf8_wf_char with (k := 1); [reflexivity|exact IH].
Defined.

Lemma doc_20480_long : DEF_LEN_ONE_WRITE < length doc_20480.
Proof.
  unfold doc_20480. rewrite length_replicate.
  pose proof one_write_ge_4. lia.
Defined.

(** A character that straddles byte 10 240 is left for the next chunk. *)
Example streaming_keeps_characters_whole :
  map (fun r => (operation r, length (payload r)))
      (log (pcintr_rdr_page_control_load renderer_ok doc_straddle
              (length doc_straddle)))
  = [ (PCRDR_OPERATION_WRITEBEGIN, DEF_LEN_ONE_WRITE - 1);
      (PCRDR_OPERATION_WRITEEND, 4) ].
Proof. vm_compute. reflexivity. Qed.

(** With four bytes left after the writeBegin a writeMore is not what the
    code sends: the list that ends in one is no streamed load. *)
Example write_more_needs_a_whole_write :
  ~ streamed doc_straddle
      [ {| operation := PCRDR_OPERATION_WRITEBEGIN; data := doc_straddle;
           data_len := DEF_LEN_ONE_WRITE - 1 |};
        {| operation := PCRDR_OPERATION_WRITEMORE;
           data := drop (DEF_LEN_ONE_WRITE - 1) doc_straddle;
           data_len := 4 |} ].
Proof.
  intros (b & rest & Heq & _ & _ & Hs). injection Heq as <- <-.
  cbn [streamed_from] in Hs.
  destruct Hs as [(_ & Hlen & _)|(Hop & _)]; [|discriminate Hop].
  match type of Hlen with
  | _ <= ?n => assert (Hn : n = 4) by (vm_compute; reflexivity)
  end.
  rewrite Hn in Hlen. pose proof one_write_ge_4.
  unfold DEF_LEN_ONE_WRITE in Hlen. lia.
Qed.

(** C3 as stated fails: the document of 20 480 letters is longer than
    10 240 bytes and well-formed, and its load sends a writeBegin and a
    writeMore of 10 240 bytes each and then stops: there is no final
    writeEnd request. *)
Lemma C3_no_write_end_counterexample :
  let reqs := log (pcintr_rdr_page_control_load renderer_ok doc_20480
                     (length doc_20480)) in
  DEF_LEN_ONE_WRITE < length doc_20480
  /\ utf8_wf doc_20480
  /\ map operation reqs
     = [PCRDR_OPERATION_WRITEBEGIN; PCRDR_OPERATION_WRITEMORE]
  /\ ~ begin_more_end reqs.
Proof.
  cbv zeta.
  assert (Hops :
    map operation (log (pcintr_rdr_page_control_load renderer_ok doc_20480
                          (length doc_20480)))
    = [PCRDR_OPERATION_WRITEBEGIN; PCRDR_OPERATION_WRITEMORE]).
  { vm_compute. reflexivity. }
  split; [exact doc_20480_long|].
  split; [apply utf8_wf_letters|].
  split; [exact Hops|].
  intros (b & mores & e & Heq & Hb & Hm & He).
  rewrite Heq in Hops. cbn [map] in Hops. rewrite map_app in Hops.
  cbn [map] in Hops. rewrite He in Hops.
  destruct mores as [|m1 [|m2 ms]]; cbn in Hops; discriminate Hops.
Qed.

Lemma C3_streaming_chunks_witness :
  exists reqs r,
    evals (pcintr_rdr_page_control_load renderer_ok doc_20480
             (length doc_20480)) reqs (Some (Some r))
    /\ begin_more_opt_end reqs
    /\ concat (map payload reqs) = doc_20480
    /\ Forall chunk_ok reqs
    /\ streamed doc_20480 reqs.
Proof.
  exact (C3_streaming_chunks renderer_ok (fun _ => eq_refl) doc_20480
           (utf8_wf_letters _) doc_20480_long).
Defined.

End RdrSamples.

(* ===================================================================== *)
(** * Further properties of the embedded code                              *)
(* ===================================================================== *)

Section VariantArrayMutation.
Import Run VariantArray.

Variable realloc_ok : nat -> bool.

Lemma shrunk_ret (a : purc_variant) (v : purc_variant_t) : shrunk a v = ret tt.
Proof. destruct (notifiers_never_call a v v v) as (_ & H & _). exact H. Qed.

Lemma grown_ret (a : purc_variant) (v : purc_variant_t) : grown a v = ret tt.
Proof. destruct (notifiers_never_call a v v v) as (H & _ & _). exact H. Qed.

Lemma change_ret (a : purc_variant) (o n : purc_variant_t) :
  change a o n = ret tt.
Proof. destruct (notifiers_never_call a o o n) as (_ & _ & H). exact H. Qed.

(** The argument check shared by [purc_variant_array_set] and
    [purc_variant_array_insert_before]. *)
Lemma args_checked (a : purc_variant) (idx : Z) (v : purc_variant_t) :
  vtype a = PURC_VARIANT_TYPE_ARRAY -> (0 <= idx)%Z ->
  v <> PURC_VARIANT_INVALID -> v <> addr a ->
  is_array_type (vtype a) && (0 <=? idx)%Z && negb (N.eqb v 0)
  && negb (N.eqb (addr a) v) = true.
Proof.
  intros -> Hidx Hv Hne. simpl.
  replace (0 <=? idx)%Z with true by (symmetry; apply Z.leb_le; exact Hidx).
  replace (N.eqb v 0) with false by (symmetry; apply N.eqb_neq; exact Hv).
  replace (N.eqb (addr a) v) with false
    by (symmetry; apply N.eqb_neq; congruence).
  reflexivity.
Qed.

(** What a successful [purc_variant_array_insert_before] computes. *)
Lemma insert_before_run (a : purc_variant) (idx : Z) (v : purc_variant_t) :
  vtype a = PURC_VARIANT_TYPE_ARRAY -> (0 <= idx)%Z ->
  v <> PURC_VARIANT_INVALID -> v <> addr a ->
  realloc_ok (length (array (al a)) + 1) = true ->
  purc_variant_array_insert_before realloc_ok (Some a) idx v
  = Run [EvRef v]
        (Some (true,
               Some (set_al a
                       (take (Nat.min (Z.to_nat idx) (length (array (al a))))
                             (array (al a))
                        ++ v :: drop (Nat.min (Z.to_nat idx)
                                              (length (array (al a))))
                                     (array (al a)))))).
Proof.
  intros Hty Hidx Hv Hne Hmem. unfold purc_variant_array_insert_before.
  rewrite (args_checked a idx v Hty Hidx Hv Hne). cbv zeta.
  unfold pcutils_arrlist_shrink. rewrite Hmem. cbn [negb].
  rewrite shrunk_ret.
  replace (if (Z.of_nat (length (array (al a))) <=? idx)%Z
           then length (array (al a)) else Z.to_nat idx)
    with (Nat.min (Z.to_nat idx) (length (array (al a)))).
  - reflexivity.
  - destruct (Z.leb_spec (Z.of_nat (length (array (al a)))) idx); lia.
Qed.

(** X1. [purc_variant_array_insert_before] with valid arguments (and the
    slot array reallocated) returns true, takes exactly one reference on
    the value and none on anything else, and puts the value at
    [min idx size]: an index at or beyond the size appends.  The members
    before that position stay, the members from it on move one slot up. *)
Theorem X1_insert_before_shifts_up (a : purc_variant) (idx : Z)
    (v : purc_variant_t) :
  vtype a = PURC_VARIANT_TYPE_ARRAY -> (0 <= idx)%Z ->
  v <> PURC_VARIANT_INVALID -> v <> addr a ->
  realloc_ok (length (array (al a)) + 1) = true ->
  exists a',
    evals (purc_variant_array_insert_before realloc_ok (Some a) idx v)
          [EvRef v] (true, Some a')
    /\ length (array (al a')) = length (array (al a)) + 1
    /\ array (al a') !! Nat.min (Z.to_nat idx) (length (array (al a)))
       = Some v
    /\ (forall i, i < Nat.min (Z.to_nat idx) (length (array (al a))) ->
          array (al a') !! i = array (al a) !! i)
    /\ (forall i, Nat.min (Z.to_nat idx) (length (array (al a))) <= i ->
          array (al a') !! S i = array (al a) !! i).
Proof.
  intros Hty Hidx Hv Hne Hmem.
  rewrite (insert_before_run a idx v Hty Hidx Hv Hne Hmem).
  destruct a as [ad ty [l] ls]; cbn [array al] in *.
  remember (Nat.min (Z.to_nat idx) (length l)) as k eqn:Hk.
  assert (Hkl : k <= length l) by lia.
  eexists. split; [split; reflexivity|]. cbn [set_al array al].
  assert (Htk : length (take k l) = k) by (rewrite length_take; lia).
  split.
  { rewrite length_app. cbn [length]. rewrite Htk, length_drop. lia. }
  split.
  { rewrite lookup_app_r; [|lia]. rewrite Htk.
    replace (k - k) with 0 by lia. reflexivity. }
  split.
  { intros i Hi. rewrite lookup_app_l; [|lia].
    apply lookup_take_lt. exact Hi. }
  { intros i Hi. rewrite lookup_app_r; [|lia]. rewrite Htk.
    replace (S i - k) with (S (i - k)) by lia.
    change ((v :: drop k l) !! S (i - k)) with (drop k l !! (i - k)).
    rewrite lookup_drop. f_equal. lia. }
Qed.

Lemma get_in_range (a : purc_variant) (i : nat) (x : purc_variant_t) :
  vtype a = PURC_VARIANT_TYPE_ARRAY -> array (al a) !! i = Some x ->
  x <> PURC_VARIANT_INVALID ->
  purc_variant_array_get (Some a) (Z.of_nat i) = ret x.
Proof.
  intros Hty Hx Hx0. unfold purc_variant_array_get. rewrite Hty.
  pose proof (lookup_lt_Some _ _ _ Hx) as Hlt.
  replace (0 <=? Z.of_nat i)%Z with true by (symmetry; apply Z.leb_le; lia).
  cbn [is_array_type andb]. cbv zeta.
  replace (Z.of_nat i <? Z.of_nat (length (array (al a))))%Z with true
    by (symmetry; apply Z.ltb_lt; lia).
  rewrite Nat2Z.id, (nth_lookup_Some _ _ 0%N _ Hx).
  replace (N.eqb x 0) with false by (symmetry; apply N.eqb_neq; exact Hx0).
  reflexivity.
Qed.

Lemma get_out_of_range (a : purc_variant) (idx : Z) :
  (idx < 0 \/ Z.of_nat (length (array (al a))) <= idx)%Z ->
  purc_variant_array_get (Some a) idx
  = Run [EvCheckFail] (Some PURC_VARIANT_INVALID).
Proof.
  intros H. unfold purc_variant_array_get.
  destruct (is_array_type (vtype a)); [|reflexivity]. cbn [andb].
  destruct (Z.leb_spec 0 idx); [|reflexivity]. cbv zeta.
  destruct (Z.ltb_spec idx (Z.of_nat (length (array (al a)))));
    [lia|reflexivity].
Qed.

(** [purc_variant_array_get] looks at the type tag and the slots only. *)
Lemma get_same_slot (a a' : purc_variant) (idx idx' : Z) :
  vtype a' = vtype a -> (0 <= idx)%Z -> (0 <= idx')%Z ->
  array (al a') !! Z.to_nat idx' = array (al a) !! Z.to_nat idx ->
  purc_variant_array_get (Some a') idx' = purc_variant_array_get (Some a) idx.
Proof.
  intros Hty Hidx Hidx' Hslot. unfold purc_variant_array_get. rewrite Hty.
  destruct (is_array_type (vtype a)); [|reflexivity]. cbn [andb].
  replace (0 <=? idx)%Z with true by (symmetry; apply Z.leb_le; lia).
  replace (0 <=? idx')%Z with true by (symmetry; apply Z.leb_le; lia).
  cbv zeta. rewrite !nth_lookup, Hslot.
  destruct (array (al a) !! Z.to_nat idx) as [x|] eqn:Hx.
  - apply lookup_lt_Some in Hx. apply lookup_lt_Some in Hslot.
    replace (idx <? Z.of_nat (length (array (al a))))%Z with true
      by (symmetry; apply Z.ltb_lt; lia).
    replace (idx' <? Z.of_nat (length (array (al a'))))%Z with true
      by (symmetry; apply Z.ltb_lt; lia).
    reflexivity.
  - apply lookup_ge_None in Hx. apply lookup_ge_None in Hslot.
    replace (idx <? Z.of_nat (length (array (al a))))%Z with false
      by (symmetry; apply Z.ltb_ge; lia).
    replace (idx' <? Z.of_nat (length (array (al a'))))%Z with false
      by (symmetry; apply Z.ltb_ge; lia).
    reflexivity.
Qed.

(** X2. After a successful [purc_variant_array_append] the size has grown
    by one, [purc_variant_array_get] at the old size answers the appended
    value and every index below the old size reads as before; after a
    successful [purc_variant_array_prepend] index [0] answers the new value
    and index [i + 1] reads as index [i] did. *)
Theorem X2_append_and_prepend_positions (a : purc_variant)
    (v : purc_variant_t) :
  vtype a = PURC_VARIANT_TYPE_ARRAY ->
  v <> PURC_VARIANT_INVALID -> v <> addr a ->
  realloc_ok (length (array (al a)) + 1) = true ->
  (exists a',
     evals (purc_variant_array_append realloc_ok (Some a) v)
           [EvRef v] (true, Some a')
     /\ evals (purc_variant_array_size (Some a') (Some 0)) []
              (true, Some (length (array (al a)) + 1))
     /\ purc_variant_array_get (Some a')
          (Z.of_nat (length (array (al a)))) = ret v
     /\ (forall idx, (0 <= idx < Z.of_nat (length (array (al a))))%Z ->
           purc_variant_array_get (Some a') idx
           = purc_variant_array_get (Some a) idx))
  /\ (exists a',
        evals (purc_variant_array_prepend realloc_ok (Some a) v)
              [EvRef v] (true, Some a')
        /\ evals (purc_variant_array_size (Some a') (Some 0)) []
                 (true, Some (length (array (al a)) + 1))
        /\ purc_variant_array_get (Some a') 0%Z = ret v
        /\ (forall idx, (0 <= idx)%Z ->
              purc_variant_array_get (Some a') (idx + 1)%Z
              = purc_variant_array_get (Some a) idx)).
Proof.
  intros Hty Hv Hne Hmem.
  assert (Hv0 : N.eqb v 0 = false) by (apply N.eqb_neq; exact Hv).
  split.
  - unfold purc_variant_array_append. rewrite Hty, Hv0.
    cbn [is_array_type negb andb]. cbv zeta. unfold pcutils_arrlist_length.
    rewrite (insert_before_run a _ v Hty (Nat2Z.is_nonneg _) Hv Hne Hmem).
    rewrite Nat2Z.id, Nat.min_id, firstn_all, drop_all.
    eexists. split; [split; reflexivity|].
    split.
    { unfold purc_variant_array_size. cbn [set_al vtype]. rewrite Hty.
      cbn [is_array_type]. unfold pcutils_arrlist_length.
      cbn [set_al al array]. rewrite length_app. cbn [length].
      split; reflexivity. }
    split.
    { apply get_in_range; [exact Hty| |exact Hv].
      cbn [set_al al array]. rewrite lookup_app_r; [|lia].
      replace (length (array (al a)) - length (array (al a))) with 0 by lia.
      reflexivity. }
    intros idx Hidx. apply get_same_slot; [reflexivity|lia|lia|].
    cbn [set_al al array]. apply lookup_app_l. lia.
  - unfold purc_variant_array_prepend. rewrite Hty, Hv0.
    cbn [is_array_type negb andb].
    rewrite (insert_before_run a 0%Z v Hty (Z.le_refl 0) Hv Hne Hmem).
    cbn [Z.to_nat Nat.min take drop app].
    eexists. split; [split; reflexivity|].
    split.
    { unfold purc_variant_array_size. cbn [set_al vtype]. rewrite Hty.
      cbn [is_array_type]. unfold pcutils_arrlist_length.
      cbn [set_al al array length].
      replace (length (array (al a)) + 1) with (S (length (array (al a))))
        by lia.
      split; reflexivity. }
    split.
    { apply (get_in_range _ 0); [exact Hty|reflexivity|exact Hv]. }
    intros idx Hidx. apply get_same_slot; [reflexivity|exact Hidx|lia|].
    cbn [set_al al array].
    replace (Z.to_nat (idx + 1)) with (S (Z.to_nat idx)) by lia.
    reflexivity.
Qed.

(** X3. [purc_variant_array_remove] at an index at or beyond the size
    returns true and does nothing at all: no member is released and the
    array is as before.  Below the size it releases the member at the index
    exactly once, shortens the array by one and moves the members behind
    it one slot down. *)
Theorem X3_remove_in_and_out_of_range (a : purc_variant) (idx : Z) :
  vtype a = PURC_VARIANT_TYPE_ARRAY -> (0 <= idx)%Z ->
  ((Z.of_nat (length (array (al a))) <= idx)%Z ->
     purc_variant_array_remove (Some a) idx = ret (true, Some a))
  /\ ((idx < Z.of_nat (length (array (al a))))%Z ->
        exists x a',
          array (al a) !! Z.to_nat idx = Some x
          /\ evals (purc_variant_array_remove (Some a) idx)
                   [EvUnref x] (true, Some a')
          /\ length (array (al a')) = length (array (al a)) - 1
          /\ (forall i, i < Z.to_nat idx ->
                array (al a') !! i = array (al a) !! i)
          /\ (forall i, Z.to_nat idx <= i ->
                array (al a') !! i = array (al a) !! S i)).
Proof.
  intros Hty Hidx. unfold purc_variant_array_remove. rewrite Hty.
  replace (0 <=? idx)%Z with true by (symmetry; apply Z.leb_le; exact Hidx).
  cbn [is_array_type andb]. cbv zeta. split; intros Hr.
  - replace (Z.of_nat (length (array (al a))) <=? idx)%Z with true
      by (symmetry; apply Z.leb_le; exact Hr).
    reflexivity.
  - replace (Z.of_nat (length (array (al a))) <=? idx)%Z with false
      by (symmetry; apply Z.leb_gt; exact Hr).
    rewrite shrunk_ret.
    remember (Z.to_nat idx) as k eqn:Hk.
    assert (Hkl : k < length (array (al a))) by lia.
    destruct (lookup_lt_is_Some_2 _ _ Hkl) as [x Hx].
    exists x. eexists. split; [exact Hx|].
    rewrite (nth_lookup_Some _ _ 0%N _ Hx).
    split; [split; reflexivity|].
    cbn [set_al al array]. unfold pcutils_arrlist_del_idx.
    split; [rewrite length_delete; [lia|eauto]|].
    split.
    + intros i Hi. apply list_lookup_delete_lt. exact Hi.
    + intros i Hi. apply list_lookup_delete_ge. exact Hi.
Qed.

Lemma set_al_same (a : purc_variant) : set_al a (array (al a)) = a.
Proof. destruct a as [ad ty [l] ls]. reflexivity. Qed.

Lemma set_al_twice (a : purc_variant) (l1 l2 : list purc_variant_t) :
  set_al (set_al a l1) l2 = set_al a l2.
Proof. reflexivity. Qed.

(** X4. Removing at the position where [purc_variant_array_insert_before]
    placed a value gives back the array as it was, and the reference taken
    by the insertion is released by the removal.  The two functions treat
    an index beyond the size differently: the insertion clamps it to the
    size, the removal ignores it, so a removal at an index beyond the old
    size leaves the inserted value in place. *)
Theorem X4_insert_then_remove (a : purc_variant) (idx : Z)
    (v : purc_variant_t) :
  vtype a = PURC_VARIANT_TYPE_ARRAY -> (0 <= idx)%Z ->
  v <> PURC_VARIANT_INVALID -> v <> addr a ->
  realloc_ok (length (array (al a)) + 1) = true ->
  exists a',
    evals (purc_variant_array_insert_before realloc_ok (Some a) idx v)
          [EvRef v] (true, Some a')
    /\ evals (purc_variant_array_remove (Some a')
                (Z.of_nat (Nat.min (Z.to_nat idx) (length (array (al a))))))
             [EvUnref v] (true, Some a)
    /\ ((Z.of_nat (length (array (al a))) < idx)%Z ->
          purc_variant_array_remove (Some a') idx = ret (true, Some a')).
Proof.
  intros Hty Hidx Hv Hne Hmem.
  rewrite (insert_before_run a idx v Hty Hidx Hv Hne Hmem).
  remember (Nat.min (Z.to_nat idx) (length (array (al a)))) as k eqn:Hk.
  assert (Hkl : k <= length (array (al a))) by lia.
  assert (Htk : length (take k (array (al a))) = k)
    by (rewrite length_take; lia).
  eexists. split; [split; reflexivity|].
  assert (Hlen : length (take k (array (al a)) ++ v :: drop k (array (al a)))
                 = length (array (al a)) + 1).
  { rewrite length_app. cbn [length]. rewrite Htk, length_drop. lia. }
  split.
  - unfold purc_variant_array_remove. cbn [set_al vtype al array].
    rewrite Hty. cbn [is_array_type andb].
    replace (0 <=? Z.of_nat k)%Z with true by (symmetry; apply Z.leb_le; lia).
    cbv zeta. rewrite Hlen.
    replace (Z.of_nat (length (array (al a)) + 1) <=? Z.of_nat k)%Z
      with false by (symmetry; apply Z.leb_gt; lia).
    rewrite shrunk_ret, Nat2Z.id.
    assert (Hnth : nth k (take k (array (al a)) ++ v :: drop k (array (al a)))
                       0%N = v).
    { apply nth_lookup_Some. rewrite lookup_app_r; [|lia]. rewrite Htk.
      replace (k - k) with 0 by lia. reflexivity. }
    rewrite Hnth. unfold pcutils_arrlist_del_idx.
    assert (Hdel : delete k (take k (array (al a))
                             ++ v :: drop k (array (al a)))
                   = array (al a)).
    { rewrite <- Htk at 1. rewrite delete_middle. apply take_drop. }
    rewrite Hdel, set_al_twice, set_al_same. split; reflexivity.
  - intros Hbig. unfold purc_variant_array_remove. cbn [set_al vtype al array].
    rewrite Hty. cbn [is_array_type andb].
    replace (0 <=? idx)%Z with true by (symmetry; apply Z.leb_le; lia).
    cbv zeta. rewrite Hlen.
    replace (Z.of_nat (length (array (al a)) + 1) <=? idx)%Z
      with true by (symmetry; apply Z.leb_le; lia).
    reflexivity.
Qed.

(** X5. [purc_variant_array_set] at an index below the size keeps the size
    and every other member and stores the value at the index.  It always
    takes a reference on the value; it releases the member it replaces
    only when that is another variant than the value, so storing the
    variant a slot already holds adds a reference and releases none. *)
Theorem X5_set_below_size (a : purc_variant) (idx : Z) (v : purc_variant_t) :
  vtype a = PURC_VARIANT_TYPE_ARRAY ->
  (0 <= idx < Z.of_nat (length (array (al a))))%Z ->
  v <> PURC_VARIANT_INVALID -> v <> addr a ->
  exists old,
    array (al a) !! Z.to_nat idx = Some old
    /\ evals (purc_variant_array_set realloc_ok (Some a) idx v)
             (if N.eqb old v then [EvRef v] else [EvUnref old; EvRef v])
             (true, Some (set_al a (<[Z.to_nat idx := v]> (array (al a))))).
Proof.
  intros Hty Hidx Hv Hne. unfold purc_variant_array_set.
  rewrite (args_checked a idx v Hty (proj1 Hidx) Hv Hne). cbv zeta.
  replace (Z.of_nat (length (array (al a))) <=? idx)%Z with false
    by (symmetry; apply Z.leb_gt; lia).
  assert (Hkl : Z.to_nat idx < length (array (al a))) by lia.
  destruct (lookup_lt_is_Some_2 _ _ Hkl) as [old Hold].
  exists old. split; [exact Hold|].
  rewrite (nth_lookup_Some _ _ 0%N _ Hold).
  destruct (N.eqb_spec old v) as [->|Hdiff]; cbn [negb].
  - rewrite list_insert_id; [|exact Hold]. rewrite set_al_same.
    split; reflexivity.
  - rewrite change_ret. split; reflexivity.
Qed.

Lemma int_add_in_range (idx : Z) :
  (INT_MIN <= idx < INT_MAX)%Z -> int_add idx 1 = (idx + 1)%Z.
Proof.
  intros Hidx. unfold int_add, INT_MIN, INT_MAX in *.
  rewrite Z.mod_small by lia. lia.
Qed.

Ltac failed_call :=
  intros a'; cbn [out]; intros Hout;
  first [ discriminate Hout
        | injection Hout as <-; split; reflexivity ].

Lemma insert_before_untouched a0 idx v :
  leaves_untouched a0 (purc_variant_array_insert_before realloc_ok a0 idx v).
Proof.
  unfold purc_variant_array_insert_before.
  destruct a0 as [a|]; [|failed_call].
  destruct (is_array_type (vtype a) && (0 <=? idx)%Z && negb (N.eqb v 0)
            && negb (N.eqb (addr a) v)); [|failed_call].
  cbv zeta. destruct (negb (pcutils_arrlist_shrink _ _ _)); [failed_call|].
  rewrite shrunk_ret. failed_call.
Qed.

(** X6. A mutating call on an array that returns false has changed
    nothing: whether it failed its argument check (NULL array, another
    type, negative index, NULL value, the array itself as value) or the
    allocation, the array is handed back as it was given and no reference
    count has been touched.  [purc_variant_array_insert_after] is such a
    call at the index [INT_MAX], where [idx + 1] wraps around to a negative
    index: it fails its check and returns false; at every index from [0]
    below [INT_MAX] it is the insertion before [idx + 1]. *)
Theorem X6_failed_call_changes_nothing (a0 : option purc_variant) (idx : Z)
    (v : purc_variant_t) :
  leaves_untouched a0 (purc_variant_array_insert_before realloc_ok a0 idx v)
  /\ leaves_untouched a0
       (purc_variant_array_insert_after realloc_ok a0 idx v)
  /\ leaves_untouched a0 (purc_variant_array_append realloc_ok a0 v)
  /\ leaves_untouched a0 (purc_variant_array_prepend realloc_ok a0 v)
  /\ leaves_untouched a0 (purc_variant_array_set realloc_ok a0 idx v)
  /\ leaves_untouched a0 (purc_variant_array_remove a0 idx)
  /\ evals (purc_variant_array_insert_after realloc_ok a0 INT_MAX v)
           [EvCheckFail] (false, a0)
  /\ ((INT_MIN <= idx < INT_MAX)%Z ->
      purc_variant_array_insert_after realloc_ok a0 idx v
      = purc_variant_array_insert_before realloc_ok a0 (idx + 1)%Z v).
Proof.
  assert (Hwrap : evals (purc_variant_array_insert_after realloc_ok a0
                           INT_MAX v) [EvCheckFail] (false, a0)).
  { unfold purc_variant_array_insert_after,
      purc_variant_array_insert_before.
    change (int_add INT_MAX 1) with INT_MIN.
    destruct a0 as [a|]; [|split; reflexivity].
    change (0 <=? INT_MIN)%Z with false.
    rewrite andb_false_r. split; reflexivity. }
  assert (Hplain : (INT_MIN <= idx < INT_MAX)%Z ->
                   purc_variant_array_insert_after realloc_ok a0 idx v
                   = purc_variant_array_insert_before realloc_ok a0
                       (idx + 1)%Z v).
  { intros Hidx. unfold purc_variant_array_insert_after. f_equal.
    apply int_add_in_range. exact Hidx. }
  split; [apply insert_before_untouched|].
  split; [apply insert_before_untouched|].
  split.
  { unfold purc_variant_array_append. destruct a0 as [a|]; [|failed_call].
    destruct (is_array_type (vtype a) && negb (N.eqb v 0)); [|failed_call].
    apply insert_before_untouched. }
  split.
  { unfold purc_variant_array_prepend. destruct a0 as [a|]; [|failed_call].
    destruct (is_array_type (vtype a) && negb (N.eqb v 0)); [|failed_call].
    apply insert_before_untouched. }
  split.
  { unfold purc_variant_array_set. destruct a0 as [a|]; [|failed_call].
    destruct (is_array_type (vtype a) && (0 <=? idx)%Z && negb (N.eqb v 0)
              && negb (N.eqb (addr a) v)); [|failed_call].
    cbv zeta. destruct (Z.of_nat _ <=? idx)%Z.
    - destruct (pcutils_arrlist_put_idx _ _ _ _); [|failed_call].
      rewrite grown_ret. failed_call.
    - destruct (negb (N.eqb _ v)); [|failed_call].
      rewrite change_ret. failed_call. }
  split.
  { unfold purc_variant_array_remove. destruct a0 as [a|]; [|failed_call].
    destruct (is_array_type (vtype a) && (0 <=? idx)%Z); [|failed_call].
    cbv zeta. destruct (Z.of_nat _ <=? idx)%Z; [failed_call|].
    rewrite shrunk_ret. failed_call. }
  split; [exact Hwrap|exact Hplain].
Qed.

Ltac kept_as a :=
  exists false, a; cbn [out];
  split; [reflexivity|split; [reflexivity|split; [reflexivity|split;
    [reflexivity|assumption]]]].

Ltac kept_new :=
  eexists true, _; cbn [out];
  split; [reflexivity|split; [reflexivity|split; [reflexivity|split;
    [reflexivity|cbn [set_al al array]]]]].

Lemma insert_before_keeps (a : purc_variant) idx v :
  slots_valid a ->
  keeps_array a (purc_variant_array_insert_before realloc_ok (Some a) idx v).
Proof.
  unfold slots_valid. intros Hwf. unfold purc_variant_array_insert_before.
  destruct (is_array_type (vtype a)) eqn:Hty; [|kept_as a]. cbn [andb].
  destruct (0 <=? idx)%Z; [|kept_as a]. cbn [andb].
  destruct (N.eqb_spec v 0) as [|Hv]; [kept_as a|]. cbn [negb andb].
  destruct (N.eqb (addr a) v); [kept_as a|]. cbn [negb]. cbv zeta.
  destruct (negb (pcutils_arrlist_shrink _ _ _)); [kept_as a|].
  rewrite shrunk_ret. kept_new.
  apply Forall_app. split; [apply Forall_take; exact Hwf|].
  constructor; [exact Hv|apply Forall_drop; exact Hwf].
Qed.

(** X7. Every mutating call on an array returns (none of them stops at an
    assertion) and keeps the invariant that [purc_variant_array_get]
    asserts: each slot below the length holds a variant.  The address, the
    type tag and the listener list of the array are never changed.
    [purc_variant_array_insert_after] at the index [INT_MAX], where
    [idx + 1] wraps around, returns false and leaves the array as it is. *)
Theorem X7_slots_stay_valid (a : purc_variant) (idx : Z)
    (v : purc_variant_t) :
  slots_valid a ->
  keeps_array a (purc_variant_array_insert_before realloc_ok (Some a) idx v)
  /\ keeps_array a
       (purc_variant_array_insert_after realloc_ok (Some a) idx v)
  /\ keeps_array a (purc_variant_array_append realloc_ok (Some a) v)
  /\ keeps_array a (purc_variant_array_prepend realloc_ok (Some a) v)
  /\ keeps_array a (purc_variant_array_set realloc_ok (Some a) idx v)
  /\ keeps_array a (purc_variant_array_remove (Some a) idx)
  /\ out (purc_variant_array_insert_after realloc_ok (Some a) INT_MAX v)
     = Some (false, Some a).
Proof.
  intros Hwf.
  assert (Hwrap :
    out (purc_variant_array_insert_after realloc_ok (Some a) INT_MAX v)
    = Some (false, Some a)).
  { unfold purc_variant_array_insert_after,
      purc_variant_array_insert_before.
    change (int_add INT_MAX 1) with INT_MIN.
    change (0 <=? INT_MIN)%Z with false.
    rewrite andb_false_r. reflexivity. }
  split; [apply insert_before_keeps; exact Hwf|].
  split; [apply insert_before_keeps; exact Hwf|].
  split.
  { unfold purc_variant_array_append.
    destruct (is_array_type (vtype a) && negb (N.eqb v 0)); [|kept_as a].
    apply insert_before_keeps; exact Hwf. }
  split.
  { unfold purc_variant_array_prepend.
    destruct (is_array_type (vtype a) && negb (N.eqb v 0)); [|kept_as a].
    apply insert_before_keeps; exact Hwf. }
  unfold slots_valid in Hwf. split.
  { unfold purc_variant_array_set.
    destruct (is_array_type (vtype a)) eqn:Hty; [|kept_as a]. cbn [andb].
    destruct (0 <=? idx)%Z; [|kept_as a]. cbn [andb].
    destruct (N.eqb_spec v 0) as [|Hv]; [kept_as a|]. cbn [negb andb].
    destruct (N.eqb (addr a) v); [kept_as a|]. cbn [negb]. cbv zeta.
    destruct (Z.of_nat _ <=? idx)%Z.
    - destruct (pcutils_arrlist_put_idx _ _ _ _) as [l1|]; [|kept_as a].
      rewrite grown_ret. kept_new.
      unfold _fill_empty_with_undefined. apply Forall_fmap.
      apply Forall_true. intros x. cbn.
      destruct (N.eqb_spec x 0); [discriminate|assumption].
    - destruct (negb (N.eqb _ v)).
      + rewrite change_ret. kept_new. apply Forall_insert; assumption.
      + exists true, a. cbn [out]. auto. }
  split.
  { unfold purc_variant_array_remove.
    destruct (is_array_type (vtype a) && (0 <=? idx)%Z); [|kept_as a].
    cbv zeta. destruct (Z.of_nat _ <=? idx)%Z.
    - exists true, a. cbn [out]. auto.
    - rewrite shrunk_ret. kept_new. unfold pcutils_arrlist_del_idx.
      apply Forall_delete. exact Hwf. }
  exact Hwrap.
Qed.

(** X8. On an array whose slots are valid [purc_variant_array_get] never
    stops at its assertion: for an array-typed variant and an index from
    [0] to [size - 1] it answers the member in that slot, a valid variant,
    and logs nothing; in every other case it answers
    [PURC_VARIANT_INVALID] after a failed check. *)
Theorem X8_get_answers_member_or_invalid (a : purc_variant) (idx : Z) :
  slots_valid a ->
  (vtype a = PURC_VARIANT_TYPE_ARRAY
   /\ (0 <= idx < Z.of_nat (length (array (al a))))%Z ->
     exists x,
       array (al a) !! Z.to_nat idx = Some x /\ x <> PURC_VARIANT_INVALID
       /\ purc_variant_array_get (Some a) idx = ret x)
  /\ (~ (vtype a = PURC_VARIANT_TYPE_ARRAY
         /\ (0 <= idx < Z.of_nat (length (array (al a))))%Z) ->
        purc_variant_array_get (Some a) idx
        = Run [EvCheckFail] (Some PURC_VARIANT_INVALID)).
Proof.
  unfold slots_valid. intros Hwf. split.
  - intros [Hty Hidx].
    assert (Hkl : Z.to_nat idx < length (array (al a))) by lia.
    destruct (lookup_lt_is_Some_2 _ _ Hkl) as [x Hx].
    assert (Hx0 : x <> 0%N).
    { rewrite Forall_forall in Hwf. apply Hwf.
      eapply list_elem_of_lookup_2; exact Hx. }
    exists x. split; [exact Hx|]. split; [exact Hx0|].
    rewrite <- (Z2Nat.id idx) at 1; [|lia].
    apply get_in_range; assumption.
  - intros Hnot.
    destruct (is_array_type (vtype a)) eqn:Hty.
    + apply get_out_of_range.
      assert (Harr : vtype a = PURC_VARIANT_TYPE_ARRAY)
        by (destruct (vtype a); try discriminate; reflexivity).
      assert (Hout : ~ (0 <= idx < Z.of_nat (length (array (al a))))%Z)
        by tauto.
      lia.
    + unfold purc_variant_array_get. rewrite Hty. reflexivity.
Qed.

End VariantArrayMutation.

Section VariantArrayMutationSamples.
Import Run VariantArray.

Lemma X1_insert_before_shifts_up_witness :
  exists a',
    evals (purc_variant_array_insert_before (fun _ => true)
             (Some plain_array) 9%Z 42%N) [EvRef 42%N] (true, Some a')
    /\ array (al a') = [5%N; 6%N; 7%N; 42%N].
Proof.
  destruct (X1_insert_before_shifts_up (fun _ => true) plain_array 9%Z 42%N)
    as (a' & Hev & _); try reflexivity; try discriminate.
  exists a'. split; [exact Hev|].
  destruct Hev as [_ Hout]. vm_compute in Hout. injection Hout as <-.
  reflexivity.
Defined.

Lemma plain_array_valid : slots_valid plain_array.
Proof. repeat constructor; discriminate. Defined.

Lemma X2_append_and_prepend_positions_witness :
  exists a',
    evals (purc_variant_array_append (fun _ => true) (Some plain_array) 42%N)
          [EvRef 42%N] (true, Some a')
    /\ purc_variant_array_get (Some a') 3%Z = ret 42%N.
Proof.
  destruct (X2_append_and_prepend_positions (fun _ => true) plain_array 42%N)
    as [(a' & Hev & _ & Hget & _) _];
    try reflexivity; try discriminate.
  exists a'. split; [exact Hev|exact Hget].
Defined.

Lemma X3_remove_in_and_out_of_range_witness :
  purc_variant_array_remove (Some plain_array) 3%Z
  = ret (true, Some plain_array)
  /\ exists a',
       evals (purc_variant_array_remove (Some plain_array) 1%Z)
             [EvUnref 6%N] (true, Some a')
       /\ length (array (al a')) = 2.
Proof.
  split.
  - apply (X3_remove_in_and_out_of_range plain_array 3%Z); simpl; [reflexivity|lia|lia].
  - destruct (X3_remove_in_and_out_of_range plain_array 1%Z) as [_ H];
      [reflexivity|lia|].
    destruct H as (x & a' & Hx & Hev & Hlen & _); [simpl; lia|].
    vm_compute in Hx. injection Hx as <-.
    exists a'. split; [exact Hev|exact Hlen].
Defined.

Lemma X4_insert_then_remove_witness :
  exists a',
    evals (purc_variant_array_insert_before (fun _ => true)
             (Some plain_array) 1%Z 42%N) [EvRef 42%N] (true, Some a')
    /\ evals (purc_variant_array_remove (Some a') 1%Z)
             [EvUnref 42%N] (true, Some plain_array).
Proof.
  destruct (X4_insert_then_remove (fun _ => true) plain_array 1%Z 42%N)
    as (a' & Hins & Hrem & _); try reflexivity; try discriminate.
  exists a'. split; [exact Hins|exact Hrem].
Defined.

Lemma X5_set_below_size_witness :
  evals (purc_variant_array_set (fun _ => true) (Some plain_array) 1%Z 42%N)
        [EvUnref 6%N; EvRef 42%N]
        (true, Some (set_al plain_array [5%N; 42%N; 7%N])).
Proof.
  destruct (X5_set_below_size (fun _ => true) plain_array 1%Z 42%N)
    as (old & Hold & Hev); try reflexivity; try discriminate.
  - simpl; lia.
  - vm_compute in Hold. injection Hold as <-. exact Hev.
Defined.

Lemma X6_failed_call_changes_nothing_witness :
  evals (purc_variant_array_insert_after (fun _ => true) (Some plain_array)
           2147483647%Z 42%N)
        [EvCheckFail] (false, Some plain_array).
Proof.
  exact (proj1 (proj2 (proj2 (proj2 (proj2 (proj2 (proj2
           (X6_failed_call_changes_nothing (fun _ => true)
              (Some plain_array) 0%Z 42%N)))))))).
Defined.

Lemma X7_slots_stay_valid_witness :
  keeps_array plain_array
    (purc_variant_array_set (fun _ => true) (Some plain_array) 5%Z 42%N)
  /\ out (purc_variant_array_insert_after (fun _ => true)
            (Some plain_array) 2147483647%Z 42%N)
     = Some (false, Some plain_array).
Proof.
  split.
  - exact (proj1 (proj2 (proj2 (proj2 (proj2
             (X7_slots_stay_valid (fun _ => true) plain_array 5%Z 42%N
                                  plain_array_valid)))))).
  - exact (proj2 (proj2 (proj2 (proj2 (proj2 (proj2
             (X7_slots_stay_valid (fun _ => true) plain_array 5%Z 42%N
                                  plain_array_valid))))))).
Defined.

Lemma X8_get_answers_member_or_invalid_witness :
  purc_variant_array_get (Some plain_array) 2%Z = ret 7%N.
Proof.
  destruct (X8_get_answers_member_or_invalid plain_array 2%Z
              plain_array_valid) as [H _].
  destruct H as (x & Hx & _ & Hget); [split; [reflexivity|simpl; lia]|].
  vm_compute in Hx. injection Hx as <-. exact Hget.
Defined.

End VariantArrayMutationSamples.

Section RdrAnyRenderer.
Import Run Rdr.

Variable respond : request -> option pcrdr_msg.

Lemma utf8_scan_le (fuel : nat) :
  forall (s : list byte) (m : nat),
    utf8_scan fuel s m <= m /\ utf8_scan fuel s m <= length s.
Proof.
  induction fuel as [|fuel IH]; intros s m; cbn [utf8_scan]; [lia|].
  destruct (utf8_char_len s) as [k|] eqn:Hk; [|lia].
  destruct (utf8_char_len_bounds s k Hk) as [_ Hklen].
  destruct (Nat.leb_spec k m); [|lia].
  destruct (IH (drop k s) (m - k)) as [A B].
  rewrite length_drop in B. lia.
Qed.

Lemma stops_nothing_sent : stops_at_refusal respond [] None.
Proof.
  split.
  - intros front q back H. destruct front; discriminate H.
  - intros m H. discriminate H.
Qed.

Lemma stops_refused (q : request) : stops_at_refusal respond [q] None.
Proof.
  split.
  - intros front q' back H Hback.
    destruct front as [|f front]; [injection H as _ <-; contradiction|].
    destruct front; discriminate H.
  - intros m H. discriminate H.
Qed.

Lemma stops_accepted (q : request) :
  response_ok (respond q) = true -> stops_at_refusal respond [q] (respond q).
Proof.
  intros Hok. split.
  - intros front q' back H Hback.
    destruct front as [|f front]; [injection H as _ <-; contradiction|].
    destruct front; discriminate H.
  - intros m Hm. exists [], q. split; [reflexivity|]. split; [exact Hm|].
    rewrite Hm in Hok. cbn in Hok. apply Z.eqb_eq. exact Hok.
Qed.

Lemma stops_cons (q : request) (rest : list request) res :
  response_ok (respond q) = true -> stops_at_refusal respond rest res ->
  stops_at_refusal respond (q :: rest) res.
Proof.
  intros Hok [Hpre Hres]. split.
  - intros front q' back H Hback. destruct front as [|f front].
    + injection H as <- _. exact Hok.
    + injection H as _ H. exact (Hpre front q' back H Hback).
  - intros m Hm. destruct (Hres m Hm) as (front & q' & -> & Hq).
    exists (q :: front), q'. split; [reflexivity|exact Hq].
Qed.

(** The [writting:] loop against any renderer and over any bytes. *)
Lemma writting_any (fuel : nat) :
  forall (doc : list byte) (len lw : nat),
    lw < len -> len + 1 <= fuel + lw ->
    exists reqs res,
      evals (writting respond fuel doc len lw) reqs (Some res)
      /\ stops_at_refusal respond reqs res
      /\ Forall is_write_op reqs
      /\ exists n, concat (map payload reqs) = take n (drop lw doc).
Proof.
  induction fuel as [|fuel IH]; intros doc len lw Hlw Hfuel; [lia|].
  cbn [writting].
  destruct (Nat.ltb_spec len (lw + DEF_LEN_ONE_WRITE)) as [Hend|Hmore].
  - (* writeEnd *)
    set (req := {| operation := PCRDR_OPERATION_WRITEEND;
                   data := drop lw doc; data_len := 0 |}).
    assert (Hwr : Forall is_write_op [req]).
    { constructor; [right; right; reflexivity|constructor]. }
    assert (Hcat : exists n, concat (map payload [req]) = take n (drop lw doc)).
    { exists (length (drop lw doc)). cbn [map concat]. unfold req.
      rewrite payload_rest, app_nil_r, firstn_all. reflexivity. }
    destruct (response_ok (respond req)) eqn:Hok.
    + exists [req], (respond req). split; [|split; [|split]];
        [|apply stops_accepted; exact Hok|exact Hwr|exact Hcat].
      change [req] with ([req] ++ @nil request).
      eapply evals_bind; [apply send_evals|]. cbv beta. fold req.
      rewrite Hok. apply evals_ret.
    + exists [req], None. split; [|split; [|split]];
        [|apply stops_refused|exact Hwr|exact Hcat].
      change [req] with ([req] ++ @nil request).
      eapply evals_bind; [apply send_evals|]. cbv beta. fold req.
      rewrite Hok. apply evals_ret.
  - (* writeMore *)
    cbv zeta.
    destruct (utf8_scan_le DEF_LEN_ONE_WRITE (drop lw doc) DEF_LEN_ONE_WRITE)
      as [HeW _].
    fold (pcutils_string_check_utf8_len (drop lw doc) DEF_LEN_ONE_WRITE)
      in HeW.
    remember (pcutils_string_check_utf8_len (drop lw doc) DEF_LEN_ONE_WRITE)
      as e eqn:Hedef.
    destruct (Nat.ltb_spec 0 e) as [He0|He0].
    2:{ exists [], None. split; [apply evals_ret|].
        split; [apply stops_nothing_sent|]. split; [constructor|].
        exists 0. reflexivity. }
    set (req := {| operation := PCRDR_OPERATION_WRITEMORE;
                   data := drop lw doc; data_len := e |}).
    assert (Hq : is_write_op req) by (right; left; reflexivity).
    assert (Hpay : payload req = take e (drop lw doc)).
    { unfold req. apply payload_chunk. exact He0. }
    destruct (response_ok (respond req)) eqn:Hok.
    2:{ exists [req], None. split; [|split; [|split]].
        - change [req] with ([req] ++ @nil request).
          eapply evals_bind; [apply send_evals|]. cbv beta. fold req.
          rewrite Hok. apply evals_ret.
        - apply stops_refused.
        - constructor; [exact Hq|constructor].
        - exists e. cbn [map concat]. rewrite Hpay. apply app_nil_r. }
    destruct (Nat.eqb_spec (lw + e) len) as [Hdone|Hnot].
    + exists [req], (respond req). split; [|split; [|split]].
      * change [req] with ([req] ++ @nil request).
        eapply evals_bind; [apply send_evals|]. cbv beta. fold req.
        rewrite Hok. apply evals_ret.
      * apply stops_accepted. exact Hok.
      * constructor; [exact Hq|constructor].
      * exists e. cbn [map concat]. rewrite Hpay. apply app_nil_r.
    + destruct (IH doc len (lw + e)) as (reqs & res & Hev & Hstop & Hall & n & Hn);
        [lia|lia|].
      exists (req :: reqs), res. split; [|split; [|split]].
      * change (req :: reqs) with ([req] ++ reqs).
        eapply evals_bind; [apply send_evals|]. cbv beta. fold req.
        rewrite Hok. exact Hev.
      * apply stops_cons; assumption.
      * constructor; assumption.
      * exists (e + n). cbn [map concat]. rewrite Hpay, Hn.
        rewrite <- drop_drop. apply take_take_drop.
Qed.

(** X9. A serialized document of at most 10 240 bytes goes to the renderer
    in one [load] request that carries the whole document, and the
    renderer's answer to it is the result, whatever that answer is.  A
    longer document never produces a [load]: every request of its transfer
    is a writeBegin, writeMore or writeEnd. *)
Theorem X9_load_only_for_small_documents (p : list byte) (sz : nat) :
  (sz <= DEF_LEN_ONE_WRITE ->
     exists req,
       evals (pcintr_rdr_page_control_load respond p sz) [req]
             (Some (respond req))
       /\ operation req = PCRDR_OPERATION_LOAD /\ payload req = p)
  /\ (DEF_LEN_ONE_WRITE < sz ->
        Forall is_write_op (log (pcintr_rdr_page_control_load respond p sz))).
Proof.
  unfold pcintr_rdr_page_control_load. split; intros Hsz.
  - replace (DEF_LEN_ONE_WRITE <? sz) with false
      by (symmetry; apply Nat.ltb_ge; exact Hsz).
    exists {| operation := PCRDR_OPERATION_LOAD; data := p; data_len := 0 |}.
    split; [split; reflexivity|]. split; reflexivity.
  - replace (DEF_LEN_ONE_WRITE <? sz) with true
      by (symmetry; apply Nat.ltb_lt; exact Hsz).
    unfold rdr_page_control_load_large_page. cbv zeta.
    destruct (utf8_scan_le DEF_LEN_ONE_WRITE p DEF_LEN_ONE_WRITE) as [HeW _].
    fold (pcutils_string_check_utf8_len p DEF_LEN_ONE_WRITE) in HeW.
    remember (pcutils_string_check_utf8_len p DEF_LEN_ONE_WRITE) as e eqn:He.
    destruct (Nat.ltb_spec 0 e) as [He0|He0]; [|constructor].
    set (req := {| operation := PCRDR_OPERATION_WRITEBEGIN;
                   data := p; data_len := e |}).
    assert (Hq : is_write_op req) by (left; reflexivity).
    erewrite log_bind; [|reflexivity]. cbn [log app]. fold req.
    constructor; [exact Hq|].
    destruct (response_ok (respond req)); [|constructor].
    destruct (Nat.eqb_spec e sz); [constructor|].
    destruct (writting_any sz p sz e) as (reqs & res & [Hlog _] & _ & Hall & _);
      [lia|lia|].
    rewrite Hlog. exact Hall.
Qed.

(** X10. The transfer of a document longer than 10 240 bytes always comes
    to an end, whatever the bytes of the document and whatever the renderer
    answers, and it stops at the first request that is not answered with
    [PCRDR_SC_OK]: every request that is followed by another one was
    accepted, and the caller gets a response only when it is the accepted
    answer to the last request sent.  What has been sent by then is a
    prefix of the document. *)
Theorem X10_transfer_stops_at_refusal (doc : list byte) (len : nat) :
  DEF_LEN_ONE_WRITE < len ->
  exists reqs res,
    evals (pcintr_rdr_page_control_load respond doc len) reqs (Some res)
    /\ stops_at_refusal respond reqs res
    /\ exists n, concat (map payload reqs) = take n doc.
Proof.
  intros Hlen. unfold pcintr_rdr_page_control_load.
  replace (DEF_LEN_ONE_WRITE <? len) with true
    by (symmetry; apply Nat.ltb_lt; exact Hlen).
  unfold rdr_page_control_load_large_page. cbv zeta.
  destruct (utf8_scan_le DEF_LEN_ONE_WRITE doc DEF_LEN_ONE_WRITE) as [HeW _].
  fold (pcutils_string_check_utf8_len doc DEF_LEN_ONE_WRITE) in HeW.
  remember (pcutils_string_check_utf8_len doc DEF_LEN_ONE_WRITE) as e eqn:He.
  destruct (Nat.ltb_spec 0 e) as [He0|He0].
  2:{ exists [], None. split; [apply evals_ret|].
      split; [apply stops_nothing_sent|]. exists 0. reflexivity. }
  set (req := {| operation := PCRDR_OPERATION_WRITEBEGIN;
                 data := doc; data_len := e |}).
  assert (Hpay : payload req = take e doc).
  { unfold req. apply payload_chunk. exact He0. }
  destruct (response_ok (respond req)) eqn:Hok.
  2:{ exists [req], None. split; [|split].
      - change [req] with ([req] ++ @nil request).
        eapply evals_bind; [apply send_evals|]. cbv beta. fold req.
        rewrite Hok. apply evals_ret.
      - apply stops_refused.
      - exists e. cbn [map concat]. rewrite Hpay. apply app_nil_r. }
  destruct (Nat.eqb_spec e len) as [Hdone|Hnot]; [lia|].
  destruct (writting_any len doc len e) as (reqs & res & Hev & Hstop & _ & n & Hn);
    [lia|lia|].
  exists (req :: reqs), res. split; [|split].
  - change (req :: reqs) with ([req] ++ reqs).
    eapply evals_bind; [apply send_evals|]. cbv beta. fold req.
    rewrite Hok. exact Hev.
  - apply stops_cons; assumption.
  - exists (e + n). cbn [map concat]. rewrite Hpay, Hn.
    apply take_take_drop.
Qed.

End RdrAnyRenderer.

Section RdrAnyRendererSamples.
Import Run Rdr.

Lemma X10_transfer_stops_at_refusal_witness :
  exists reqs,
    evals (pcintr_rdr_page_control_load renderer_begin_only doc_20480
             (length doc_20480)) reqs (Some None)
    /\ stops_at_refusal renderer_begin_only reqs None
    /\ map operation reqs
       = [PCRDR_OPERATION_WRITEBEGIN; PCRDR_OPERATION_WRITEMORE].
Proof.
  destruct (X10_transfer_stops_at_refusal renderer_begin_only doc_20480
              (length doc_20480) doc_20480_long)
    as (reqs & res & Hev & Hstop & _).
  assert (Hrun :
    let r := pcintr_rdr_page_control_load renderer_begin_only doc_20480
               (length doc_20480) in
    out r = Some (Some None)
    /\ map operation (log r)
       = [PCRDR_OPERATION_WRITEBEGIN; PCRDR_OPERATION_WRITEMORE]).
  { vm_compute. split; reflexivity. }
  cbv zeta in Hrun. destruct Hrun as [Hout Hops].
  destruct Hev as [Hlog Hres]. rewrite Hres in Hout. injection Hout as ->.
  exists reqs. split; [split; assumption|]. split; [exact Hstop|].
  rewrite <- Hlog. exact Hops.
Defined.

End RdrAnyRendererSamples.

Section HbdbusMessages.
Import Run Hbdbus.

Variable env : environment.
Variables car hrm :
  stream_extended_data -> string -> M (Z * stream_extended_data).

Lemma out_bind_inv {E A B} (m : run E A) (k : A -> run E B) (b : B) :
  out (bind m k) = Some b -> exists a, out m = Some a /\ out (k a) = Some b.
Proof.
  unfold bind. destruct (out m) as [a|]; [|discriminate].
  cbn [out]. intros H. exists a. split; [reflexivity|exact H].
Qed.

(** The [done:] label: the two ways a message can end. *)
Lemma on_message_done_cases (ext : stream_extended_data) :
  (errsym ext <> None
   /\ on_message_done ext = ((-1)%Z, set_state ext BS_UNCERTAIN))
  \/ (errsym ext = None /\ on_message_done ext = (0%Z, ext)).
Proof.
  unfold on_message_done. destruct (errsym ext).
  - left. split; [discriminate|reflexivity].
  - right. split; reflexivity.
Qed.

Lemma on_message_ends_at_done ext payload len type r :
  out (on_message env car hrm ext payload len type) = Some r ->
  exists ext1, r = on_message_done ext1.
Proof.
  unfold on_message.
  assert (Hdone : forall e, out (ret (on_message_done e) : M _) = Some r ->
                            exists ext1, r = on_message_done ext1).
  { intros e [= <-]. exists e. reflexivity. }
  destruct type; try apply Hdone.
  destruct payload as [payload|]; [|apply Hdone].
  destruct (len =? 0)%Z; [apply Hdone|].
  destruct (state (clr_error ext)).
  - apply Hdone.
  - intros H. apply out_bind_inv in H.
    destruct H as ([[rc ch] e1] & _ & H).
    destruct (negb (rc =? 0)%Z); [exact (Hdone _ H)|].
    cbv zeta in H. apply out_bind_inv in H.
    destruct H as (r2 & _ & H). exact (Hdone _ H).
  - intros H. apply out_bind_inv in H. destruct H as ([rc e1] & _ & H).
    destruct (negb (rc =? 0)%Z); exact (Hdone _ H).
  - intros H. apply out_bind_inv in H. destruct H as (r1 & _ & H).
    exact (Hdone _ H).
Qed.

(** X11. Whatever the environment and the handlers of the later states
    do, a call of [on_message] that returns has one of two outcomes: it
    returns [-1] with an error symbol set and the connection state
    uncertain, or it returns [0] with no error symbol.  So a failure is
    always reported three ways at once, and success never leaves an error
    symbol behind. *)
Theorem X11_on_message_outcomes (ext : stream_extended_data)
    (payload : option string) (len : Z) (type : message_type)
    (rc : Z) (ext' : stream_extended_data) :
  out (on_message env car hrm ext payload len type) = Some (rc, ext') ->
  (rc = (-1)%Z /\ errsym ext' <> None /\ state ext' = BS_UNCERTAIN)
  \/ (rc = 0%Z /\ errsym ext' = None).
Proof.
  intros H. apply on_message_ends_at_done in H. destruct H as (e & H).
  destruct (on_message_done_cases e) as [[Herr Hd]|[Herr Hd]];
    rewrite Hd in H; injection H as -> ->.
  - left. split; [reflexivity|]. split; [exact Herr|reflexivity].
  - right. split; [reflexivity|exact Herr].
Qed.

(** X12. A message that is not text, has no payload or has length zero is
    answered with [-1], the symbol "badMessage" and the uncertain state in
    whatever state it arrives; and the uncertain state is absorbing: every
    message that arrives in it is answered with [-1] and leaves it
    uncertain.  In both cases nothing is sent and no handler runs. *)
Theorem X12_uncertain_is_absorbing (ext : stream_extended_data)
    (payload : option string) (len : Z) (type : message_type) :
  ((type <> MT_TEXT \/ payload = None \/ len = 0%Z) ->
     on_message env car hrm ext payload len type
     = ret ((-1)%Z,
            set_state (set_error (clr_error ext) ERR_SYM_BADMESSAGE)
                      BS_UNCERTAIN))
  /\ (state ext = BS_UNCERTAIN ->
        exists sym,
          on_message env car hrm ext payload len type
          = ret ((-1)%Z,
                 set_state (set_error (clr_error ext) sym) BS_UNCERTAIN)).
Proof.
  split.
  - intros Hbad. unfold on_message.
    destruct type; try reflexivity.
    destruct payload as [pl|]; [|reflexivity].
    destruct Hbad as [H|[H|H]]; [contradiction|discriminate|].
    rewrite H. reflexivity.
  - intros Hst. unfold on_message.
    destruct type; try (exists ERR_SYM_BADMESSAGE; reflexivity).
    destruct payload as [pl|]; [|exists ERR_SYM_BADMESSAGE; reflexivity].
    destruct (len =? 0)%Z; [exists ERR_SYM_BADMESSAGE; reflexivity|].
    replace (state (clr_error ext)) with BS_UNCERTAIN
      by (symmetry; exact Hst).
    exists ERR_SYM_UNEXPECTED. reflexivity.
Qed.

End HbdbusMessages.

Section HbdbusPackets.
Import Run Hbdbus.

Variable env : environment.
Variable assemble : string -> string -> string -> string.
Variable dup : string -> bool.
Variable kvlist_set :
  list (string * hbdbus_event_handler) -> string -> hbdbus_event_handler ->
  option (list (string * hbdbus_event_handler)).
Variables dcall dresult devent :
  stream_extended_data -> json -> M (Z * stream_extended_data).

Lemma packet_type_of_range (t : string) :
  (0 <= packet_type_of t <= 9)%Z.
Proof.
  unfold packet_type_of.
  repeat match goal with
         | |- context [if ?c then _ else _] => destruct c
         end; cbv; split; discriminate.
Qed.

Lemma packet_type_of_names (t : string) :
  (packet_type_of t = JPT_ERROR -> strcasecmp_eq t "error" = true)
  /\ (packet_type_of t = JPT_AUTH_PASSED ->
        strcasecmp_eq t "authPassed" = true)
  /\ (packet_type_of t = JPT_AUTH_FAILED ->
        strcasecmp_eq t "authFailed" = true).
Proof.
  unfold packet_type_of.
  destruct (strcasecmp_eq t "error");
    [split; [reflexivity|split; discriminate]|].
  destruct (strcasecmp_eq t "auth"); [repeat split; discriminate|].
  destruct (strcasecmp_eq t "authPassed");
    [split; [discriminate|split; [reflexivity|discriminate]]|].
  destruct (strcasecmp_eq t "authFailed");
    [split; [discriminate|split; [discriminate|reflexivity]]|].
  repeat match goal with
         | |- context [if ?c then _ else _] => destruct c
         end; repeat split; discriminate.
Qed.

Lemma run_bind_ret {E A B} (a : A) (k : A -> run E B) :
  bind (ret a) k = k a.
Proof. unfold bind, ret. cbn [out log app]. destruct (k a); reflexivity. Qed.

(** What [hbdbus_json_packet_to_object] hands back: a released variant
    exactly for the payloads described by [released_by_parser]; otherwise
    NULL or a variant the caller holds, with the packet type of its
    [packetType] member when that is there. *)
Lemma packet_cases (payload : string) :
  (released_by_parser env payload
   /\ exists j, hbdbus_json_packet_to_object env payload
                = (JPT_BAD_JSON, REF_RELEASED j))
  \/ (~ released_by_parser env payload
      /\ (hbdbus_json_packet_to_object env payload = (JPT_BAD_JSON, REF_NULL)
          \/ (exists j, hbdbus_json_packet_to_object env payload
                        = (JPT_BAD_JSON, REF_HELD j))
          \/ (exists j t,
                hbdbus_json_packet_to_object env payload
                = (packet_type_of t, REF_HELD j)
                /\ purc_variant_make_from_json_string env payload = Some j
                /\ string_member j "packetType" = Some t))).
Proof.
  unfold hbdbus_json_packet_to_object, released_by_parser, string_member.
  destruct (purc_variant_make_from_json_string env payload) as [j|].
  2:{ right. split; [intros (jo & Hp & _); discriminate Hp|].
      left. reflexivity. }
  destruct (purc_variant_is_object j) eqn:Hobj; cbn [negb].
  2:{ left. split; [|exists j; reflexivity].
      exists j. split; [reflexivity|]. left. exact Hobj. }
  destruct (purc_variant_object_get_by_ckey j "packetType") as [jt|] eqn:Hjt.
  2:{ right. split.
      - intros (jo & [= <-] & [Hno|(jt & Hjt' & _)]); congruence.
      - right. left. exists j. reflexivity. }
  destruct (purc_variant_get_string_const jt) as [t|] eqn:Ht.
  2:{ left. split; [|exists j; reflexivity].
      exists j. split; [reflexivity|]. right. exists jt. auto. }
  right. split.
  - intros (jo & [= <-] & [Hno|(jt' & Hjt' & Hs)]); congruence.
  - right. right. exists j, t. rewrite Hjt, Ht. auto.
Qed.

(** A payload whose variant the parser has released stops
    [check_auth_result] at its own release of the variant. *)
Lemma check_auth_result_released (ext : stream_extended_data)
    (payload : string) :
  released_by_parser env payload ->
  check_auth_result env assemble dup kvlist_set ext payload = Run [] None.
Proof.
  intros Hrel.
  destruct (packet_cases payload) as [(_ & j & Hp)|(Hnot & _)];
    [|contradiction].
  unfold check_auth_result. rewrite Hp. reflexivity.
Qed.

(** The ways [check_auth_result] can end for any other payload. *)
Lemma check_auth_result_cases (ext : stream_extended_data)
    (payload : string) :
  ~ released_by_parser env payload ->
  exists rc ext',
    check_auth_result env assemble dup kvlist_set ext payload = ret (rc, ext')
    /\ state ext' = state ext
    /\ app_name ext' = app_name ext
    /\ runner_name ext' = runner_name ext
    /\ ((rc = 0%Z /\ errsym ext' = errsym ext
         /\ auth_passed_stored env assemble dup kvlist_set ext payload ext')
        \/ (rc = (-1)%Z /\ errsym ext' <> None)).
Proof.
  intros Hnot.
  assert (Hfail : forall (e : stream_extended_data) sym,
    state e = state ext -> app_name e = app_name ext ->
    runner_name e = runner_name ext ->
    exists rc ext',
      (ret ((-1)%Z, set_error e sym) : M _) = ret (rc, ext')
      /\ state ext' = state ext
      /\ app_name ext' = app_name ext
      /\ runner_name ext' = runner_name ext
      /\ ((rc = 0%Z /\ errsym ext' = errsym ext
           /\ auth_passed_stored env assemble dup kvlist_set ext payload ext')
          \/ (rc = (-1)%Z /\ errsym ext' <> None))).
  { intros e sym Hs Ha Hr. exists (-1)%Z, (set_error e sym).
    split; [reflexivity|]. split; [exact Hs|]. split; [exact Ha|].
    split; [exact Hr|]. right. split; [reflexivity|discriminate]. }
  unfold check_auth_result.
  destruct (packet_cases payload)
    as [(Hrel & _)|(_ & [Hp|[(j & Hp)|(j & t & Hp & Hparse & Ht)]])];
    [contradiction| | |]; rewrite Hp.
  - apply (Hfail ext); reflexivity.
  - apply (Hfail ext); reflexivity.
  - pose proof (packet_type_of_range t) as Hrange.
    replace (packet_type_of t <? 0)%Z with false
      by (symmetry; apply Z.ltb_ge; lia).
    destruct (Z.eqb_spec (packet_type_of t) JPT_AUTH_PASSED) as [Hpassed|_].
    2:{ destruct (packet_type_of t =? JPT_AUTH_FAILED)%Z;
          [apply (Hfail ext); reflexivity|].
        destruct (packet_type_of t =? JPT_ERROR)%Z;
          apply (Hfail ext); reflexivity. }
    assert (Hname : strcasecmp_eq t "authPassed" = true).
    { apply (proj1 (proj2 (packet_type_of_names t))). exact Hpassed. }
    rewrite run_bind_ret. cbn [unref_if_set]. rewrite run_bind_ret.
    unfold on_auth_passed, strdup.
    destruct (string_member j "serverHostName") as [srv|] eqn:Hsrv;
      [|apply (Hfail ext); reflexivity].
    destruct (string_member j "reassignedHostName") as [own|] eqn:Hown;
      [|apply (Hfail (set_srv_host_name ext _)); reflexivity].
    cbv zeta. cbn [subscribed_list set_own_host_name set_srv_host_name
                   set_subscribed_list].
    destruct (kvlist_set (subscribed_list ext) _ on_lost_event_generator)
      as [l1|] eqn:Hl1;
      [|apply (Hfail (set_own_host_name (set_srv_host_name ext _) _));
        reflexivity].
    destruct (kvlist_set l1 _ on_lost_event_bubble) as [l2|] eqn:Hl2;
      [|apply (Hfail (set_subscribed_list
                        (set_own_host_name (set_srv_host_name ext _) _) l1));
        reflexivity].
    eexists 0%Z, _. split; [reflexivity|].
    split; [reflexivity|]. split; [reflexivity|]. split; [reflexivity|].
    left. split; [reflexivity|]. split; [reflexivity|].
    exists j, t, srv, own, l1, l2. repeat split; assumption.
Qed.

(** X13. [check_auth_result] sends nothing.  For a payload that parses to
    something that is no object, or to an object whose [packetType] is no
    string, it does not return: the parser has released the variant and
    [check_auth_result] releases it once more.  For every other payload it
    returns and never touches the connection state or the names of the
    application and the runner.  It returns [0] only for a payload that
    parses to an object whose packet type is "authPassed" (in any case),
    that names the server host and the reassigned host and whose two
    system events could be stored; the extended data then hold the copies
    of the two host names (NULL where [strdup] failed) and the list of
    subscribed events with the two events set, and nothing else is
    changed.  In every other case -- also for an "authPassed" packet that
    lacks a host name -- it returns [-1] with an error symbol set. *)
Theorem X13_check_auth_result (ext : stream_extended_data)
    (payload : string) :
  log (check_auth_result env assemble dup kvlist_set ext payload) = []
  /\ (released_by_parser env payload ->
      out (check_auth_result env assemble dup kvlist_set ext payload) = None)
  /\ (~ released_by_parser env payload ->
      exists rc ext',
        out (check_auth_result env assemble dup kvlist_set ext payload)
        = Some (rc, ext')
        /\ state ext' = state ext
        /\ app_name ext' = app_name ext
        /\ runner_name ext' = runner_name ext
        /\ (rc = 0%Z \/ rc = (-1)%Z)
        /\ (rc = 0%Z ->
            errsym ext' = errsym ext /\ auth_passed_stored env assemble dup kvlist_set ext payload ext')
        /\ (rc = (-1)%Z -> errsym ext' <> None)).
Proof.
  assert (Hlog :
    log (check_auth_result env assemble dup kvlist_set ext payload) = []).
  { destruct (packet_cases payload) as [(Hrel & _)|(Hnot & _)].
    - rewrite (check_auth_result_released ext payload Hrel). reflexivity.
    - destruct (check_auth_result_cases ext payload Hnot)
        as (rc & ext' & -> & _). reflexivity. }
  split; [exact Hlog|]. split.
  - intros Hrel. rewrite (check_auth_result_released ext payload Hrel).
    reflexivity.
  - intros Hnot.
    destruct (check_auth_result_cases ext payload Hnot)
      as (rc & ext' & Hrun & Hst & Happ & Hrun' & Hcase).
    exists rc, ext'. rewrite Hrun.
    split; [reflexivity|]. split; [exact Hst|]. split; [exact Happ|].
    split; [exact Hrun'|].
    destruct Hcase as [(-> & Herr & Hstored)|[-> Herr]].
    + split; [left; reflexivity|]. split.
      * intros _. split; [exact Herr|exact Hstored].
      * intros H. discriminate H.
    + split; [right; reflexivity|]. split.
      * intros H. discriminate H.
      * intros _. exact Herr.
Qed.

(** X14. A text message that arrives in the state expect-auth-result with
    a payload whose variant the parser has not released moves the
    connection to the state expect-regular-message exactly when
    [check_auth_result] returns [0]; any other answer of the server moves
    it to the uncertain state and is reported with [-1].  For a payload
    whose variant the parser has released (it parses to no object, or its
    [packetType] is no string) neither function returns.  Nothing is sent
    in any case. *)
Theorem X14_auth_result_step (ext : stream_extended_data) (payload : string)
    (len : Z)
    (hrm : stream_extended_data -> string -> M (Z * stream_extended_data)) :
  state ext = BS_EXPECT_AUTH_RESULT -> len <> 0%Z ->
  (released_by_parser env payload ->
   on_message env (check_auth_result env assemble dup kvlist_set) hrm
              ext (Some payload) len MT_TEXT = Run [] None)
  /\ (~ released_by_parser env payload ->
      exists rc ext1 rc' ext',
        check_auth_result env assemble dup kvlist_set (clr_error ext) payload
        = ret (rc, ext1)
        /\ on_message env (check_auth_result env assemble dup kvlist_set) hrm
                      ext (Some payload) len MT_TEXT = ret (rc', ext')
        /\ ((rc = 0%Z /\ rc' = 0%Z /\ state ext' = BS_EXPECT_REGULAR_MSG
             /\ errsym ext' = None
             /\ auth_passed_stored env assemble dup kvlist_set (clr_error ext)
                  payload ext1
             /\ ext' = set_state ext1 BS_EXPECT_REGULAR_MSG)
            \/ (rc = (-1)%Z /\ rc' = (-1)%Z /\ state ext' = BS_UNCERTAIN
                /\ errsym ext' <> None))).
Proof.
  intros Hst Hlen.
  assert (Hlen0 : (len =? 0)%Z = false) by (apply Z.eqb_neq; exact Hlen).
  assert (Hstep :
    on_message env (check_auth_result env assemble dup kvlist_set) hrm
               ext (Some payload) len MT_TEXT
    = bind (check_auth_result env assemble dup kvlist_set (clr_error ext)
              payload)
        (fun r =>
           match r with
           | (rc, ext) =>
               if negb (rc =? 0)%Z then ret (on_message_done ext)
               else ret (on_message_done
                           (set_state ext BS_EXPECT_REGULAR_MSG))
           end)).
  { unfold on_message. rewrite Hlen0.
    replace (state (clr_error ext)) with BS_EXPECT_AUTH_RESULT
      by (symmetry; exact Hst).
    reflexivity. }
  split.
  - intros Hrel. rewrite Hstep.
    rewrite (check_auth_result_released _ payload Hrel). reflexivity.
  - intros Hnot.
    destruct (check_auth_result_cases (clr_error ext) payload Hnot)
      as (rc & ext1 & Hrun & Hst1 & _ & _ & Hcase).
    rewrite Hstep, Hrun, run_bind_ret.
    destruct Hcase as [(-> & Herr & Hstored)|[-> Herr]].
    + exists 0%Z, ext1, 0%Z, (set_state ext1 BS_EXPECT_REGULAR_MSG).
      split; [reflexivity|]. split.
      * cbn [Z.eqb negb]. unfold on_message_done.
        cbn [errsym set_state]. rewrite Herr. reflexivity.
      * left. repeat split; try reflexivity; [|exact Hstored].
        cbn [errsym set_state]. rewrite Herr. reflexivity.
    + exists (-1)%Z, ext1, (-1)%Z, (set_state ext1 BS_UNCERTAIN).
      split; [reflexivity|]. split.
      * cbn [Z.eqb negb]. unfold on_message_done.
        destruct (errsym ext1); [reflexivity|contradiction].
      * right. repeat split. exact Herr.
Qed.

(** X15. [handle_regular_message] answers by the error symbol alone: the
    results of the three dispatchers are dropped, and when the function
    returns, it returns [-1] exactly when an error symbol is set at its
    end.  With no symbol set on entry, a "resultSent" or "eventSent"
    packet is accepted and changes nothing; an "error" packet gives
    "serverError", and a packet of type "auth", "authPassed", "authFailed"
    or of an unknown type "unexpected".  A payload that is no packet gives
    "badMsgPayload" when it does not parse at all or parses to an object
    without [packetType]; when it parses to something that is no object,
    or to an object whose [packetType] is no string, the function does not
    return: it releases the variant that the parser has already
    released. *)
Theorem X15_regular_message_answers (ext : stream_extended_data)
    (payload : string) :
  (forall rc ext',
     out (handle_regular_message env dcall dresult devent ext payload)
     = Some (rc, ext') ->
     (rc = (-1)%Z /\ errsym ext' <> None) \/ (rc = 0%Z /\ errsym ext' = None))
  /\ (released_by_parser env payload ->
      handle_regular_message env dcall dresult devent ext payload
      = Run [] None)
  /\ (errsym ext = None -> ~ released_by_parser env payload ->
      forall jpt jo,
        hbdbus_json_packet_to_object env payload = (jpt, jo) ->
        ((jpt = JPT_RESULT_SENT \/ jpt = JPT_EVENT_SENT) ->
           handle_regular_message env dcall dresult devent ext payload
           = ret (0%Z, ext))
        /\ ((jpt < 0)%Z ->
              handle_regular_message env dcall dresult devent ext payload
              = ret ((-1)%Z, set_error ext ERR_SYM_BADMSGPAYLOAD))
        /\ (jpt = JPT_ERROR ->
              handle_regular_message env dcall dresult devent ext payload
              = ret ((-1)%Z, set_error ext ERR_SYM_SERVERERROR))
        /\ ((jpt = JPT_UNKNOWN \/ jpt = JPT_AUTH \/ jpt = JPT_AUTH_PASSED
             \/ jpt = JPT_AUTH_FAILED) ->
              handle_regular_message env dcall dresult devent ext payload
              = ret ((-1)%Z, set_error ext ERR_SYM_UNEXPECTED))).
Proof.
  split; [|split].
  - intros rc ext'. unfold handle_regular_message.
    destruct (hbdbus_json_packet_to_object env payload) as [jpt jo].
    intros H. apply out_bind_inv in H. destruct H as (e & _ & H).
    apply out_bind_inv in H. destruct H as (u & _ & H).
    destruct (errsym e) eqn:He; injection H as <- <-.
    + left. split; [reflexivity|]. rewrite He. discriminate.
    + right. split; [reflexivity|exact He].
  - intros Hrel.
    destruct (packet_cases payload) as [(_ & j & Hp)|(Hnot & _)];
      [|contradiction].
    unfold handle_regular_message. rewrite Hp. reflexivity.
  - intros Herr Hnot jpt jo Hp.
    assert (Hjo : unref_if_set jo = ret tt).
    { destruct (packet_cases payload)
        as [(Hrel & _)|(_ & [Hq|[(j & Hq)|(j & t & Hq & _)]])];
        [contradiction| | |]; rewrite Hq in Hp; injection Hp as <- <-;
        reflexivity. }
    unfold handle_regular_message. rewrite Hp, Hjo.
    split; [|split; [|split]].
    + intros [->| ->]; cbn [Z.ltb Z.eqb Z.compare Pos.compare
                             Pos.compare_cont Pos.eqb JPT_RESULT_SENT
                             JPT_EVENT_SENT JPT_ERROR JPT_AUTH JPT_CALL
                             JPT_RESULT JPT_EVENT];
        rewrite !run_bind_ret, Herr; reflexivity.
    + intros Hneg.
      replace (jpt <? 0)%Z with true by (symmetry; apply Z.ltb_lt; exact Hneg).
      rewrite !run_bind_ret. reflexivity.
    + intros ->. cbn [Z.ltb Z.eqb Z.compare Pos.eqb JPT_ERROR].
      rewrite !run_bind_ret. reflexivity.
    + intros [->|[->|[->| ->]]];
        cbn [Z.ltb Z.eqb Z.compare Pos.compare Pos.compare_cont Pos.eqb
             JPT_UNKNOWN JPT_AUTH JPT_AUTH_PASSED JPT_AUTH_FAILED JPT_ERROR
             JPT_CALL JPT_RESULT JPT_RESULT_SENT JPT_EVENT JPT_EVENT_SENT];
        rewrite !run_bind_ret; reflexivity.
Qed.

Lemma auth_is_not_error (t : string) :
  strcasecmp_eq t "auth" = true -> strcasecmp_eq t "error" = false.
Proof.
  unfold strcasecmp_eq. intros H. apply String.eqb_eq in H. rewrite H.
  reflexivity.
Qed.

(** X16. [get_challenge_code] hands out a challenge code (return value
    [0], [*challenge] set) exactly for a payload that parses to an object
    of packet type "auth" (in any case) which holds the code as a string,
    names the protocol HBDBUS (in any case) and gives a protocol version
    that casts to 200 or more, the copy of the code being allocated; the
    extended data are then untouched.  In particular a challenge that
    omits the protocol name or the protocol version is never accepted. *)
Theorem X16_challenge_accepted (ext : stream_extended_data)
    (payload code : string) (ext1 : stream_extended_data) :
  out (get_challenge_code env ext payload) = Some (0%Z, Some code, ext1)
  <-> (ext1 = ext /\ strdup_ok env = true
       /\ exists jo,
            purc_variant_make_from_json_string env payload = Some jo
            /\ acceptable_challenge jo code).
Proof.
  unfold get_challenge_code, acceptable_challenge, string_member. split.
  - destruct (purc_variant_make_from_json_string env payload) as [jo|];
      [|discriminate].
    destruct (purc_variant_is_object jo) eqn:Hobj; cbn [negb];
      [|discriminate].
    destruct (purc_variant_object_get_by_ckey jo "packetType") as [jt|]
      eqn:Hjt; [|discriminate].
    destruct (purc_variant_get_string_const jt) as [t|] eqn:Ht;
      [|discriminate].
    destruct (strcasecmp_eq t "error"); [discriminate|].
    destruct (strcasecmp_eq t "auth") eqn:Hauth; [|discriminate].
    cbv zeta.
    destruct (purc_variant_object_get_by_ckey jo "challengeCode") as [jc|]
      eqn:Hjc; [|discriminate].
    destruct (purc_variant_get_string_const jc) as [c|] eqn:Hc;
      [|discriminate].
    destruct (purc_variant_object_get_by_ckey jo "protocolName") as [jn|]
      eqn:Hjn.
    2:{ cbn. discriminate. }
    destruct (purc_variant_get_string_const jn) as [pn|] eqn:Hn;
      [|discriminate].
    destruct (strcasecmp_eq pn HBDBUS_PROTOCOL_NAME) eqn:Hpn; cbn [negb orb];
      [|discriminate].
    destruct (purc_variant_object_get_by_ckey jo "protocolVersion") as [jv|]
      eqn:Hjv.
    2:{ cbn. discriminate. }
    destruct (Z.ltb_spec (purc_variant_cast_to_int32 jv 0)
                         HBDBUS_PROTOCOL_VERSION) as [|Hver];
      [discriminate|].
    destruct (strdup_ok env); [|discriminate].
    intros [= <- <-]. split; [reflexivity|]. split; [reflexivity|].
    exists jo. split; [reflexivity|]. split; [exact Hobj|].
    rewrite Hjt, Hjc, Hjn, Hjv.
    split; [exists t; split; [exact Ht|exact Hauth]|].
    split; [exact Hc|].
    split; [exists pn; split; [exact Hn|exact Hpn]|].
    exists jv. split; [reflexivity|exact Hver].
  - intros (-> & Hdup & jo & -> & Hobj & (t & Ht & Hauth) & Hcode
            & (pn & Hpn & Hname) & (jv & Hjv & Hver)).
    rewrite Hobj. cbn [negb].
    destruct (purc_variant_object_get_by_ckey jo "packetType") as [jt|];
      [|discriminate].
    rewrite Ht, (auth_is_not_error t Hauth), Hauth. cbv zeta.
    destruct (purc_variant_object_get_by_ckey jo "challengeCode") as [jc|];
      [|discriminate].
    rewrite Hcode.
    destruct (purc_variant_object_get_by_ckey jo "protocolName") as [jn|];
      [|discriminate].
    rewrite Hpn, Hname, Hjv. cbn [negb orb].
    replace (purc_variant_cast_to_int32 jv 0 <? HBDBUS_PROTOCOL_VERSION)%Z
      with false by (symmetry; apply Z.ltb_ge; exact Hver).
    rewrite Hdup. reflexivity.
Qed.

(** X17. [send_auth_info] sends one text message at most, and what it
    sends is the auth packet built from the signature of the challenge
    code, shorter than the 1024 bytes of its buffer.  It returns [0] only
    when that one message was sent and the message layer accepted it, and
    then leaves the extended data alone. *)
Theorem X17_send_auth_info_sends_once (ext : stream_extended_data)
    (code : string) :
  (log (send_auth_info env ext (Some code)) = []
   \/ exists sig,
        pcutils_sign_data env (app_name ext) code = Some sig
        /\ log (send_auth_info env ext (Some code))
           = [EvSendText (auth_packet ext (pcutils_b64_encode env sig))]
        /\ (Z.of_nat (String.length
                        (auth_packet ext (pcutils_b64_encode env sig)))
            < HBDBUS_DEF_PACKET_BUFF_SIZE)%Z)
  /\ (forall ext',
        out (send_auth_info env ext (Some code)) = Some (0%Z, ext') ->
        ext' = ext
        /\ exists buff,
             log (send_auth_info env ext (Some code)) = [EvSendText buff]
             /\ send_text env buff = 0%Z).
Proof.
  unfold send_auth_info.
  destruct (pcutils_sign_data env (app_name ext) code) as [sig|].
  2:{ split; [left; reflexivity|]. intros ext' Hx. discriminate Hx. }
  destruct (malloc_ok env); cbn [negb]; cbv iota.
  2:{ split; [left; reflexivity|]. intros ext' Hx. discriminate Hx. }
  cbv zeta.
  remember (auth_packet ext (pcutils_b64_encode env sig)) as buff eqn:Hbuff.
  destruct (Z.of_nat (String.length buff) <? 0)%Z.
  { split; [left; reflexivity|]. intros ext' Hx. discriminate Hx. }
  destruct (Z.leb_spec HBDBUS_DEF_PACKET_BUFF_SIZE
                       (Z.of_nat (String.length buff))) as [|Hfit].
  { split; [left; reflexivity|]. intros ext' Hx. discriminate Hx. }
  destruct (Z.eqb_spec (send_text env buff) 0) as [Hsent|Hnot];
    cbn [negb]; cbv iota.
  - split.
    + right. exists sig. rewrite <- Hbuff.
      split; [reflexivity|]. split; [reflexivity|].
      exact Hfit.
    + intros ext' [= <-]. split; [reflexivity|].
      exists buff. split; [reflexivity|exact Hsent].
  - split.
    + right. exists sig. rewrite <- Hbuff.
      split; [reflexivity|]. split; [reflexivity|].
      exact Hfit.
    + intros ext' Hx. discriminate Hx.
Qed.

End HbdbusPackets.

Section HbdbusPacketSamples.
Import Run Hbdbus.

Lemma X11_on_message_outcomes_witness :
  exists rc ext',
    out (on_message env_send_fails no_handler no_handler
           ext_expect_challenge (Some "challenge") 9%Z MT_TEXT)
    = Some (rc, ext')
    /\ ((rc = (-1)%Z /\ errsym ext' <> None /\ state ext' = BS_UNCERTAIN)
        \/ (rc = 0%Z /\ errsym ext' = None)).
Proof.
  eexists _, _. split; [vm_compute; reflexivity|].
  apply (X11_on_message_outcomes env_send_fails no_handler no_handler
           ext_expect_challenge (Some "challenge") 9%Z MT_TEXT).
  vm_compute. reflexivity.
Defined.

Lemma auth_passed_not_released :
  ~ released_by_parser env_auth_passed "packet".
Proof.
  intros (jo & [= <-] & [H|(jt & Hjt & Hs)]).
  - discriminate H.
  - vm_compute in Hjt. injection Hjt as <-. discriminate Hs.
Defined.

Lemma number_released : released_by_parser env_number "5".
Proof.
  exists (JNumber 5). split; [reflexivity|]. left. reflexivity.
Defined.

Lemma X13_check_auth_result_witness :
  out (check_auth_result env_number assemble_endpoint_name (fun _ => true)
         kvlist_set_in_front (ext_in_state BS_EXPECT_AUTH_RESULT) "5")
  = None.
Proof.
  exact (proj1 (proj2 (X13_check_auth_result env_number
                         assemble_endpoint_name (fun _ => true)
                         kvlist_set_in_front
                         (ext_in_state BS_EXPECT_AUTH_RESULT) "5"))
           number_released).
Defined.

Lemma X14_auth_result_step_witness :
  (exists ext',
     on_message env_auth_passed
       (check_auth_result env_auth_passed assemble_endpoint_name
                          (fun _ => true) kvlist_set_in_front)
       no_handler (ext_in_state BS_EXPECT_AUTH_RESULT) (Some "packet") 6%Z
       MT_TEXT
     = ret (0%Z, ext')
     /\ state ext' = BS_EXPECT_REGULAR_MSG
     /\ srv_host_name ext' = Some "server"
     /\ own_host_name ext' = Some "client"
     /\ map snd (subscribed_list ext')
        = [on_lost_event_bubble; on_lost_event_generator])
  /\ on_message env_number
       (check_auth_result env_number assemble_endpoint_name
                          (fun _ => true) kvlist_set_in_front)
       no_handler (ext_in_state BS_EXPECT_AUTH_RESULT) (Some "5") 1%Z
       MT_TEXT
     = Run [] None.
Proof.
  split.
  - destruct (proj2 (X14_auth_result_step env_auth_passed
                       assemble_endpoint_name (fun _ => true)
                       kvlist_set_in_front
                       (ext_in_state BS_EXPECT_AUTH_RESULT)
                       "packet" 6%Z no_handler eq_refl
                       ltac:(discriminate))
                auth_passed_not_released)
      as (rc & ext1 & rc' & ext' & Hc & Hm & Hcase).
    destruct Hcase as [(_ & -> & Hst & _)|(Hrc & _)].
    + exists ext'. split; [exact Hm|]. split; [exact Hst|].
      vm_compute in Hm. injection Hm as <-. repeat split.
    + exfalso. vm_compute in Hc. injection Hc as Hrc' _.
      rewrite Hrc in Hrc'. discriminate Hrc'.
  - exact (proj1 (X14_auth_result_step env_number
                    assemble_endpoint_name (fun _ => true)
                    kvlist_set_in_front
                    (ext_in_state BS_EXPECT_AUTH_RESULT)
                    "5" 1%Z no_handler eq_refl ltac:(discriminate))
             number_released).
Defined.

Lemma X15_regular_message_answers_witness :
  handle_regular_message env_number no_packet_handler no_packet_handler
    no_packet_handler (ext_in_state BS_EXPECT_REGULAR_MSG) "5"
  = Run [] None.
Proof.
  exact (proj1 (proj2 (X15_regular_message_answers env_number
                         no_packet_handler no_packet_handler
                         no_packet_handler
                         (ext_in_state BS_EXPECT_REGULAR_MSG) "5"))
           number_released).
Defined.

(** An "authPassed" packet that arrives as a regular message makes the
    connection uncertain. *)
Example auth_passed_is_unexpected_later :
  handle_regular_message env_auth_passed no_packet_handler no_packet_handler
    no_packet_handler (ext_in_state BS_EXPECT_REGULAR_MSG) "packet"
  = ret ((-1)%Z,
         set_error (ext_in_state BS_EXPECT_REGULAR_MSG) ERR_SYM_UNEXPECTED).
Proof. vm_compute. reflexivity. Qed.

End HbdbusPacketSamples.

Section IterateFrames.
Import Run Iterate.

Variables inst iter : Type.
Variable eval : pcvdom_attr -> purc_variant_t.
Variable get_executor : string -> option (purc_exec_ops inst iter).
Variable mode : bool.

Abbreviation stack_t := (pcintr_stack inst iter).
Abbreviation ctxt_t := (ctxt_for_iterate inst iter).

Lemma plain_operator (o : pchvml_attr_operator) :
  is_plain_operator o = true -> o = PCHVML_ATTRIBUTE_OPERATOR.
Proof. destruct o; [reflexivity|discriminate..]. Qed.

(** What a successful [attr_found] has seen and done. *)
Lemma attr_found_true (st : stack_t) (c : ctxt_t) (a : pcvdom_attr) st' c' :
  out (attr_found eval st c a) = Some (true, st', c') ->
  st' = st /\ op a = PCHVML_ATTRIBUTE_OPERATOR /\ eval a <> None
  /\ ((key a = "on" /\ on c = None /\ c' = set_on c (eval a))
      \/ (key a = "by" /\ rule_attr c = None
          /\ c' = set_rule_attr c (Some a))
      \/ (key a = "onlyif" /\ onlyif c = None
          /\ c' = set_onlyif c (eval a))).
Proof.
  unfold attr_found, attr_found_val, eval_attr.
  destruct (is_plain_operator (op a)) eqn:Hop; cbn; [|discriminate].
  apply plain_operator in Hop.
  destruct (eval a) as [v|] eqn:Hv; cbn; [|discriminate].
  destruct (String.eqb_spec (key a) "on") as [Hon|_]; cbn.
  { unfold process_attr_on. destruct (on c) eqn:Hc; cbn; [discriminate|].
    intros [= <- <-]. split; [reflexivity|]. split; [exact Hop|].
    split; [discriminate|]. left. auto. }
  destruct (String.eqb_spec (key a) "by") as [Hby|_]; cbn.
  { unfold process_attr_by. destruct (rule_attr c) eqn:Hc; cbn;
      [discriminate|].
    intros [= <- <-]. split; [reflexivity|]. split; [exact Hop|].
    split; [discriminate|]. right. left. auto. }
  destruct (String.eqb_spec (key a) "onlyif") as [Honly|_]; cbn;
    [|discriminate].
  unfold process_attr_onlyif. destruct (onlyif c) eqn:Hc; cbn;
    [discriminate|].
  intros [= <- <-]. split; [reflexivity|]. split; [exact Hop|].
  split; [discriminate|]. right. right. auto.
Qed.

(** What a successful attribute walk has seen: attributes with plain
    operators, known keywords and values, no keyword twice and none that
    the context already held. *)
Lemma walk_attrs_true (l : list pcvdom_attr) :
  forall (st : stack_t) (c : ctxt_t) st' c',
    out (pcintr_vdom_walk_attrs eval st c l) = Some (true, st', c') ->
    st' = st
    /\ Forall (fun a => (key a = "on" \/ key a = "by" \/ key a = "onlyif")
                        /\ op a = PCHVML_ATTRIBUTE_OPERATOR
                        /\ eval a <> None) l
    /\ NoDup (map key l)
    /\ (on c <> None -> Forall (fun a => key a <> "on") l)
    /\ (rule_attr c <> None -> Forall (fun a => key a <> "by") l)
    /\ (onlyif c <> None -> Forall (fun a => key a <> "onlyif") l)
    /\ (on c' <> None -> on c <> None \/ exists a, In a l /\ key a = "on")
    /\ curr c' = curr c.
Proof.
  induction l as [|a l IH]; intros st c st' c' Hout.
  - cbn in Hout. injection Hout as <- <-.
    split; [reflexivity|]. split; [constructor|]. split; [constructor|].
    split; [intros _; constructor|]. split; [intros _; constructor|].
    split; [intros _; constructor|].
    split; [intros Hs; left; exact Hs|reflexivity].
  - cbn [pcintr_vdom_walk_attrs] in Hout. apply out_bind_inv in Hout.
    destruct Hout as ([[b st1] c1] & Hf & Hrest).
    destruct b; [|discriminate Hrest].
    destruct (attr_found_true st c a st1 c1 Hf) as (-> & Hop & Hv & Hkey).
    destruct (IH st c1 st' c' Hrest)
      as (-> & Hall & Hnd & Hon & Hby & Honly & Hset & Hcurr).
    assert (Hkeys : key a = "on" \/ key a = "by" \/ key a = "onlyif")
      by (destruct Hkey as [(H & _)|[(H & _)|(H & _)]]; auto).
    assert (Hfresh : Forall (fun a' => key a' <> key a) l).
    { destruct Hkey as [(Hk & _ & ->)|[(Hk & _ & ->)|(Hk & _ & ->)]];
        rewrite Hk.
      - apply Hon. cbn. exact Hv.
      - apply Hby. cbn. discriminate.
      - apply Honly. cbn. exact Hv. }
    assert (Hkeep_on : on c <> None -> on c1 <> None).
    { destruct Hkey as [(_ & Hc & _)|[(_ & _ & ->)|(_ & _ & ->)]];
        [congruence|cbn; auto|cbn; auto]. }
    assert (Hkeep_by : rule_attr c <> None -> rule_attr c1 <> None).
    { destruct Hkey as [(_ & _ & ->)|[(_ & Hc & _)|(_ & _ & ->)]];
        [cbn; auto|congruence|cbn; auto]. }
    assert (Hkeep_only : onlyif c <> None -> onlyif c1 <> None).
    { destruct Hkey as [(_ & _ & ->)|[(_ & _ & ->)|(_ & Hc & _)]];
        [cbn; auto|cbn; auto|congruence]. }
    split; [reflexivity|].
    split; [constructor; [auto|exact Hall]|].
    split.
    { cbn [map]. constructor; [|exact Hnd].
      intros Hin. apply (list_elem_of_fmap_1 key) in Hin.
      destruct Hin as (a' & Hk & Hin).
      rewrite Forall_forall in Hfresh.
      apply (Hfresh a' Hin). symmetry. exact Hk. }
    split.
    { intros H. constructor; [|apply Hon, Hkeep_on, H].
      destruct Hkey as [(_ & Hc & _)|[(Hk & _)|(Hk & _)]];
        [contradiction|rewrite Hk; discriminate|rewrite Hk; discriminate]. }
    split.
    { intros H. constructor; [|apply Hby, Hkeep_by, H].
      destruct Hkey as [(Hk & _)|[(_ & Hc & _)|(Hk & _)]];
        [rewrite Hk; discriminate|contradiction|rewrite Hk; discriminate]. }
    split.
    { intros H. constructor; [|apply Honly, Hkeep_only, H].
      destruct Hkey as [(Hk & _)|[(Hk & _)|(_ & Hc & _)]];
        [rewrite Hk; discriminate|rewrite Hk; discriminate|contradiction]. }
    split.
    { intros H. destruct (Hset H) as [H1|(a' & Hin & Hk)].
      - destruct Hkey as [(Hk & _)|[(_ & _ & ->)|(_ & _ & ->)]].
        + right. exists a. split; [left; reflexivity|exact Hk].
        + left. exact H1.
        + left. exact H1.
      - right. exists a'. split; [right; exact Hin|exact Hk]. }
    rewrite Hcurr.
    destruct Hkey as [(_ & _ & ->)|[(_ & _ & ->)|(_ & _ & ->)]]; reflexivity.
Qed.

(** What a successful [post_process] leaves behind. *)
Lemma post_process_true (st : stack_t) (c : ctxt_t) st' c' :
  out (post_process eval get_executor st c) = Some (true, st', c') ->
  on c <> None
  /\ exists o ei i value,
       c' = set_it (set_exec_inst (set_ops c (Some o)) (Some ei)) (Some i)
       /\ st' = set_frame st (set_result_var (frame st) (Some value))
       /\ it_value o ei i = Some value.
Proof.
  unfold post_process. destruct (on c) as [on_v|]; [|discriminate].
  intros H. split; [discriminate|].
  apply out_bind_inv in H. destruct H as (rule & _ & H).
  destruct rule as [rule|]; [|discriminate H].
  destruct (get_executor rule) as [o|]; [|discriminate H].
  destruct (create o on_v false) as [ei|]; [|discriminate H].
  apply out_bind_inv in H. destruct H as (u1 & _ & H).
  destruct (it_begin o ei rule) as [i|]; [|discriminate H].
  apply out_bind_inv in H. destruct H as (u2 & _ & H).
  destruct (it_value o ei i) as [value|] eqn:Hv; [|discriminate H].
  injection H as <- <-. exists o, ei, i, value. auto.
Qed.

(** The ways a successful [after_pushed] has gone. *)
Lemma after_pushed_true (st : stack_t) (el : pcvdom_element) st' :
  out (after_pushed eval get_executor mode st el) = Some (true, st') ->
  mode = false
  /\ NoDup (map key (attrs el))
  /\ Forall (attr_accepted eval) (attrs el)
  /\ (exists a, In a (attrs el) /\ key a = "on")
  /\ last_error st' = PURC_ERROR_OK
  /\ pos (frame st') = Some el
  /\ idx (frame st') = idx (frame st)
  /\ exists c o ei i value,
       ctxt (frame st') = Some c
       /\ ops c = Some o /\ exec_inst c = Some ei /\ it c = Some i
       /\ curr c = None
       /\ it_value o ei i = Some value
       /\ result_var (frame st') = Some value.
Proof.
  unfold after_pushed. destruct mode; [discriminate|].
  intros H. split; [reflexivity|].
  apply out_bind_inv in H. destruct H as ([[b st1] c1] & Hw & H).
  destruct b; [|discriminate H].
  destruct (walk_attrs_true _ _ _ _ _ Hw)
    as (-> & Hall & Hnd & _ & _ & _ & Hon & Hcurr).
  apply out_bind_inv in H. destruct H as (u & Hassert & H).
  assert (Honly : onlyif c1 = None).
  { destruct (onlyif c1); [discriminate Hassert|reflexivity]. }
  apply out_bind_inv in H. destruct H as ([[ok st2] c2] & Hpp & H).
  injection H as -> <-.
  destruct (post_process_true _ _ _ _ Hpp)
    as (Hset & o & ei & i & value & -> & -> & Hv).
  split; [exact Hnd|].
  split.
  { rewrite Forall_forall in Hall. apply Forall_forall. intros a Ha.
    destruct (Hall a Ha) as ([Hk|[Hk|Hk]] & Hop & Hval);
      [split; auto|split; auto|].
    exfalso.
    apply (walk_attrs_onlyif inst iter eval _ _ _ _ _ Hw); [|exact Honly].
    right. exists a. split; [apply list_elem_of_In; exact Ha|exact Hk]. }
  split.
  { destruct (Hon Hset) as [H0|Hex]; [cbn in H0; contradiction|exact Hex]. }
  cbn. split; [reflexivity|]. split; [reflexivity|]. split; [reflexivity|].
  eexists _, o, ei, i, value.
  split; [reflexivity|]. cbn. repeat split; try reflexivity; assumption.
Qed.


(** The first element child at or after a position, and the element
    children that follow it. *)
Lemma select_child_from_first (l : list pcvdom_node) :
  Forall (fun nd => ntype nd <> PCVDOM_NODE_DOCUMENT) l ->
  forall k,
    (select_child_from l k = ret None
     /\ filter (fun nd => is_element nd = true) l = [])
    \/ exists n j,
         select_child_from l k = ret (Some (n, k + j)) /\ j < length l
         /\ filter (fun nd => is_element nd = true) l
            = n :: filter (fun nd => is_element nd = true) (drop (S j) l).
Proof.
  induction 1 as [|nd l Hnd _ IH]; intros k; [left; split; reflexivity|].
  cbn [select_child_from]. destruct (ntype nd) eqn:Hty.
  - contradiction.
  - right. exists nd, 0. rewrite Nat.add_0_r. split; [reflexivity|].
    split; [cbn; lia|]. rewrite filter_cons_True; [reflexivity|].
    unfold is_element. rewrite Hty. reflexivity.
  - assert (Hskip : filter (fun nd => is_element nd = true) (nd :: l)
                    = filter (fun nd => is_element nd = true) l).
    { apply filter_cons_False. unfold is_element. rewrite Hty. discriminate. }
    rewrite Hskip.
    destruct (IH (S k)) as [[-> Hnone]|(n & j & -> & Hj & Hf)];
      [left; split; [reflexivity|exact Hnone]|].
    right. exists n, (S j). rewrite Nat.add_succ_r.
    split; [reflexivity|]. split; [cbn; lia|exact Hf].
  - assert (Hskip : filter (fun nd => is_element nd = true) (nd :: l)
                    = filter (fun nd => is_element nd = true) l).
    { apply filter_cons_False. unfold is_element. rewrite Hty. discriminate. }
    rewrite Hskip.
    destruct (IH (S k)) as [[-> Hnone]|(n & j & -> & Hj & Hf)];
      [left; split; [reflexivity|exact Hnone]|].
    right. exists n, (S j). rewrite Nat.add_succ_r.
    split; [reflexivity|]. split; [cbn; lia|exact Hf].
Qed.

(** X19. One round of [select_child] calls over a frame hands out the
    element children of the iterate element that lie behind the cursor,
    each exactly once and in document order, skips content and comment
    children, and ends with one NULL answer that resets the cursor and
    clears the error slot; a budget of one call more than there are
    children behind the cursor is enough. *)
Theorem X19_children_selected_in_order (budget : nat) :
  forall (st : stack_t) (c : ctxt_t) (el : pcvdom_element),
    ctxt (frame st) = Some c -> pos (frame st) = Some el -> no_document el ->
    length (children el) - start_of c < budget ->
    evals (select_children budget st)
          (map (fun nd => EvSelectChild (Some nd))
               (filter (fun nd => is_element nd = true)
                       (drop (start_of c) (children el)))
           ++ [EvSelectChild None])
          (Some (at_end st c)).
Proof.
  induction budget as [|b IH]; intros st c el Hc Hp Hd Hb; [lia|].
  cbn [select_children]. unfold select_child. rewrite Hc, Hp.
  fold (start_of c).
  assert (Hd' : Forall (fun nd => ntype nd <> PCVDOM_NODE_DOCUMENT)
                       (drop (start_of c) (children el))).
  { apply Forall_drop. exact Hd. }
  destruct (select_child_from_first _ Hd' (start_of c))
    as [[-> ->]|(n & j & -> & Hj & ->)]; rewrite !run_bind_ret.
  - split; reflexivity.
  - rewrite length_drop in Hj.
    set (c' := set_curr c (Some (start_of c + j))).
    set (st' := set_frame st (set_ctxt (frame st) c')).
    assert (Hstart : start_of c' = S (start_of c + j)) by reflexivity.
    pose proof (IH st' c' el eq_refl Hp Hd) as Hev.
    rewrite Hstart in Hev.
    rewrite drop_drop. rewrite Nat.add_succ_r.
    cbn [map app].
    change (EvSelectChild (Some n)
            :: map (fun nd => EvSelectChild (Some nd))
                 (filter (fun nd => is_element nd = true)
                    (drop (S (start_of c + j)) (children el)))
               ++ [EvSelectChild None])
      with ([EvSelectChild (Some n)]
            ++ (map (fun nd => EvSelectChild (Some nd))
                  (filter (fun nd => is_element nd = true)
                     (drop (S (start_of c + j)) (children el)))
                ++ [EvSelectChild None])).
    eapply evals_bind; [apply evals_emit|].
    apply Hev. lia.
Qed.

(** X20. [on_popping] asks for the frame to be popped whenever it cannot
    go on: at once and silently when the frame holds no executor instance
    or no iterator; without asking the executor when the rule attribute
    does not evaluate to a string (its [return -1] is a [true]), the stack
    then being as before; and when [it_next] yields no iterator, in which
    case the iterator of the frame is cleared and the error slot is
    cleared only for [PURC_ERROR_NOT_EXISTS]: any other error of the
    executor stays in the slot. *)
Theorem X20_on_popping_pops (st : stack_t) (c : ctxt_t) :
  ctxt (frame st) = Some c ->
  ((exec_inst c = None \/ it c = None) ->
     on_popping eval st = ret (true, st))
  /\ (forall o ei i,
        ops c = Some o -> exec_inst c = Some ei -> it c = Some i ->
        (rule_in_force eval c = None ->
           exists evs,
             evals (on_popping eval st) evs (true, st)
             /\ count_events is_it_next evs = 0)
        /\ (forall rule err,
              rule_in_force eval c = Some rule ->
              it_next o ei i rule = inr err ->
              exists evs st',
                evals (on_popping eval st) evs (true, st')
                /\ last_error st'
                   = (if is_not_exists err then PURC_ERROR_OK else err)
                /\ ctxt (frame st') = Some (set_it c None)
                /\ result_var (frame st') = result_var (frame st))).
Proof.
  intros Hc. split.
  - intros Hnone. unfold on_popping. rewrite Hc.
    destruct Hnone as [-> | Hit]; [reflexivity|].
    rewrite Hit. destruct (exec_inst c); reflexivity.
  - intros o ei i Ho Hei Hit. unfold on_popping. rewrite Hc, Hei, Hit, Ho.
    destruct (eval_rule_spec inst iter eval c) as (e1 & Hev1 & Hq1).
    split.
    + intros Hr. rewrite Hr in Hev1. exists (e1 ++ []). split.
      * eapply evals_bind; [exact Hev1|]. apply evals_ret.
      * rewrite app_nil_r. apply count_events_none.
        eapply Forall_impl; [exact Hq1|].
        intros [] He; cbn in *; try discriminate; reflexivity.
    + intros rule err Hr Hnext. rewrite Hr in Hev1.
      exists (e1 ++ [EvItNext rule] ++ []). eexists. split.
      * eapply evals_bind; [exact Hev1|]. cbv beta iota.
        eapply evals_bind; [apply evals_emit|]. rewrite Hnext.
        apply evals_ret.
      * destruct (is_not_exists err); cbn; repeat split; reflexivity.
Qed.

Lemma Forall_log_bind {E A B} (P : E -> Prop) (m : run E A)
    (k : A -> run E B) :
  Forall P (log m) -> (forall a, Forall P (log (k a))) ->
  Forall P (log (bind m k)).
Proof.
  intros Hm Hk. unfold bind. destruct (out m) as [a|]; cbn [log].
  - apply Forall_app. split; [exact Hm|apply Hk].
  - exact Hm.
Qed.

(** [after_pushed] runs neither [rerun] nor [on_popping]. *)
Lemma after_pushed_quiet (st : stack_t) (el : pcvdom_element) :
  quiet (log (after_pushed eval get_executor mode st el)).
Proof.
  assert (Hnil : quiet []) by constructor.
  assert (Heval : forall a, quiet (log (eval_attr eval a))).
  { intros a. repeat constructor. }
  assert (Hassert : forall b, quiet (log (PC_ASSERT b : M unit))).
  { intros []; constructor. }
  assert (Hfound : forall (s : stack_t) (c : ctxt_t) a,
             quiet (log (attr_found eval s c a))).
  { intros s c a. unfold attr_found, attr_found_val.
    apply Forall_log_bind; [apply Hassert|intros _].
    apply Forall_log_bind; [apply Heval|intros v].
    destruct v; [|exact Hnil].
    apply Forall_log_bind; [apply Hassert|intros _].
    repeat match goal with
           | |- context [if ?b then _ else _] => destruct b
           end; exact Hnil. }
  assert (Hwalk : forall l (s : stack_t) (c : ctxt_t),
             quiet (log (pcintr_vdom_walk_attrs eval s c l))).
  { induction l as [|a l IH]; intros s c; [exact Hnil|].
    cbn [pcintr_vdom_walk_attrs].
    apply Forall_log_bind; [apply Hfound|intros [[[] s1] c1]];
      [apply IH|exact Hnil]. }
  assert (Hpost : forall (s : stack_t) (c : ctxt_t),
             quiet (log (post_process eval get_executor s c))).
  { intros s c. unfold post_process.
    destruct (on c) as [on_v|]; [|exact Hnil].
    apply Forall_log_bind.
    { destruct (rule_attr c); [|exact Hnil].
      apply Forall_log_bind; [apply Heval|intros v; exact Hnil]. }
    intros [rule|]; [|exact Hnil].
    destruct (get_executor rule) as [o|]; [|exact Hnil].
    destruct (create o on_v false) as [ei|]; [|exact Hnil].
    apply Forall_log_bind; [repeat constructor|intros _].
    destruct (it_begin o ei rule) as [i|]; [|exact Hnil].
    apply Forall_log_bind; [repeat constructor|intros _].
    destruct (it_value o ei i); exact Hnil. }
  unfold after_pushed. destruct mode; [exact Hnil|].
  apply Forall_log_bind; [apply Hwalk|intros [[[] s1] c1]]; [|exact Hnil].
  apply Forall_log_bind; [apply Hassert|intros _].
  apply Forall_log_bind; [apply Hpost|intros [[ok s2] c2]]. exact Hnil.
Qed.

(** X21. The whole life of an iterate frame: when [after_pushed] has
    returned a context and the executor yields [n] iterators from the one
    the frame then holds, the verb runs to its end within [n] rounds of
    the driver, with [rerun] invoked [n - 1] times, [on_popping] [n] times
    and answering true once, and [frame.idx] advanced by [n - 1] from
    where [after_pushed] found it. *)
Theorem X21_iterate_runs_to_the_end (st st1 : stack_t)
    (el : pcvdom_element) (c : ctxt_t) (o : purc_exec_ops inst iter)
    (ei : inst) (i : iter) (rule : option string) (n fuel : nat) :
  out (after_pushed eval get_executor mode st el) = Some (true, st1) ->
  no_document el ->
  ctxt (frame st1) = Some c ->
  ops c = Some o -> exec_inst c = Some ei -> it c = Some i ->
  rule_in_force eval c = Some rule ->
  iterates o ei rule i n -> n <= fuel ->
  exists evs st',
    evals (run_iterate eval get_executor mode fuel st el) evs (Some st')
    /\ count_events is_rerun evs = n - 1
    /\ count_events is_on_popping evs = n
    /\ count_events is_popped evs = 1
    /\ idx (frame st') = idx (frame st) + (n - 1).
Proof.
  intros Hpushed Hd Hc Ho Hei Hit Hrule Hiter Hfuel.
  destruct (after_pushed_true st el st1 Hpushed)
    as (_ & _ & _ & _ & _ & Hpos & Hidx & _).
  destruct (run_frame_iterates inst iter eval o ei rule i n Hiter fuel st1 c el
              Hfuel Hc Hpos Hd Ho Hei Hit Hrule)
    as (evs & st' & Hev & R1 & R2 & R3 & Hidx').
  destruct (quiet_counts _ (after_pushed_quiet st el)) as (Q1 & Q2 & Q3).
  exists (log (after_pushed eval get_executor mode st el) ++ evs), st'.
  split.
  { unfold run_iterate. eapply evals_bind; [split; [reflexivity|exact Hpushed]|].
    exact Hev. }
  rewrite !count_events_app, Q1, Q2, Q3, R1, R2, R3, Hidx', Hidx.
  repeat split; reflexivity.
Qed.

End IterateFrames.

Section IterateFrameSamples.
Import Run Iterate.


Lemma mixed_no_document : no_document iterate_mixed.
Proof. repeat constructor; discriminate. Defined.

Lemma X19_children_selected_in_order_witness :
  exists st',
    evals (select_children 6 stack_mixed)
          [ EvSelectChild (Some {| ntype := PCVDOM_NODE_ELEMENT;
                                   node_id := 2 |});
            EvSelectChild (Some {| ntype := PCVDOM_NODE_ELEMENT;
                                   node_id := 4 |});
            EvSelectChild None ]
          (Some st').
Proof.
  eexists.
  refine (X19_children_selected_in_order (list variant) nat 6 stack_mixed
            _ iterate_mixed eq_refl eq_refl mixed_no_document _).
  simpl. lia.
Defined.

Lemma X20_on_popping_pops_witness :
  on_popping eval_by_vcm
    (set_frame empty_stack
       (set_ctxt (frame empty_stack) (@ctxt_zero (list variant) nat)))
  = ret (true,
         set_frame empty_stack
           (set_ctxt (frame empty_stack) (@ctxt_zero (list variant) nat))).
Proof.
  refine (proj1 (X20_on_popping_pops (list variant) nat eval_by_vcm
                   (set_frame empty_stack
                      (set_ctxt (frame empty_stack) ctxt_zero))
                   ctxt_zero eq_refl) _).
  left. reflexivity.
Defined.

Lemma X21_iterate_runs_to_the_end_witness :
  exists evs st',
    evals (run_iterate eval_by_vcm range_get_executor false 3
             empty_stack iterate_10_20_30) evs (Some st')
    /\ count_events is_rerun evs = 2
    /\ count_events is_on_popping evs = 3
    /\ count_events is_popped evs = 1
    /\ idx (frame st') = 2.
Proof.
  refine (X21_iterate_runs_to_the_end (list variant) nat eval_by_vcm
            range_get_executor false empty_stack stack_10_20_30
            iterate_10_20_30 ctxt_10_20_30 range_ops _ 0 None 3 3
            eq_refl _ eq_refl eq_refl eq_refl eq_refl eq_refl
            iterates_10_20_30 _).
  - repeat constructor; discriminate.
  - lia.
Defined.

End IterateFrameSamples.

Section ArchetypeContinuation.
Import Run Archetype.

Variable env : environment.

(** X22. A fetch stopped by the user ends the continuation of an
    archetype at once: it returns without touching the error slot or
    parsing the response, drops the response stream and sets the next step
    to on-popping.  And however the fetch went, a continuation that returns
    has created no binding, has dropped the response stream, has set the
    next step to on-popping and has left the attributes of the element as
    they were. *)
Theorem X22_continuation_after_user_stop (co : coroutine) :
  (ret_code (ctxt co) = RESP_CODE_USER_STOP env ->
     on_sync_continuation env co
     = ret {| ctxt := set_resp (ctxt co) None;
              next_step := NEXT_STEP_ON_POPPING;
              last_error := last_error co |})
  /\ (forall co',
        out (on_sync_continuation env co) = Some co' ->
        bindings (on_sync_continuation env co) = []
        /\ next_step co' = NEXT_STEP_ON_POPPING
        /\ ctxt co' = set_resp (ctxt co) None
        /\ (last_error co' = last_error co
            \/ last_error co' = PURC_ERROR_NO_DATA)).
Proof.
  unfold on_sync_continuation, bindings. split.
  - intros Hstop. rewrite Hstop, Z.eqb_refl. reflexivity.
  - intros co'. destruct (ret_code (ctxt co) =? RESP_CODE_USER_STOP env)%Z.
    { intros [= <-]. cbn. auto. }
    destruct (resp (ctxt co)) as [body|].
    + destruct (negb (ret_code (ctxt co) =? 200)%Z).
      * intros [= <-]. cbn. auto.
      * cbn. intros H. discriminate H.
    + intros [= <-]. cbn. auto.
Qed.

End ArchetypeContinuation.

Section ArchetypeContinuationSamples.
Import Run Archetype.

(** A fetch of [<archetype name="T" ...>] that the user stopped, although
    a body had arrived with status 200. *)
Example stopped_fetch_binds_nothing :
  let co := archetype_T (RESP_CODE_USER_STOP env_ok) (Some "1") in
  on_sync_continuation env_ok co
  = ret {| ctxt := set_resp (ctxt co) None;
           next_step := NEXT_STEP_ON_POPPING;
           last_error := PURC_ERROR_OK |}.
Proof. reflexivity. Qed.

End ArchetypeContinuationSamples.

Section DocumentCreation.
Import Document.

(** X23. A document can always be created for the type that
    [purc_document_retrieve_type] answers: whatever the target name,
    [purc_document_new] on that type finds an operation table, leaves the
    error slot alone and creates through the HTML table for "html" and the
    void table otherwise -- while [purc_document_new] on the types plain,
    xml and xgml themselves reports NOT_IMPLEMENTED. *)
Theorem X23_new_after_retrieve {doc : Type}
    (create : purc_document_ops -> option doc) (name : option string)
    (err : purc_error) :
  purc_document_new create (purc_document_retrieve_type name) err
  = (create (match name with
             | Some s => if String.eqb s PCDOC_TYPE_HTML then pcdoc_html_ops
                         else pcdoc_void_ops
             | None => pcdoc_void_ops
             end), err)
  /\ (forall type,
        In type [PCDOC_K_TYPE_PLAIN; PCDOC_K_TYPE_XML; PCDOC_K_TYPE_XGML] ->
        purc_document_new create type err
        = (None, PURC_ERROR_NOT_IMPLEMENTED)).
Proof.
  split.
  - destruct name as [s|]; [|reflexivity].
    unfold purc_document_retrieve_type. rewrite retrieve_loop_cases.
    unfold PCDOC_TYPE_HTML. destruct (String.eqb s "html"); reflexivity.
  - intros type [<-|[<-|[<-|[]]]]; reflexivity.
Qed.

End DocumentCreation.

Section PcrdrAtoms.
Import Pcrdr.

Lemma nth_error_is_lookup {A} (l : list A) (i : nat) : nth_error l i = l !! i.
Proof.
  revert i. induction l as [|x l IH]; intros [|i]; try reflexivity.
  cbn. apply IH.
Qed.

Lemma opatoms_distinct : NoDup pcrdr_opatoms.
Proof.
  apply (bool_decide_unpack (NoDup pcrdr_opatoms)). vm_compute. exact I.
Qed.

Lemma operation_from_atom_inv (first op_atom : nat) op id :
  pcrdr_operation_from_atom first op_atom = Some (op, id) ->
  first <= op_atom /\ id = op_atom - first /\ pcrdr_opatoms !! id = Some op.
Proof.
  unfold pcrdr_operation_from_atom. cbv zeta.
  destruct (Nat.leb_spec first op_atom) as [Hlo|]; [|discriminate].
  cbn [andb]. destruct (_ <=? _); [|discriminate].
  destruct (nth_error pcrdr_opatoms (op_atom - first)) as [o|] eqn:Hnth;
    [|discriminate].
  intros [= <- <-]. rewrite nth_error_is_lookup in Hnth. auto.
Qed.

(** X24. [pcrdr_operation_from_atom] knows exactly the atoms that
    [renderer_init_once] allocated for the table: for each of them it
    answers the operation at the atom's offset together with that offset as
    the identifier, for any other atom it answers NULL, and no two atoms
    name the same operation. *)
Theorem X24_operation_from_atom (first : nat) :
  (forall op_atom,
     first <= op_atom < first + length pcrdr_opatoms ->
     exists op,
       pcrdr_operation_from_atom first op_atom
       = Some (op, op_atom - first)
       /\ nth_error pcrdr_opatoms (op_atom - first) = Some op)
  /\ (forall op_atom,
        op_atom < first \/ first + length pcrdr_opatoms <= op_atom ->
        pcrdr_operation_from_atom first op_atom = None)
  /\ (forall a1 a2 op id1 id2,
        pcrdr_operation_from_atom first a1 = Some (op, id1) ->
        pcrdr_operation_from_atom first a2 = Some (op, id2) ->
        a1 = a2).
Proof.
  change (length pcrdr_opatoms) with 26.
  split; [|split].
  - intros op_atom Hr. unfold pcrdr_operation_from_atom. cbv zeta.
    change (length pcrdr_opatoms) with 26.
    replace ((first <=? op_atom) && (op_atom <=? first + (26 - 1)))
      with true
      by (symmetry; apply andb_true_iff; split; apply Nat.leb_le; lia).
    destruct (nth_error pcrdr_opatoms (op_atom - first)) as [op|] eqn:Hnth.
    + exists op. split; reflexivity.
    + apply nth_error_None in Hnth.
      change (length pcrdr_opatoms) with 26 in Hnth. lia.
  - intros op_atom Hr. unfold pcrdr_operation_from_atom. cbv zeta.
    change (length pcrdr_opatoms) with 26.
    replace ((first <=? op_atom) && (op_atom <=? first + (26 - 1)))
      with false; [reflexivity|].
    symmetry. apply andb_false_iff.
    destruct Hr; [left; apply Nat.leb_gt|right; apply Nat.leb_gt]; lia.
  - intros a1 a2 op id1 id2 H1 H2.
    apply operation_from_atom_inv in H1, H2.
    destruct H1 as (L1 & E1 & N1), H2 as (L2 & E2 & N2).
    pose proof (NoDup_lookup _ _ _ _ opatoms_distinct N1 N2). lia.
Qed.

End PcrdrAtoms.

Section DocumentLifeProps.
Import Run DocumentLife.

Lemma wrap_small (z : Z) : (0 <= z <= UINT_MAX)%Z -> wrap z = z.
Proof. intros H. unfold wrap. apply Z.mod_small. unfold UINT_MAX in *. lia. Qed.

Lemma unref_live (doc : purc_document) :
  (1 <= refc doc <= UINT_MAX)%Z ->
  purc_document_unref doc
  = Run (if (refc doc =? 1)%Z then [EvDestroy] else [])
        (Some ((refc doc - 1)%Z, {| refc := (refc doc - 1)%Z |})).
Proof.
  intros H. unfold purc_document_unref. cbv zeta. cbn [refc].
  rewrite wrap_small; [|lia].
  replace (refc doc - 1 =? 0)%Z with (refc doc =? 1)%Z.
  - destruct (refc doc =? 1)%Z; reflexivity.
  - destruct (Z.eqb_spec (refc doc) 1), (Z.eqb_spec (refc doc - 1) 0);
      try reflexivity; lia.
Qed.

Lemma unref_times_counts (n : nat) :
  forall doc : purc_document,
    (Z.of_nat n <= refc doc <= UINT_MAX)%Z ->
    evals (unref_times n doc)
          (if (0 <? n) && (Z.of_nat n =? refc doc)%Z then [EvDestroy] else [])
          {| refc := (refc doc - Z.of_nat n)%Z |}.
Proof.
  induction n as [|n IH]; intros doc H.
  - cbn [unref_times Nat.ltb Nat.leb andb]. destruct doc as [r]. cbn [refc].
    replace (r - Z.of_nat 0)%Z with r by lia. apply evals_ret.
  - cbn [unref_times]. rewrite unref_live; [|lia].
    unfold bind. cbn [out log snd].
    destruct (IH {| refc := (refc doc - 1)%Z |}) as [Hl Ho];
      [cbn [refc]; lia|].
    cbn [refc] in Hl, Ho. rewrite Hl, Ho.
    replace (refc doc - 1 - Z.of_nat n)%Z with (refc doc - Z.of_nat (S n))%Z
      by lia.
    split; [|reflexivity]. cbn [log].
    replace (0 <? S n) with true by reflexivity. cbn [andb].
    destruct (Z.eqb_spec (refc doc) 1) as [H1|H1];
      destruct (Z.eqb_spec (Z.of_nat (S n)) (refc doc)) as [H2|H2];
      destruct (Z.eqb_spec (Z.of_nat n) (refc doc - 1)) as [H3|H3];
      destruct (Nat.ltb_spec 0 n) as [H4|H4];
      cbn [andb app]; try reflexivity; lia.
Qed.

(** X25. The reference count of a document.  A reference taken and given
    back leaves a live document as it was and destroys nothing, also when
    the count wraps at 2^32 in between; [purc_document_unref] returns the
    count it leaves and destroys the document exactly when that is zero;
    giving back as many references as the count holds destroys the document
    once, with the last of them, and fewer destroy nothing; and an unref of
    a count of zero wraps to [UINT_MAX] without destroying anything, while
    [purc_document_delete] destroys whatever the count. *)
Theorem X25_document_reference_count (doc : purc_document) (n : nat) :
  refc_valid doc ->
  ((1 <= refc doc)%Z ->
     purc_document_unref (purc_document_ref doc) = ret (refc doc, doc))
  /\ ((1 <= refc doc)%Z ->
        evals (purc_document_unref doc)
              (if (refc doc =? 1)%Z then [EvDestroy] else [])
              ((refc doc - 1)%Z, {| refc := (refc doc - 1)%Z |}))
  /\ ((Z.of_nat n <= refc doc)%Z ->
        evals (unref_times n doc)
              (if (0 <? n) && (Z.of_nat n =? refc doc)%Z
               then [EvDestroy] else [])
              {| refc := (refc doc - Z.of_nat n)%Z |})
  /\ (refc doc = 0%Z ->
        purc_document_unref doc = ret (UINT_MAX, {| refc := UINT_MAX |}))
  /\ evals (purc_document_delete doc) [EvDestroy] (refc doc).
Proof.
  unfold refc_valid. intros Hv. split; [|split; [|split; [|split]]].
  - intros Hlive. destruct doc as [r]. cbn [refc] in *.
    unfold purc_document_unref, purc_document_ref. cbv zeta. cbn [refc].
    assert (Hback : wrap (wrap (r + 1) - 1) = r).
    { unfold wrap. rewrite Zminus_mod_idemp_l.
      replace (r + 1 - 1)%Z with r by lia.
      apply Z.mod_small. unfold UINT_MAX in *. lia. }
    rewrite Hback.
    replace (r =? 0)%Z with false by (symmetry; apply Z.eqb_neq; lia).
    reflexivity.
  - intros Hlive. rewrite unref_live; [|lia]. split; reflexivity.
  - intros Hn. apply unref_times_counts. lia.
  - intros H0. unfold purc_document_unref. cbv zeta. cbn [refc]. rewrite H0.
    reflexivity.
  - split; reflexivity.
Qed.

End DocumentLifeProps.

Section DocumentLifeSamples.
Import Run DocumentLife.

Lemma X25_document_reference_count_witness :
  evals (unref_times 3 {| refc := 3%Z |}) [EvDestroy] {| refc := 0%Z |}
  /\ evals (unref_times 2 {| refc := 3%Z |}) [] {| refc := 1%Z |}.
Proof.
  split.
  - refine (proj1 (proj2 (proj2
              (X25_document_reference_count {| refc := 3%Z |} 3 _))) _);
      [unfold refc_valid, UINT_MAX; simpl; lia|simpl; lia].
  - refine (proj1 (proj2 (proj2
              (X25_document_reference_count {| refc := 3%Z |} 2 _))) _);
      [unfold refc_valid, UINT_MAX; simpl; lia|simpl; lia].
Defined.

End DocumentLifeSamples.

(* ===================================================================== *)
(** ** The children of an archetype element                               *)
(* ===================================================================== *)

Section ArchetypeChildrenProps.
Import Run ArchetypeChildren.

Variable append_ok : template -> pcvcm_node -> bool.
Variable bind_ok : string -> template -> bool.

(** With every append succeeding, a run over content children only reaches
    the end with the VCM trees appended in document order. *)
Lemma walk_children_contents (l : list pcvdom_node) :
  (forall t v, append_ok t v = true) ->
  forallb is_content l = true ->
  forall k cu nm t,
    walk_children append_ok l k
      {| curr := cu; name := nm; contents := Some t |}
    = Run [] (Some (None, {| curr := cu; name := nm;
                              contents := Some (t ++ content_vcms l) |})).
Proof.
  intros Happ. induction l as [|nd l IH]; intros Hall k cu nm t.
  - cbn. now rewrite app_nil_r.
  - cbn in Hall. apply andb_true_iff in Hall as [Hnd Hl].
    destruct nd as [| |vcm|]; try discriminate.
    destruct vcm as [v|].
    + cbn [walk_children]. unfold on_content. cbn [contents].
      rewrite Happ. unfold set_contents. cbn [curr name].
      rewrite run_bind_ret. cbn [fst snd]. rewrite (IH Hl).
      cbn [content_vcms omap]. now rewrite <- app_assoc.
    + cbn [walk_children]. unfold on_content.
      rewrite run_bind_ret. cbn [fst snd]. now rewrite (IH Hl).
Qed.

(** With every append succeeding, a child that is no content node stops
    the run with a failed assertion, and nothing has been logged. *)
Lemma walk_children_other (l : list pcvdom_node) :
  (forall t v, append_ok t v = true) ->
  forallb is_content l = false ->
  forall k cu nm t,
    walk_children append_ok l k
      {| curr := cu; name := nm; contents := Some t |}
    = Run [] None.
Proof.
  intros Happ. induction l as [|nd l IH]; intros Hall k cu nm t.
  - discriminate.
  - destruct nd as [| |vcm|]; try reflexivity.
    cbn in Hall. destruct vcm as [v|].
    + cbn [walk_children]. unfold on_content. cbn [contents].
      rewrite Happ. unfold set_contents. cbn [curr name].
      rewrite run_bind_ret. cbn [fst snd]. now rewrite (IH Hall).
    + cbn [walk_children]. unfold on_content.
      rewrite run_bind_ret. cbn [fst snd]. now rewrite (IH Hall).
Qed.

(** X26. [select_child] of an archetype never selects a child: whenever it
    returns, it returns NULL. For a frame whose context holds a string
    name and a template, with the cursor at the start, no back anchor
    further up and every append succeeding: if all children are content
    nodes, the one thing it does is to bind, once and at the end, the name
    to the template extended by the non-NULL VCM trees of the children in
    document order, which is also left in [frame->ctnt_var], with the
    cursor back at NULL and the error cleared; if that binding is refused
    the run stops at the failed assertion; and if some child is no content
    node the run stops at a failed assertion before anything is bound. *)
Theorem X26_archetype_children_bound_at_end :
  (forall stack r stack',
     out (select_child append_ok bind_ok stack) = Some (r, stack') ->
     r = None) /\
  (forall nm t0 children cv anch err,
     (forall t v, append_ok t v = true) ->
     anch <> ANCHOR_OTHER_FRAME ->
     let stack :=
       {| frame := {| ctxt := Some {| curr := None;
                                      name := Some (Vcm.VString nm);
                                      contents := Some t0 |};
                      pos := children; ctnt_var := cv |};
          back_anchor := anch; last_error := err |} in
     let t := t0 ++ content_vcms children in
     (forallb is_content children = true ->
      bind_ok nm t = true ->
      select_child append_ok bind_ok stack
      = Run [EvBindScopeVariable nm t]
          (Some (None,
                 {| frame := {| ctxt := Some {| curr := None;
                                                name := Some (Vcm.VString nm);
                                                contents := Some t |};
                                pos := children; ctnt_var := Some t |};
                    back_anchor := ANCHOR_NULL;
                    last_error := PURC_ERROR_OK |}))) /\
     (forallb is_content children = true ->
      bind_ok nm t = false ->
      select_child append_ok bind_ok stack
      = Run [EvBindScopeVariable nm t] None) /\
     (forallb is_content children = false ->
      select_child append_ok bind_ok stack = Run [] None)).
Proof.
  split.
  - intros stack r stack'. unfold select_child.
    destruct (ctxt (frame _)) as [c|]; [|now intros [= <- _]].
    destruct (back_anchor _); try (now intros [= <- _]).
    all: intros Ho; apply out_bind_inv in Ho as ([[k|] c'] & _ & Ho);
      [now injection Ho as <- _|];
      apply out_bind_inv in Ho as (rf & _ & Ho);
      apply out_bind_inv in Ho as (u & _ & Ho);
      now injection Ho as <- _.
  - intros nm t0 children cv anch err Happ Hanch stack t.
    repeat split.
    + intros Hall Hbind. subst stack t.
      destruct anch; try contradiction; unfold select_child; cbn;
        rewrite (walk_children_contents _ Happ Hall); cbn;
        rewrite Hbind; reflexivity.
    + intros Hall Hbind. subst stack t.
      destruct anch; try contradiction; unfold select_child; cbn;
        rewrite (walk_children_contents _ Happ Hall); cbn;
        rewrite Hbind; reflexivity.
    + intros Hall. subst stack t.
      destruct anch; try contradiction; unfold select_child; cbn;
        rewrite (walk_children_other _ Happ Hall); reflexivity.
Qed.

End ArchetypeChildrenProps.

Section ArchetypeChildrenSamples.
Import Run ArchetypeChildren.

(** An archetype with two content children around an empty one. *)
Lemma X26_archetype_children_bound_at_end_witness :
  select_child (fun _ _ => true) (fun _ _ => true)
    (fresh_stack "tpl" three_contents)
  = Run [EvBindScopeVariable "tpl"
           [Vcm.pcvcm_node_new_string "Hello"; Vcm.pcvcm_node_new_number 1]]
      (Some (None,
             {| frame :=
                  {| ctxt :=
                       Some {| curr := None;
                               name := Some (Vcm.VString "tpl");
                               contents :=
                                 Some [Vcm.pcvcm_node_new_string "Hello";
                                       Vcm.pcvcm_node_new_number 1] |};
                     pos := three_contents;
                     ctnt_var :=
                       Some [Vcm.pcvcm_node_new_string "Hello";
                             Vcm.pcvcm_node_new_number 1] |};
                back_anchor := ANCHOR_NULL;
                last_error := PURC_ERROR_OK |})).
Proof.
  exact (proj1 (proj2 (X26_archetype_children_bound_at_end
                         (fun _ _ => true) (fun _ _ => true))
                  "tpl" [] three_contents None ANCHOR_NULL
                  (PURC_ERROR_OTHER 1)
                  (fun _ _ => eq_refl) ltac:(discriminate))
           eq_refl eq_refl).
Defined.

End ArchetypeChildrenSamples.

(* ===================================================================== *)
(** ** Literal trees and the values they evaluate to                      *)
(* ===================================================================== *)

Section LiteralInduction.
Import Vcm.

Variable P : literal -> Prop.
Hypothesis HNull : P LNull.
Hypothesis HBoolean : forall b, P (LBoolean b).
Hypothesis HNumber : forall d, P (LNumber d).
Hypothesis HLongInt : forall i, P (LLongInt i).
Hypothesis HULongInt : forall u, P (LULongInt u).
Hypothesis HLongDouble : forall ld, P (LLongDouble ld).
Hypothesis HString : forall s, P (LString s).
Hypothesis HByteSequence : forall bytes, P (LByteSequence bytes).
Hypothesis HArray : forall ms, Forall P ms -> P (LArray ms).
Hypothesis HObject :
  forall ms, Forall (fun kv => P (snd kv)) ms -> P (LObject ms).

(** Induction on literals that reaches the members of arrays and
    objects. *)
Fixpoint literal_members_ind (l : literal) : P l :=
  match l with
  | LNull => HNull
  | LBoolean b => HBoolean b
  | LNumber d => HNumber d
  | LLongInt i => HLongInt i
  | LULongInt u => HULongInt u
  | LLongDouble ld => HLongDouble ld
  | LString s => HString s
  | LByteSequence bytes => HByteSequence bytes
  | LArray ms =>
      HArray ms
        ((fix go (ms : list literal) : Forall P ms :=
            match ms with
            | [] => List.Forall_nil P
            | m :: ms' =>
                @List.Forall_cons _ P m ms' (literal_members_ind m) (go ms')
            end) ms)
  | LObject ms =>
      HObject ms
        ((fix go (ms : list (string * literal))
            : Forall (fun kv => P (snd kv)) ms :=
            match ms with
            | [] => List.Forall_nil _
            | (k, v) :: ms' =>
                @List.Forall_cons _ (fun kv => P (snd kv)) (k, v) ms'
                  (literal_members_ind v) (go ms')
            end) ms)
  end.

End LiteralInduction.

Section LiteralTrees.
Import Vcm.

Lemma substring_whole (s : string) :
  String.substring 0 (String.length s) s = s.
Proof. induction s as [|a s IH]; cbn; [reflexivity|now rewrite IH]. Qed.

(** The evaluated children of an object node, for members already
    evaluated. *)
Definition member_values (ms : list (string * variant)) : list variant :=
  flat_map (fun kv => [VString (fst kv); snd kv]) ms.

Definition member_pairs (ms : list (string * variant))
  : list (variant * variant) :=
  map (fun kv => (VString (fst kv), snd kv)) ms.

(** Setting a key the object does not have appends the member. *)
Lemma object_set_fresh (done : list (string * variant)) k v :
  k ∉ map fst done ->
  purc_variant_object_set (member_pairs done) (VString k) v
  = member_pairs (done ++ [(k, v)]).
Proof.
  induction done as [|[k' v'] done IH]; intros Hk.
  - reflexivity.
  - cbn in Hk. apply not_elem_of_cons in Hk as [Hne Hk].
    cbn. destruct (String.eqb k' k) eqn:He.
    + apply String.eqb_eq in He. congruence.
    + f_equal. apply IH, Hk.
Qed.

(** The pairing loop over members with distinct keys keeps them all, in
    order. *)
Lemma object_pairs_distinct (rest done : list (string * variant)) :
  NoDup (map fst (done ++ rest)) ->
  object_pairs (member_pairs done) (member_values rest)
  = member_pairs (done ++ rest).
Proof.
  revert done. induction rest as [|[k v] rest IH]; intros done Hnd.
  - cbn. now rewrite app_nil_r.
  - cbn [member_values flat_map app fst snd object_pairs].
    rewrite object_set_fresh.
    + fold (member_values rest). rewrite IH.
      * now rewrite <- app_assoc.
      * now rewrite <- app_assoc.
    + rewrite map_app in Hnd. cbn in Hnd.
      apply NoDup_app in Hnd as (_ & Hdisj & _).
      intros Hin. apply (Hdisj k Hin). left.
Qed.

(** The pairing loop never looks at a child that has no partner. *)
Lemma object_pairs_odd_one_out (vals : list variant) :
  forall object x,
    Nat.Even (length vals) ->
    object_pairs object (vals ++ [x]) = object_pairs object vals.
Proof.
  induction vals as [vals IH] using (induction_ltof1 _ (@length _)).
  unfold ltof in IH. intros object x Hev.
  destruct vals as [|k [|v rest]].
  - reflexivity.
  - destruct Hev as [n Hn]. cbn in Hn. lia.
  - cbn [app object_pairs]. apply IH.
    + cbn. lia.
    + destruct Hev as [n Hn]. cbn in Hn. exists (n - 1). lia.
Qed.

(** X27. Evaluating the tree that the node constructors build for a
    literal value gives back that value, whatever the depth of nesting,
    provided no object of the literal names a member twice: scalars keep
    their payload, a byte sequence its bytes and length, an array its
    members in order and an object its members in the order written
    (setting a member of an object as modelled in
    [purc_variant_object_set]). *)
Theorem X27_literal_round_trip (l : literal) :
  keys_distinct l = true ->
  pcvcm_node_to_variant (node_of_literal l) = variant_of_literal l.
Proof.
  induction l as [| | | | | | |bytes|ms IH|ms IH] using literal_members_ind;
    intros Hk; try reflexivity.
  - cbn. now rewrite substring_whole.
  - cbn in *. f_equal. rewrite map_map.
    induction IH as [|m ms Hm _ IHms]; [reflexivity|].
    cbn in Hk. apply andb_true_iff in Hk as [Hk1 Hk2].
    cbn. now rewrite Hm, IHms.
  - cbn [keys_distinct] in Hk. apply andb_true_iff in Hk as [Hnd Hk].
    apply bool_decide_eq_true in Hnd.
    cbn [node_of_literal pcvcm_node_new_object pcvcm_node_new app
         pcvcm_node_to_variant variant_of_literal].
    f_equal.
    assert (Hvals :
      map pcvcm_node_to_variant
        (flat_map (fun kv => match kv with
                             | (k, v) =>
                                 [pcvcm_node_new_string k; node_of_literal v]
                             end) ms)
      = member_values (map (fun kv => (fst kv, variant_of_literal (snd kv)))
                           ms)).
    { clear Hnd. induction IH as [|[k v] ms Hv _ IHms]; [reflexivity|].
      cbn in Hk. apply andb_true_iff in Hk as [Hk1 Hk2].
      cbn in Hv. cbn. now rewrite (Hv Hk1), (IHms Hk2). }
    rewrite Hvals.
    rewrite (object_pairs_distinct _ []).
    + cbn [app]. unfold member_pairs. rewrite map_map.
      apply map_ext. now intros [k v].
    + cbn [app]. rewrite map_map. cbn [fst]. exact Hnd.
Qed.

(** X28. An object node with an odd number of children evaluates as if
    its last child were not there: the pairing loop of
    [pcvcm_node_object_to_variant] stops at a key that has no value. *)
Theorem X28_object_ignores_unpaired_child (nodes : list pcvcm_node)
    (extra : pcvcm_node) :
  Nat.Even (length nodes) ->
  pcvcm_node_to_variant (pcvcm_node_new_object (nodes ++ [extra]))
  = pcvcm_node_to_variant (pcvcm_node_new_object nodes).
Proof.
  intros Hev. cbn. f_equal. rewrite map_app. cbn [map].
  apply object_pairs_odd_one_out. now rewrite length_map.
Qed.

End LiteralTrees.

Section LiteralTreeSamples.
Import Vcm.

Lemma X27_literal_round_trip_witness :
  pcvcm_node_to_variant (node_of_literal nested_literal)
  = VObject [(VString "a", VArray [VNull; VBoolean true]);
             (VString "b", VObject [(VString "c", VString "d")])].
Proof.
  apply (X27_literal_round_trip nested_literal). vm_compute. reflexivity.
Defined.

(** [{ "a": 1, "b" }] evaluates as [{ "a": 1 }]. *)
Lemma X28_object_ignores_unpaired_child_witness :
  pcvcm_node_to_variant
    (pcvcm_node_new_object
       ([pcvcm_node_new_string "a"; pcvcm_node_new_longint 1]
        ++ [pcvcm_node_new_string "b"]))
  = pcvcm_node_to_variant
      (pcvcm_node_new_object
         [pcvcm_node_new_string "a"; pcvcm_node_new_longint 1]).
Proof.
  apply (X28_object_ignores_unpaired_child
           [pcvcm_node_new_string "a"; pcvcm_node_new_longint 1]
           (pcvcm_node_new_string "b")).
  exists 1. reflexivity.
Defined.

End LiteralTreeSamples.

(* ===================================================================== *)
(** ** The classes of an element                                          *)
(* ===================================================================== *)

Section DocumentClassProps.
Import DocumentClass.

Local Arguments is_delim : simpl never.

Local Abbreviation delim c := (is_delim CLASS_SEPARATOR c = true).
Local Abbreviation plain c := (is_delim CLASS_SEPARATOR c = false).

Lemma skip_delim_split (s : chars) :
  exists d,
    s = d ++ skip_delim CLASS_SEPARATOR s
    /\ Forall (fun c => delim c) d
    /\ match skip_delim CLASS_SEPARATOR s with
       | [] => True
       | c :: _ => plain c
       end.
Proof.
  induction s as [|c s (d & Hs & Hd & Hh)].
  - exists []. repeat split. constructor.
  - cbn [skip_delim]. destruct (is_delim CLASS_SEPARATOR c) eqn:Hc.
    + exists (c :: d). repeat split.
      * cbn. now rewrite <- Hs.
      * now constructor.
      * exact Hh.
    + exists []. repeat split; [constructor|exact Hc].
Qed.

Lemma cut_token_split (s : chars) :
  forall t r,
    cut_token CLASS_SEPARATOR s = (t, r) ->
    Forall (fun c => plain c) t
    /\ exists e, s = t ++ e
         /\ (e = [] /\ r = [] \/ exists c, delim c /\ e = c :: r).
Proof.
  induction s as [|c s IH]; intros t r Hcut.
  - injection Hcut as <- <-. split; [constructor|].
    exists []. split; [reflexivity|now left].
  - cbn [cut_token] in Hcut.
    destruct (is_delim CLASS_SEPARATOR c) eqn:Hc.
    + injection Hcut as <- <-. split; [constructor|].
      exists (c :: s). split; [reflexivity|]. right. now exists c.
    + destruct (cut_token CLASS_SEPARATOR s) as [t' r'].
      injection Hcut as <- <-.
      destruct (IH t' r' eq_refl) as (Ht & e & Hs & He).
      split; [now constructor|].
      exists e. split; [cbn; now rewrite <- Hs|exact He].
Qed.

(** What [strtok_r] finds: separators, a token, and what follows it. *)
Lemma strtok_r_some (s t r : chars) :
  strtok_r s CLASS_SEPARATOR = Some (t, r) ->
  exists d e,
    s = d ++ t ++ e
    /\ Forall (fun c => delim c) d
    /\ t <> []
    /\ Forall (fun c => plain c) t
    /\ (e = [] /\ r = [] \/ exists c, delim c /\ e = c :: r).
Proof.
  unfold strtok_r. intros Htok.
  destruct (skip_delim_split s) as (d & Hs & Hd & Hh).
  destruct (skip_delim CLASS_SEPARATOR s) as [|c s'] eqn:Hskip;
    [discriminate|].
  injection Htok as Hcut.
  change (cut_token CLASS_SEPARATOR (c :: s') = (t, r)) in Hcut.
  destruct (cut_token_split _ _ _ Hcut) as (Ht & e & Hs' & He).
  exists d, e. repeat split; try assumption.
  - now rewrite <- Hs'.
  - intros ->. cbn [cut_token] in Hcut. rewrite Hh in Hcut.
    destruct (cut_token CLASS_SEPARATOR s'). discriminate.
Qed.

Lemma strtok_r_none (s : chars) :
  strtok_r s CLASS_SEPARATOR = None -> Forall (fun c => delim c) s.
Proof.
  unfold strtok_r. intros Htok.
  destruct (skip_delim_split s) as (d & Hs & Hd & _).
  destruct (skip_delim CLASS_SEPARATOR s); [|discriminate].
  rewrite app_nil_r in Hs. now subst d.
Qed.

(** Two tokens that start at the same place are the same. *)
Lemma token_unique (t t' e e' : chars) :
  t ++ e = t' ++ e' ->
  Forall (fun c => plain c) t -> Forall (fun c => plain c) t' ->
  delim_or_none (head e) = true -> delim_or_none (head e') = true ->
  t = t'.
Proof.
  revert t'. induction t as [|a t IH]; intros [|a' t'] Heq Ht Ht' He He'.
  - reflexivity.
  - cbn in Heq. subst e. cbn in He.
    apply Forall_cons in Ht' as [Ha _]. congruence.
  - cbn in Heq. subst e'. cbn in He'.
    apply Forall_cons in Ht as [Ha _]. congruence.
  - cbn in Heq. injection Heq as <- Heq.
    apply Forall_cons in Ht as [_ Ht]. apply Forall_cons in Ht' as [_ Ht'].
    f_equal. now apply IH.
Qed.

(** A token does not start among the leading separators. *)
Lemma token_after_delims (d s1 pre tok post : chars) :
  d ++ s1 = pre ++ tok ++ post ->
  Forall (fun c => delim c) d ->
  tok <> [] -> Forall (fun c => plain c) tok ->
  exists pre1, pre = d ++ pre1 /\ s1 = pre1 ++ tok ++ post.
Proof.
  revert pre. induction d as [|x d IH]; intros pre Heq Hd Hne Htok.
  - now exists pre.
  - apply Forall_cons in Hd as [Hx Hd].
    destruct pre as [|y pre].
    + destruct tok as [|c tok]; [contradiction|].
      cbn in Heq. injection Heq as <- _.
      apply Forall_cons in Htok as [Hc _]. congruence.
    + cbn in Heq. injection Heq as <- Heq.
      destruct (IH pre Heq Hd Hne Htok) as (pre1 & -> & Hs1).
      now exists pre1.
Qed.

(** A token that ends before a later name: the name is in what
    [strtok_r] continues with. *)
Lemma token_before_name (t e pre1 rest : chars) :
  t ++ e = pre1 ++ rest ->
  Forall (fun c => plain c) t ->
  pre1 <> [] -> delim_or_none (last pre1) = true ->
  delim_or_none (head e) = true ->
  exists sep r pre2,
    e = sep :: r /\ r = pre2 ++ rest /\ delim_or_none (last pre2) = true.
Proof.
  revert pre1. induction t as [|a t IH]; intros pre1 Heq Ht Hne Hl He.
  - destruct pre1 as [|sep pre2]; [contradiction|].
    cbn in Heq. subst e. exists sep, (pre2 ++ rest), pre2.
    repeat split. rewrite last_cons in Hl.
    destruct (last pre2); [exact Hl|reflexivity].
  - destruct pre1 as [|a' pre1]; [contradiction|].
    cbn in Heq. injection Heq as <- Heq.
    apply Forall_cons in Ht as [Ha Ht].
    rewrite last_cons in Hl.
    destruct pre1 as [|b pre1].
    + cbn in Hl. congruence.
    + apply (IH (b :: pre1)); try assumption; [discriminate|].
      destruct (last (b :: pre1)) eqn:Hlast; [exact Hl|].
      now apply last_None in Hlast.
Qed.

Lemma delims_end_in_delim (d : chars) :
  Forall (fun c => delim c) d -> delim_or_none (last d) = true.
Proof.
  intros Hd. destruct (last d) as [c|] eqn:Hl; [|reflexivity].
  apply last_Some in Hl as (d' & ->).
  apply Forall_app in Hd as [_ Hd]. now apply Forall_cons in Hd as [Hc _].
Qed.

Lemma no_name_among_delims (s klass : chars) :
  Forall (fun c => delim c) s -> ~ class_listed s klass.
Proof.
  intros Hs (pre & tok & post & -> & Hne & Htok & _).
  destruct tok as [|c tok]; [contradiction|].
  apply Forall_cons in Htok as [Hc _].
  apply Forall_app in Hs as [_ Hs]. cbn in Hs.
  apply Forall_cons in Hs as [Hc' _]. congruence.
Qed.

(** The loop finishes within one round for each byte and one more, and it
    finds [klass] exactly when it is listed. *)
Lemma class_loop_listed (klass : chars) (fuel : nat) :
  forall s,
    length s < fuel ->
    exists found,
      class_loop fuel s klass = Some found
      /\ (found = true <-> class_listed s klass).
Proof.
  induction fuel as [|fuel IH]; intros s Hlen; [lia|].
  cbn [class_loop].
  destruct (strtok_r s CLASS_SEPARATOR) as [[t r]|] eqn:Htok.
  - destruct (strtok_r_some _ _ _ Htok) as (d & e & Hs & Hd & Hne & Ht & He).
    destruct (strcasecmp_eq t klass) eqn:Hcmp.
    + exists true. split; [reflexivity|]. split; [intros _|reflexivity].
      exists d, t, e. repeat split; try assumption.
      * now apply delims_end_in_delim.
      * destruct He as [[-> _]|(c & Hc & ->)]; [reflexivity|exact Hc].
    + assert (Hr : length r < fuel).
      { destruct t as [|a t]; [contradiction|].
        subst s. rewrite !length_app in Hlen. cbn in Hlen.
        destruct He as [[_ ->]|(c & _ & ->)]; cbn in *; lia. }
      destruct (IH r Hr) as (found & Hloop & Hfound).
      exists found. split; [exact Hloop|]. rewrite Hfound. split.
      * intros (pre' & tok & post & Hrr & Hne' & Htk & Hpre & Hpost & Hc).
        destruct He as [[_ ->]|(c & Hdc & ->)].
        { destruct pre'; [destruct tok; [contradiction|]|]; discriminate. }
        exists (d ++ t ++ c :: pre'), tok, post. repeat split; try assumption.
        -- rewrite Hs, Hrr. now rewrite <- !app_assoc.
        -- rewrite app_assoc, last_app, last_cons.
           destruct (last pre'); [exact Hpre|exact Hdc].
      * intros (pre & tok & post & Hss & Hne' & Htk & Hpre & Hpost & Hc).
        rewrite Hs in Hss.
        destruct (token_after_delims _ _ _ _ _ Hss Hd Hne' Htk)
          as (pre1 & -> & Hs1).
        assert (He' : delim_or_none (head e) = true).
        { destruct He as [[-> _]|(c & Hdc & ->)]; [reflexivity|exact Hdc]. }
        destruct pre1 as [|b pre1].
        { cbn [app] in Hs1.
          pose proof (token_unique _ _ _ _ Hs1 Ht Htk He' Hpost) as <-.
          congruence. }
        assert (Hl1 : delim_or_none (last (b :: pre1)) = true).
        { rewrite last_app in Hpre.
          destruct (last (b :: pre1)) eqn:Hlast; [exact Hpre|].
          now apply last_None in Hlast. }
        destruct (token_before_name _ _ _ _ Hs1 Ht ltac:(discriminate)
                    Hl1 He') as (sep & r' & pre2 & Hee & Hr' & Hl2).
        destruct He as [[-> _]|(c & _ & Hec)]; [discriminate|].
        rewrite Hec in Hee. injection Hee as -> ->.
        exists pre2, tok, post. repeat split; assumption.
  - exists false. split; [reflexivity|]. split; [discriminate|].
    intros Hl. exfalso.
    exact (no_name_among_delims _ _ (strtok_r_none _ Htok) Hl).
Qed.

(** X29. [pcdoc_element_has_class] always returns.  For a class name that
    is no valid identifier it returns [-1] and leaves [*found] as it was.
    Otherwise it returns [0], and [*found] is true exactly when the
    document has a class value (the first [len] bytes of what
    [get_special_attr] hands out) in which the name is listed: as a
    non-empty run of bytes between separators or the ends of the value,
    equal to the name up to the case of ASCII letters.  A document type
    that has no [get_special_attr] lists no class. *)
Theorem X29_has_class_finds_listed_names
    (valid : chars -> bool) (doc : purc_document) (klass : chars)
    (found0 : bool) :
  (valid klass = false ->
   pcdoc_element_has_class valid doc klass found0 = Some ((-1)%Z, found0))
  /\ (valid klass = true ->
      exists found,
        pcdoc_element_has_class valid doc klass found0 = Some (0%Z, found)
        /\ (found = true <->
            exists value, haystack_of doc = Some value
                          /\ class_listed value klass)
        /\ (get_special_attr doc = None -> found = false)).
Proof.
  unfold pcdoc_element_has_class. split; intros Hv; rewrite Hv; cbn [negb].
  - reflexivity.
  - destruct (haystack_of doc) as [value|] eqn:Hhay.
    + destruct (class_loop_listed klass (S (length value)) value
                  ltac:(lia)) as (found & -> & Hfound).
      exists found. split; [reflexivity|]. split.
      * rewrite Hfound. split.
        -- intros Hl. now exists value.
        -- now intros (value' & [= <-] & Hl).
      * intros Hop. unfold haystack_of, pcdoc_element_class,
          pcdoc_element_get_special_attr in Hhay. rewrite Hop in Hhay.
        cbn in Hhay. injection Hhay as <-.
        destruct found; [|reflexivity].
        exfalso. apply (no_name_among_delims [] klass); [constructor|].
        now apply Hfound.
    + exists false. split; [reflexivity|]. split.
      * split; [discriminate|]. now intros (value & [=] & _).
      * reflexivity.
Qed.

End DocumentClassProps.

Section DocumentClassSamples.
Import DocumentClass.

(** [class="nav  Main-Menu"] has the class [main-menu]. *)
Lemma X29_has_class_finds_listed_names_witness :
  exists found,
    pcdoc_element_has_class (fun _ => true) (doc_with_class "nav  Main-Menu")
      (String.list_ascii_of_string "main-menu") false = Some (0%Z, found)
    /\ (found = true <->
        exists value,
          haystack_of (doc_with_class "nav  Main-Menu") = Some value
          /\ class_listed value (String.list_ascii_of_string "main-menu"))
    /\ (get_special_attr (doc_with_class "nav  Main-Menu") = None ->
        found = false).
Proof.
  apply (proj2 (X29_has_class_finds_listed_names (fun _ => true)
                  (doc_with_class "nav  Main-Menu")
                  (String.list_ascii_of_string "main-menu") false)).
  reflexivity.
Defined.

Example has_class_ignores_case_and_blanks :
  pcdoc_element_has_class (fun _ => true) (doc_with_class "nav  Main-Menu")
    (String.list_ascii_of_string "main-menu") false = Some (0%Z, true)
  /\ pcdoc_element_has_class (fun _ => true)
       (doc_with_class "nav  Main-Menu")
       (String.list_ascii_of_string "menu") false = Some (0%Z, false).
Proof. split; vm_compute; reflexivity. Qed.

End DocumentClassSamples.
